(** * zipped-imgs-to-pdf: ordering, extraction and page composition

    A shallow embedding of [shared/sorting_logic.py], [shared/constants.py]
    and of the two core functions of [python/zipped_imgs_to_pdf.py]
    ([extract_images_from_zip] and [convert_images_to_pdf]), followed by
    the properties of the specification that are settled on it.  The two
    functions around them, [process_zip_file] and
    [find_zip_files_recursive], are embedded as well, with the file
    system as a further collaborator; [main], which is argument parsing
    and the exit status, is not.

    Conventions of the embedding.
    - A Python [str] is a [string]; a character is a code point in
      U+0000..U+00FF, so [ascii] is read as Latin-1.  On that range the
      character classes used by the program are exact: the regular
      expression class [\d] is '0'..'9', while [str.isdigit] also accepts
      the superscripts U+00B2, U+00B3 and U+00B9.  Above U+00FF, which
      the embedding does not reach, [str.isdigit] accepts further
      characters that [\d] and [int] refuse (U+2460 and others), and
      [\d] and [int] accept the decimal digits of other scripts.
    - A Python [int] is a [Z]; sizes read from an archive header are [N].
    - An exception is a value of [exn]; code that can raise returns a
      [result].
    - [pathlib] follows the POSIX flavour ([PurePosixPath]).
    - [zipfile] and Pillow are collaborators: what their calls return,
      raise and write is a parameter of the two functions (the records
      [zipfile] and [pillow]); printing and writing files are recorded
      in a trace. *)

From Stdlib Require Import Bool Ascii String List ZArith NArith Arith Lia.
From Stdlib Require Import Permutation Sorted.
Import ListNotations.
Local Open Scope string_scope.
Local Open Scope list_scope.

(** ** Exceptions *)

Inductive value_error : Type :=
| InvalidLiteral (s : string)          (* int() on a non-decimal string *)
| ExceedsExtractionSize                (* "ZIP file exceeds maximum extraction size" *)
| TooManyFiles (n : nat)               (* "ZIP file contains too many files" *)
| ExceedsMaxStrDigits (digits : nat).  (* int() on more than 4300 digits *)

Inductive exn : Type :=
| ValueError (why : value_error)
| TypeError
| BadZipFile
| OSError
| IndexError
| OtherException.

Inductive result (A : Type) : Type :=
| Ok (a : A)
| Raise (e : exn).

Arguments Ok {A} a.
Arguments Raise {A} e.

Definition bind {A B : Type} (r : result A) (f : A -> result B) : result B :=
  match r with
  | Ok a => f a
  | Raise e => Raise e
  end.

Notation "x <- c ;; k" := (bind c (fun x => k))
  (at level 61, c at next level, right associativity).

(** ** Python built-ins used by the program *)

Module Py.

Definition ord (c : ascii) : N := N_of_ascii c.

(** The class [\d] of [re] on [str] patterns. *)
Definition re_digit (c : ascii) : bool :=
  ((48 <=? ord c) && (ord c <=? 57))%N.

(** One character of [str.isdigit]: decimal digits and the superscript
    digits two, three and one. *)
Definition chr_isdigit (c : ascii) : bool :=
  re_digit c || (ord c =? 178)%N || (ord c =? 179)%N || (ord c =? 185)%N.

Fixpoint all_chars (p : ascii -> bool) (s : string) : bool :=
  match s with
  | EmptyString => true
  | String c s' => p c && all_chars p s'
  end.

(** [s.isdigit()]: false on the empty string. *)
Definition isdigit (s : string) : bool :=
  match s with
  | EmptyString => false
  | _ => all_chars chr_isdigit s
  end.

Definition digit_value (c : ascii) : Z := Z.of_N (ord c) - 48.

Fixpoint int_from (acc : Z) (s : string) : option Z :=
  match s with
  | EmptyString => Some acc
  | String c s' =>
      if re_digit c then int_from (10 * acc + digit_value c) s' else None
  end.

(** [sys.get_int_max_str_digits()], which the program leaves at its
    default. *)
Definition int_max_str_digits : nat := 4300.

(** The digits [int] scans: those at the start of the string, leading
    zeros included. *)
Fixpoint leading_digits (s : string) : nat :=
  match s with
  | EmptyString => 0
  | String c s' => if re_digit c then S (leading_digits s') else 0
  end.

(** [int(s)] for a string without sign, blank or underscore, which is
    all the program passes to it.  CPython refuses to convert more than
    [int_max_str_digits] digits, before it looks at what follows them. *)
Definition int (s : string) : result Z :=
  if (int_max_str_digits <? leading_digits s)%nat then
    Raise (ValueError (ExceedsMaxStrDigits (leading_digits s)))
  else
    match s with
    | EmptyString => Raise (ValueError (InvalidLiteral s))
    | _ => match int_from 0 s with
           | Some n => Ok n
           | None => Raise (ValueError (InvalidLiteral s))
           end
    end.

(** [re.split(r'(\d+)', text)]: the text between two matches, then the
    match itself, alternately; the list starts and ends with a piece of
    text between matches, which is empty where a match touches the
    border or the input is empty. *)
Fixpoint re_split_digits (text : string) : list string :=
  match text with
  | EmptyString => [EmptyString]
  | String c rest =>
      let tail := re_split_digits rest in
      if re_digit c then
        match tail with
        | EmptyString :: run :: tail' => EmptyString :: String c run :: tail'
        | _ => EmptyString :: String c EmptyString :: tail
        end
      else
        match tail with
        | piece :: tail' => String c piece :: tail'
        | [] => [String c EmptyString]
        end
  end.

(** [s[-1]], [None] where Python raises [IndexError] *)
Fixpoint last_char (s : string) : option ascii :=
  match s with
  | EmptyString => None
  | String c EmptyString => Some c
  | String _ s' => last_char s'
  end.

(** [s.startswith(p)] *)
Definition startswith (s p : string) : bool := String.prefix p s.

(** [p in s] for strings *)
Fixpoint contains (s p : string) : bool :=
  String.prefix p s ||
  match s with
  | EmptyString => false
  | String _ s' => contains s' p
  end.

(** Iterating over a [str] yields its characters as strings of length 1. *)
Fixpoint iter_chars (s : string) : list string :=
  match s with
  | EmptyString => []
  | String c s' => String c EmptyString :: iter_chars s'
  end.

Definition chr_lower (c : ascii) : ascii :=
  let n := ord c in
  if ((65 <=? n) && (n <=? 90)
      || (192 <=? n) && (n <=? 222) && negb (n =? 215))%N
  then ascii_of_N (n + 32) else c.

(** [s.lower()] *)
Fixpoint lower (s : string) : string :=
  match s with
  | EmptyString => EmptyString
  | String c s' => String (chr_lower c) (lower s')
  end.

(** [s.split('/')] *)
Fixpoint split_slash (s : string) : list string :=
  match s with
  | EmptyString => [EmptyString]
  | String c s' =>
      if Ascii.eqb c "/" then EmptyString :: split_slash s'
      else match split_slash s' with
           | piece :: tail => String c piece :: tail
           | [] => [String c EmptyString]
           end
  end.

(** [s.rfind('.')], [None] for -1 *)
Fixpoint rfind_dot (s : string) : option nat :=
  match s with
  | EmptyString => None
  | String c s' =>
      match rfind_dot s' with
      | Some i => Some (S i)
      | None => if Ascii.eqb c "." then Some 0 else None
      end
  end.

(** [s[i:]] *)
Fixpoint drop (i : nat) (s : string) : string :=
  match i, s with
  | 0, _ => s
  | S i', String _ s' => drop i' s'
  | S _, EmptyString => EmptyString
  end.

(** [s[:i]] *)
Fixpoint take (i : nat) (s : string) : string :=
  match i, s with
  | 0, _ => EmptyString
  | S i', String c s' => String c (take i' s')
  | S _, EmptyString => EmptyString
  end.

(** [sep.join(parts)] *)
Definition join (sep : string) (parts : list string) : string :=
  String.concat sep parts.

(** [a < b] for lists of strings: the first index where the two differ
    decides, or else the lengths. *)
Fixpoint list_lt (a b : list string) : bool :=
  match a, b with
  | [], [] => false
  | [], _ :: _ => true
  | _ :: _, [] => false
  | x :: a', y :: b' =>
      if (x =? y)%string then list_lt a' b' else String.ltb x y
  end.

(** [a == b] for lists of strings *)
Fixpoint list_eq (a b : list string) : bool :=
  match a, b with
  | [], [] => true
  | x :: a', y :: b' => (x =? y)%string && list_eq a' b'
  | _, _ => false
  end.

End Py.

(** ** pathlib.PurePosixPath *)

Module pathlib.

Record PurePath : Type := mkPath {
  root : string;             (* "", "/" or "//" *)
  parts : list string        (* the components after the root *)
}.

Definition is_component (piece : string) : bool :=
  negb (piece =? "") && negb (piece =? ".").

Definition parse_root (s : string) : string :=
  if Py.startswith s "//" && negb (Py.startswith s "///") then "//"
  else if Py.startswith s "/" then "/"
  else "".

(** [Path(s)] *)
Definition Path (s : string) : PurePath :=
  {| root := parse_root s;
     parts := filter is_component (Py.split_slash s) |}.

(** [p.name] *)
Definition name (p : PurePath) : string := last (parts p) "".

(** [p.suffix] *)
Definition suffix (p : PurePath) : string :=
  let n := name p in
  match Py.rfind_dot n with
  | Some i =>
      if ((0 <? i) && (i <? String.length n - 1))%nat then Py.drop i n else ""
  | None => ""
  end.

(** [p.stem] *)
Definition stem (p : PurePath) : string :=
  let n := name p in
  match Py.rfind_dot n with
  | Some i =>
      if ((0 <? i) && (i <? String.length n - 1))%nat then Py.take i n else n
  | None => n
  end.

(** [p.parent] *)
Definition parent (p : PurePath) : PurePath :=
  match parts p with
  | [] => p
  | _ => {| root := root p; parts := removelast (parts p) |}
  end.

(** [p / s] *)
Definition truediv (p : PurePath) (s : string) : PurePath :=
  let q := Path s in
  if root q =? "" then {| root := root p; parts := parts p ++ parts q |}
  else q.

(** [p._cparts]: the root, when there is one, then the components;
    paths are compared and tested for equality on these. *)
Definition cparts (p : PurePath) : list string :=
  if root p =? "" then parts p else root p :: parts p.

(** [p < q] *)
Definition path_lt (p q : PurePath) : bool :=
  Py.list_lt (cparts p) (cparts q).

(** [p == q] *)
Definition path_eq (p q : PurePath) : bool :=
  Py.list_eq (cparts p) (cparts q).

(** [str(p)] *)
Definition str (p : PurePath) : string :=
  match root p, parts p with
  | EmptyString, [] => "."
  | r, ps => r ++ Py.join "/" ps
  end.

End pathlib.

(** ** shared/constants.py *)

Module constants.

Definition IMAGE_EXTENSIONS : list string :=
  [".jpg"; ".jpeg"; ".png"; ".gif"; ".bmp"; ".tiff"; ".webp"].

Definition DEFAULT_PRIORITY_CHARS : string := "!".

Definition MAX_FILE_SIZE_BYTES : N := 100 * 1024 * 1024.
Definition MAX_EXTRACTED_SIZE_BYTES : N := 500 * 1024 * 1024.
Definition MAX_FILES_IN_ZIP : N := 10000.

End constants.

(** ** list.sort(key=...)

    [list.sort] computes the key of every element first, then runs a
    stable comparison sort that only ever asks [k1 < k2] of two keys.  The
    sort is embedded as the insertion sort CPython runs on short lists:
    elements are taken from left to right and each one is placed in the
    sorted prefix in front of the first element it is smaller than.  An
    exception raised by the key function or by a comparison ends the
    sort. *)

Section ListSort.

Context {A K : Type}.
Variable key : A -> result K.
Variable lt : K -> K -> result bool.

Fixpoint decorate (l : list A) : result (list (K * A)) :=
  match l with
  | [] => Ok []
  | x :: l' =>
      k <- key x ;;
      d <- decorate l' ;;
      Ok ((k, x) :: d)
  end.

Fixpoint insert (p : K * A) (sorted : list (K * A))
  : result (list (K * A)) :=
  match sorted with
  | [] => Ok [p]
  | q :: sorted' =>
      b <- lt (fst p) (fst q) ;;
      if b then Ok (p :: q :: sorted')
      else (r <- insert p sorted' ;; Ok (q :: r))
  end.

Fixpoint insert_all (todo sorted : list (K * A)) : result (list (K * A)) :=
  match todo with
  | [] => Ok sorted
  | p :: todo' =>
      sorted' <- insert p sorted ;;
      insert_all todo' sorted'
  end.

Definition list_sort (l : list A) : result (list A) :=
  d <- decorate l ;;
  s <- insert_all d [] ;;
  Ok (map snd s).

End ListSort.

(** ** shared/sorting_logic.py *)

Module sorting_logic.

Import constants.

(** [Path(filename).suffix.lower() in IMAGE_EXTENSIONS] *)
Definition is_image_file (filename : string) : bool :=
  existsb (String.eqb (Py.lower (pathlib.suffix (pathlib.Path filename))))
          IMAGE_EXTENSIONS.

(** An element of a sort key: [Union[int, str]]. *)
Inductive segment : Type :=
| SInt (n : Z)
| SStr (s : string).

(** [int(chunk) if chunk.isdigit() else chunk] *)
Definition convert (chunk : string) : result segment :=
  if Py.isdigit chunk then (n <- Py.int chunk ;; Ok (SInt n))
  else Ok (SStr chunk).

(** [[convert(chunk) for chunk in chunks]] *)
Fixpoint convert_all (chunks : list string) : result (list segment) :=
  match chunks with
  | [] => Ok []
  | chunk :: chunks' =>
      seg <- convert chunk ;;
      segs <- convert_all chunks' ;;
      Ok (seg :: segs)
  end.

Definition natural_sort_key (text : string) : result (list segment) :=
  let chunks := Py.re_split_digits text in
  convert_all chunks.

(** [a == b] on segments: an [int] never equals a [str]. *)
Definition segment_eqb (a b : segment) : bool :=
  match a, b with
  | SInt n, SInt m => (n =? m)%Z
  | SStr s, SStr t => (s =? t)%string
  | _, _ => false
  end.

(** [a < b] on segments: ['<' not supported between 'int' and 'str']. *)
Definition segment_lt (a b : segment) : result bool :=
  match a, b with
  | SInt n, SInt m => Ok (n <? m)%Z
  | SStr s, SStr t => Ok (String.ltb s t)
  | _, _ => Raise TypeError
  end.

(** [k1 < k2] on lists: the first position where the elements are not
    equal decides; without one, the shorter list is the smaller. *)
Fixpoint key_lt (k1 k2 : list segment) : result bool :=
  match k1, k2 with
  | [], [] => Ok false
  | [], _ :: _ => Ok true
  | _ :: _, [] => Ok false
  | a :: k1', b :: k2' =>
      if segment_eqb a b then key_lt k1' k2' else segment_lt a b
  end.

(** [k1 < k2] on [str] keys *)
Definition str_lt (k1 k2 : string) : result bool := Ok (String.ltb k1 k2).

(** [any(filename.startswith(char) for char in priority_chars)
     if priority_chars else False] *)
Definition is_priority (priority_chars filename : string) : bool :=
  if (priority_chars =? "")%string then false
  else existsb (fun char => Py.startswith filename char)
               (Py.iter_chars priority_chars).

(** The classification loop: one pass, appending to either list. *)
Definition classify (priority_chars : string) (image_files : list string)
  : list string * list string :=
  fold_left
    (fun (acc : list string * list string) img =>
       let (priority_files, normal_files) := acc in
       let filename := pathlib.name (pathlib.Path img) in
       if is_priority priority_chars filename
       then (priority_files ++ [img], normal_files)
       else (priority_files, normal_files ++ [img]))
    image_files ([], []).

Definition get_natural_sort_key (x : string) : result (list segment) :=
  natural_sort_key (pathlib.name (pathlib.Path x)).

Definition get_name_key (x : string) : result string :=
  Ok (pathlib.name (pathlib.Path x)).

Definition sort_images (image_files : list string)
  (use_natural_sort : bool) (priority_chars : string)
  : result (list string) :=
  let (priority_files, normal_files) := classify priority_chars image_files in
  if use_natural_sort then
    priority_sorted <- list_sort get_natural_sort_key key_lt priority_files ;;
    normal_sorted <- list_sort get_natural_sort_key key_lt normal_files ;;
    Ok (priority_sorted ++ normal_sorted)
  else
    priority_sorted <- list_sort get_name_key str_lt priority_files ;;
    normal_sorted <- list_sort get_name_key str_lt normal_files ;;
    Ok (priority_sorted ++ normal_sorted).

End sorting_logic.

(** ** Effects of python/zipped_imgs_to_pdf.py

    The two functions print progress and write files.  A run is embedded
    as the trace of its effects, in the order they happen, together with
    what it returns or raises. *)

Module effects.

Record ZipInfo : Type := mkZipInfo {
  filename : string;       (* path of the member as declared in the archive *)
  file_size : N            (* declared uncompressed size *)
}.

(** [ZipInfo.is_dir()], in CPython 3.11 [self.filename[-1] == '/']: it
    raises [IndexError] for a member whose name is empty. *)
Definition is_dir (info : ZipInfo) : result bool :=
  match Py.last_char (filename info) with
  | Some c => Ok (Ascii.eqb c "/")
  | None => Raise IndexError
  end.

Inductive mode : Type :=
| RGB | RGBA | LA | P
| OtherMode (name : string).      (* "L", "CMYK", "1", ... *)

(** An opened image: the file it is read from and its colour mode. *)
Record image : Type := mkImage {
  source : pathlib.PurePath;
  img_mode : mode
}.

(** What is appended to [images]. *)
Inductive page : Type :=
| OnWhite (img : image) (with_mask : bool)  (* pasted on a white RGB canvas *)
| ToRGB (img : image)                       (* [img.convert('RGB')] *)
| AsIs (img : image).

Inductive content : Type :=
| Member (info : ZipInfo)          (* an extracted archive member *)
| Document (pages : list page)     (* a complete PDF *)
| Partial.                         (* what an interrupted write left *)

Inductive message : Type :=
| WarnSuspiciousPath (declared : string)
| WarnNoImages (zip_name : string)
| ExtractingImage (idx total : nat) (member_name : string)
| ErrorNotValidZip (zip_name : string)
| SecurityError (why : value_error)
| ErrorExtracting (zip_name : string) (e : exn)
| ConvertingImages (total : nat)
| ConvertingImage (idx total : nat) (image_name : string)
| WarnCouldNotProcess (image_name : string) (e : exn)
| ErrorNoValidImages
| SavingPdf (page_count : nat)
| SuccessfullyCreated (pdf_name : string)
| PagesLine (page_count : nat)
| ErrorCreatingPdf (e : exn).

Inductive event : Type :=
| Print (m : message)
| Write (dest : pathlib.PurePath) (c : content).

Definition io (A : Type) : Type := (list event * result A)%type.

Definition ret {A : Type} (a : A) : io A := ([], Ok a).

Definition throw {A : Type} (e : exn) : io A := ([], Raise e).

Definition lift {A : Type} (r : result A) : io A := ([], r).

Definition print (m : message) : io unit := ([Print m], Ok tt).

Definition write (dest : pathlib.PurePath) (c : content) : io unit :=
  ([Write dest c], Ok tt).

Definition io_bind {A B : Type} (m : io A) (f : A -> io B) : io B :=
  match m with
  | (t, Ok a) => let (t', r) := f a in (t ++ t', r)
  | (t, Raise e) => (t, Raise e)
  end.

(** [try: m  except ... as e: handler e] *)
Definition try_except {A : Type} (m : io A) (handler : exn -> io A) : io A :=
  match m with
  | (t, Raise e) => let (t', r) := handler e in (t ++ t', r)
  | (t, Ok a) => (t, Ok a)
  end.

(** What a library call that writes one file did when it came back:
    it finished, or it raised, having touched the destination or not. *)
Inductive write_outcome : Type :=
| Written
| Failed (e : exn) (touched : bool).

Definition library_write (o : write_outcome) (dest : pathlib.PurePath)
  (c : content) : io unit :=
  match o with
  | Written => write dest c
  | Failed e true => io_bind (write dest Partial) (fun _ => throw e)
  | Failed e false => throw e
  end.

(** The collaborators: [zipfile] and [PIL.Image]. *)
Record zipfile : Type := mkZipfile {
  ZipFile : pathlib.PurePath -> result (list ZipInfo);
    (* opening the archive gives [zip_ref.filelist], or raises *)
  extract : ZipInfo -> pathlib.PurePath -> write_outcome
    (* [zip_ref.extract(file_info, temp_dir)] *)
}.

Record pillow : Type := mkPillow {
  Image_open : pathlib.PurePath -> result mode;
    (* reads the header only; the pixel data is decoded on demand *)
  load : pathlib.PurePath -> result unit;
    (* decoding the pixel data, as [convert], [split] and [paste] do *)
  save : list page -> pathlib.PurePath -> write_outcome
    (* [first.save(dest, 'PDF', save_all=True, append_images=rest)] *)
}.

End effects.

Notation "x <~ c ;; k" := (effects.io_bind c (fun x => k))
  (at level 61, c at next level, right associativity).
Notation "c ;;; k" := (effects.io_bind c (fun _ => k))
  (at level 61, right associativity).

(** ** python/zipped_imgs_to_pdf.py *)

Module zipped_imgs_to_pdf.

Import constants sorting_logic effects.

(** First pass over [zip_ref.filelist]: validate and collect. *)
Fixpoint first_pass (filelist : list ZipInfo) (total_extracted_size : N)
  (image_file_infos : list ZipInfo) : io (list ZipInfo) :=
  match filelist with
  | [] => ret image_file_infos
  | file_info :: rest =>
      directory <~ lift (is_dir file_info) ;;
      if directory then
        first_pass rest total_extracted_size image_file_infos
      else if Py.contains (filename file_info) ".."
              || Py.startswith (filename file_info) "/" then
        print (WarnSuspiciousPath (filename file_info)) ;;;
        first_pass rest total_extracted_size image_file_infos
      else if is_image_file (filename file_info) then
        let total_extracted_size :=
          (total_extracted_size + file_size file_info)%N in
        if (MAX_EXTRACTED_SIZE_BYTES <? total_extracted_size)%N then
          throw (ValueError ExceedsExtractionSize)
        else
          first_pass rest total_extracted_size
                     (image_file_infos ++ [file_info])
      else
        first_pass rest total_extracted_size image_file_infos
  end.

(** Second pass: extract every collected member.  [zip_ref.extract]
    writes the member below [temp_dir] at its declared path, the path the
    code then records as [extracted_path]. *)
Fixpoint second_pass (zip_ref : zipfile) (temp_dir : pathlib.PurePath)
  (total_images : nat) (todo : list ZipInfo) (idx : nat)
  (image_files : list string) : io (list string) :=
  match todo with
  | [] => ret image_files
  | file_info :: rest =>
      let name := pathlib.name (pathlib.Path (filename file_info)) in
      print (ExtractingImage idx total_images name) ;;;
      let extracted_path := pathlib.truediv temp_dir (filename file_info) in
      library_write (extract zip_ref file_info temp_dir)
                    extracted_path (Member file_info) ;;;
      second_pass zip_ref temp_dir total_images rest (S idx)
                  (image_files ++ [pathlib.str extracted_path])
  end.

Definition extract_images_from_zip (zip_ref : zipfile)
  (zip_path temp_dir : pathlib.PurePath)
  (use_natural_sort : bool) (priority_chars : string)
  : io (list pathlib.PurePath) :=
  try_except
    (filelist <~ lift (ZipFile zip_ref zip_path) ;;
     image_file_infos <~ first_pass filelist 0 [] ;;
     let total_images := List.length image_file_infos in
     if (MAX_FILES_IN_ZIP <? N.of_nat total_images)%N then
       throw (ValueError (TooManyFiles total_images))
     else if (total_images =? 0)%nat then
       print (WarnNoImages (pathlib.name zip_path)) ;;;
       ret []
     else
       image_files <~ second_pass zip_ref temp_dir total_images
                                  image_file_infos 1 [] ;;
       sorted_images <~ lift (sort_images image_files use_natural_sort
                                          priority_chars) ;;
       ret (map pathlib.Path sorted_images))
    (fun e =>
       match e with
       | BadZipFile =>
           print (ErrorNotValidZip (pathlib.name zip_path)) ;;; ret []
       | ValueError why =>
           print (SecurityError why) ;;; ret []
       | _ =>
           print (ErrorExtracting (pathlib.name zip_path) e) ;;; ret []
       end).

(** The body of the inner [try]: open one image and bring it to RGB. *)
Definition to_page (pil : pillow) (img_path : pathlib.PurePath)
  : result page :=
  m <- Image_open pil img_path ;;
  let img := mkImage img_path m in
  match m with
  | RGBA | LA | P =>
      (* [Image.new] gives the white canvas; [convert('RGBA')] for a
         palette image, or else [split], decodes the pixel data *)
      let img := match m with
                 | P => mkImage img_path RGBA
                 | _ => img
                 end in
      let has_alpha := match img_mode img with
                       | RGBA | LA => true
                       | _ => false
                       end in
      _ <- load pil img_path ;;
      Ok (OnWhite img has_alpha)
  | RGB => Ok (AsIs img)
  | OtherMode _ =>
      _ <- load pil img_path ;;
      Ok (ToRGB img)
  end.

(** The loop over [enumerate(image_paths, 1)]. *)
Fixpoint open_all (pil : pillow) (total_images : nat)
  (todo : list pathlib.PurePath) (idx : nat) (images : list page)
  : io (list page) :=
  match todo with
  | [] => ret images
  | img_path :: rest =>
      images <~ try_except
        (print (ConvertingImage idx total_images (pathlib.name img_path)) ;;;
         pg <~ lift (to_page pil img_path) ;;
         ret (images ++ [pg]))
        (fun e =>
           match e with
           | OSError =>
               print (WarnCouldNotProcess (pathlib.name img_path) e) ;;;
               ret images
           | _ => throw e
           end) ;;
      open_all pil total_images rest (S idx) images
  end.

Definition convert_images_to_pdf (pil : pillow)
  (image_paths : list pathlib.PurePath) (output_pdf : pathlib.PurePath)
  : io bool :=
  match image_paths with
  | [] => ret false
  | _ =>
      try_except
        (let total_images := List.length image_paths in
         print (ConvertingImages total_images) ;;;
         images <~ open_all pil total_images image_paths 1 [] ;;
         match images with
         | [] => print ErrorNoValidImages ;;; ret false
         | first_image :: remaining_images =>
             print (SavingPdf (List.length images)) ;;;
             library_write (save pil (first_image :: remaining_images)
                                 output_pdf)
                           output_pdf (Document images) ;;;
             print (SuccessfullyCreated (pathlib.name output_pdf)) ;;;
             print (PagesLine (List.length images)) ;;;
             ret true
         end)
        (fun e => print (ErrorCreatingPdf e) ;;; ret false)
  end.

End zipped_imgs_to_pdf.

(** ** python/zipped_imgs_to_pdf.py: one archive from start to end

    [process_zip_file] checks the archive file, makes a scratch
    directory, runs the two functions above and removes the directory.
    Its own effects are added to those of the two functions. *)

Module system.

Import effects.

Inductive notice : Type :=
| ErrorFileNotFound (zip_path : pathlib.PurePath)
| ErrorNotAZipFile (zip_path : pathlib.PurePath)
| ErrorFileTooLarge (zip_name : string) (file_size : N)
| FoundImages (count : nat)
| BlankLine
| WarnCouldNotRemoveTemp (e : exn)
| ErrorSearchingDirectory (directory : pathlib.PurePath) (e : exn).

Inductive action : Type :=
| Inner (ev : event)                  (* printed or written by a callee *)
| Notice (m : notice)                 (* printed by [process_zip_file] *)
| MakeTempDir (d : pathlib.PurePath)  (* [tempfile.mkdtemp()] came back *)
| RemoveTree (d : pathlib.PurePath).  (* [shutil.rmtree(d)] is called *)

Definition os (A : Type) : Type := (list action * result A)%type.

Definition os_ret {A : Type} (a : A) : os A := ([], Ok a).

Definition os_lift {A : Type} (r : result A) : os A := ([], r).

Definition act (a : action) : os unit := ([a], Ok tt).

(** The run of a callee, its effects kept in order. *)
Definition inner {A : Type} (m : io A) : os A := (map Inner (fst m), snd m).

Definition os_bind {A B : Type} (m : os A) (f : A -> os B) : os B :=
  match m with
  | (t, Ok a) => let (t', r) := f a in (t ++ t', r)
  | (t, Raise e) => (t, Raise e)
  end.

(** [try: m  finally: final]: [final] runs whatever [m] did; an exception
    of [final] takes the place of the outcome of [m]. *)
Definition try_finally {A : Type} (m : os A) (final : os unit) : os A :=
  match m, final with
  | (t, r), (t', Ok _) => (t ++ t', r)
  | (t, _), (t', Raise e) => (t ++ t', Raise e)
  end.

(** The file system calls of [process_zip_file]. *)
Record filesystem : Type := mkFilesystem {
  stat_size : pathlib.PurePath -> option N;
    (* [p.stat().st_size]; [None] when [p.exists()] is false *)
  mkdtemp : result string;
    (* [tempfile.mkdtemp()] *)
  rmtree : pathlib.PurePath -> result unit
    (* [shutil.rmtree(d)] *)
}.

(** Iterating over [directory.rglob(pattern)]: the paths it yields and,
    if the walk breaks off, the exception that ends it. *)
Record walk : Type := mkWalk {
  yielded : list pathlib.PurePath;
  failure : option exn
}.

(** The directory tree as [find_zip_files_recursive] sees it. *)
Record tree : Type := mkTree {
  rglob : pathlib.PurePath -> string -> walk;
  is_file : pathlib.PurePath -> result bool
}.

End system.

Declare Scope os_scope.
Delimit Scope os_scope with os.
Notation "x <~ c ;; k" := (system.os_bind c (fun x => k))
  (at level 61, c at next level, right associativity) : os_scope.
Notation "c ;;; k" := (system.os_bind c (fun _ => k))
  (at level 61, right associativity) : os_scope.

Module zipped_imgs_to_pdf_driver.

Import constants effects system zipped_imgs_to_pdf.

(** The [finally] block: remove the scratch directory, warn if that
    fails. *)
Definition cleanup (fs : filesystem) (temp_dir : pathlib.PurePath) : os unit :=
  (act (RemoveTree temp_dir) ;;;
   match rmtree fs temp_dir with
   | Ok _ => os_ret tt
   | Raise e => act (Notice (WarnCouldNotRemoveTemp e))
   end)%os.

Definition process_zip_file (fs : filesystem) (zip_ref : zipfile)
  (pil : pillow) (zip_path : pathlib.PurePath)
  (output_dir : option pathlib.PurePath)
  (use_natural_sort : bool) (priority_chars : string) : os bool :=
  (match stat_size fs zip_path with
   | None =>
       act (Notice (ErrorFileNotFound zip_path)) ;;; os_ret false
   | Some file_size =>
       if negb (Py.lower (pathlib.suffix zip_path) =? ".zip")%string then
         act (Notice (ErrorNotAZipFile zip_path)) ;;; os_ret false
       else if (MAX_FILE_SIZE_BYTES <? file_size)%N then
         act (Notice (ErrorFileTooLarge (pathlib.name zip_path) file_size)) ;;;
         os_ret false
       else
         let output_dir := match output_dir with
                           | None => pathlib.parent zip_path
                           | Some d => d
                           end in
         let output_pdf :=
           pathlib.truediv output_dir (pathlib.stem zip_path ++ ".pdf") in
         made <~ os_lift (mkdtemp fs) ;;
         let temp_dir := pathlib.Path made in
         act (MakeTempDir temp_dir) ;;;
         try_finally
           (image_paths <~ inner (extract_images_from_zip zip_ref zip_path
                                    temp_dir use_natural_sort
                                    priority_chars) ;;
            match image_paths with
            | [] => os_ret false
            | _ =>
                act (Notice (FoundImages (List.length image_paths))) ;;;
                act (Notice BlankLine) ;;;
                success <~ inner (convert_images_to_pdf pil image_paths
                                    output_pdf) ;;
                os_ret success
            end)
           (cleanup fs temp_dir)
   end)%os.

(** One [for] loop over a walk.  [zip_files] is the list both loops
    append to; it is handed on with the exception that ended the loop, if
    any, because the handler and the [return] still see it. *)
Fixpoint collect (t : tree) (unless_present : bool)
  (todo : list pathlib.PurePath) (zip_files : list pathlib.PurePath)
  : list pathlib.PurePath * option exn :=
  match todo with
  | [] => (zip_files, None)
  | zip_path :: rest =>
      match is_file t zip_path with
      | Raise e => (zip_files, Some e)
      | Ok false => collect t unless_present rest zip_files
      | Ok true =>
          if unless_present && existsb (pathlib.path_eq zip_path) zip_files
          then collect t unless_present rest zip_files
          else collect t unless_present rest (zip_files ++ [zip_path])
      end
  end.

Definition search (t : tree) (directory : pathlib.PurePath)
  (pattern : string) (unless_present : bool)
  (zip_files : list pathlib.PurePath)
  : list pathlib.PurePath * option exn :=
  let w := rglob t directory pattern in
  match collect t unless_present (yielded w) zip_files with
  | (zip_files, None) => (zip_files, failure w)
  | stopped => stopped
  end.

Definition find_zip_files_recursive (t : tree)
  (directory : pathlib.PurePath) : os (list pathlib.PurePath) :=
  let (zip_files, raised) :=
    match search t directory "*.zip" false [] with
    | (zip_files, None) => search t directory "*.ZIP" true zip_files
    | stopped => stopped
    end in
  (match raised with
   | Some e => act (Notice (ErrorSearchingDirectory directory e))
   | None => os_ret tt
   end ;;;
   os_lift (list_sort (fun p => Ok p)
                      (fun p q => Ok (pathlib.path_lt p q)) zip_files))%os.

End zipped_imgs_to_pdf_driver.

(** ** Notions used to state the properties *)

Section Specification.

Import sorting_logic effects.

(** The part of a path the sorter looks at. *)
Definition basename (img : string) : string :=
  pathlib.name (pathlib.Path img).

(** Every occurrence of [x] in [l] comes before every occurrence of [y]. *)
Definition precedes {A : Type} (x y : A) (l : list A) : Prop :=
  forall i j, nth_error l i = Some x -> nth_error l j = Some y -> i < j.

Definition is_int (seg : segment) : bool :=
  match seg with
  | SInt _ => true
  | SStr _ => false
  end.

(** A non-empty string of decimal digits. *)
Definition digit_run (d : string) : Prop :=
  d <> "" /\ Py.all_chars Py.re_digit d = true.

Definition starts_with_digit (s : string) : bool :=
  match s with
  | String c _ => Py.re_digit c
  | EmptyString => false
  end.

Fixpoint ends_with_digit (s : string) : bool :=
  match s with
  | EmptyString => false
  | String c EmptyString => Py.re_digit c
  | String _ s' => ends_with_digit s'
  end.

(** The input has a first and a last character and neither is a digit. *)
Definition starts_and_ends_with_non_digit (s : string) : bool :=
  negb (s =? "")%string && negb (starts_with_digit s)
  && negb (ends_with_digit s).

(** Comparison functions that decide a total order. *)
Class TotalCompare {T : Type} (cmp : T -> T -> comparison) : Prop := {
  compare_eq : forall a b, cmp a b = Eq -> a = b;
  compare_refl : forall a, cmp a a = Eq;
  compare_antisym : forall a b, cmp b a = CompOpp (cmp a b);
  compare_trans : forall a b c, cmp a b = Lt -> cmp b c = Lt -> cmp a c = Lt
}.

(** The order of sequences: first difference, then length. *)
Fixpoint lex_compare {T : Type} (cmp : T -> T -> comparison)
  (k1 k2 : list T) : comparison :=
  match k1, k2 with
  | [], [] => Eq
  | [], _ :: _ => Lt
  | _ :: _, [] => Gt
  | a :: k1', b :: k2' =>
      match cmp a b with
      | Eq => lex_compare cmp k1' k2'
      | c => c
      end
  end.

(** A total order on segments that agrees with [segment_lt] wherever
    that is defined; it only serves the proofs. *)
Definition segment_compare (a b : segment) : comparison :=
  match a, b with
  | SInt n, SInt m => (n ?= m)%Z
  | SStr s, SStr t => String.compare s t
  | SInt _, SStr _ => Lt
  | SStr _, SInt _ => Gt
  end.

Definition key_compare : list segment -> list segment -> comparison :=
  lex_compare segment_compare.

(** What a stable sort needs of its [<]: a strict weak order. *)
Class WeakOrder {A : Type} (ltb : A -> A -> bool) : Prop := {
  ltb_irrefl : forall x, ltb x x = false;
  ltb_asym : forall x y, ltb x y = true -> ltb y x = false;
  ltb_cotrans : forall x y z,
    ltb y x = false -> ltb z y = false -> ltb z x = false
}.

(** The chunks [re.split] gives: text without a digit, then a run of
    digits, alternately, ending with text. *)
Inductive split_shape : list string -> Prop :=
| shape_text (t : string) :
    Py.all_chars (fun c => negb (Py.re_digit c)) t = true ->
    split_shape [t]
| shape_run (t d : string) (rest : list string) :
    Py.all_chars (fun c => negb (Py.re_digit c)) t = true ->
    digit_run d ->
    split_shape rest ->
    split_shape (t :: d :: rest).

(** The same with the runs as long as they can be: between two runs
    the text is not empty, so no run goes on in the next chunk. *)
Inductive maximal_split : list string -> Prop :=
| maximal_text (t : string) :
    Py.all_chars (fun c => negb (Py.re_digit c)) t = true ->
    maximal_split [t]
| maximal_run (t d : string) (rest : list string) :
    Py.all_chars (fun c => negb (Py.re_digit c)) t = true ->
    digit_run d ->
    maximal_split rest ->
    (forall t' d' rest', rest = t' :: d' :: rest' -> t' <> "") ->
    maximal_split (t :: d :: rest).

(** The segment of a chunk: the number a run of digits stands for, the
    chunk itself for text. *)
Definition segment_of (chunk : string) (seg : segment) : Prop :=
  (digit_run chunk /\ exists n, Py.int chunk = Ok n /\ seg = SInt n)
  \/ (Py.all_chars (fun c => negb (Py.re_digit c)) chunk = true
      /\ seg = SStr chunk).

(** The keys [natural_sort_key] gives: a string, then an integer,
    alternately, ending with a string. *)
Inductive key_shape : list segment -> Prop :=
| shape_str (s : string) : key_shape [SStr s]
| shape_int (s : string) (n : Z) (rest : list segment) :
    key_shape rest -> key_shape (SStr s :: SInt n :: rest).

Definition is_lt (c : comparison) : bool :=
  match c with
  | Lt => true
  | _ => false
  end.

(** The sort of [list_sort] when neither keys nor comparisons raise. *)
Fixpoint insert_by {A : Type} (ltb : A -> A -> bool) (x : A)
  (sorted : list A) : list A :=
  match sorted with
  | [] => [x]
  | y :: sorted' =>
      if ltb x y then x :: y :: sorted' else y :: insert_by ltb x sorted'
  end.

Definition sort_by {A : Type} (ltb : A -> A -> bool) (l : list A) : list A :=
  fold_left (fun sorted x => insert_by ltb x sorted) l [].

(** The key of a name that has one. *)
Definition natural_key (img : string) : list segment :=
  match get_natural_sort_key img with
  | Ok k => k
  | Raise _ => []
  end.

Definition natural_ltb (x y : string) : bool :=
  is_lt (key_compare (natural_key x) (natural_key y)).

Definition name_ltb (x y : string) : bool :=
  String.ltb (basename x) (basename y).

(** The name has a natural-sort key: building it does not raise. *)
Definition has_natural_key (x : string) : Prop :=
  exists k, get_natural_sort_key x = Ok k.

(** The file is priority-marked. *)
Definition priority_of (priority_chars img : string) : bool :=
  is_priority priority_chars (basename img).

(** The member has an empty name, on which [is_dir()] raises. *)
Definition nameless (info : ZipInfo) : bool :=
  (filename info =? "")%string.

(** Every member has a name: the first pass can go through the list. *)
Definition named (filelist : list ZipInfo) : bool :=
  forallb (fun info => negb (nameless info)) filelist.

(** The members the first pass goes through: those before the first
    member without a name. *)
Fixpoint scanned (filelist : list ZipInfo) : list ZipInfo :=
  match filelist with
  | [] => []
  | info :: rest => if nameless info then [] else info :: scanned rest
  end.

(** The member is a directory entry: its name ends with a slash. *)
Definition is_directory (info : ZipInfo) : bool :=
  match Py.last_char (filename info) with
  | Some c => Ascii.eqb c "/"
  | None => false
  end.

(** Archive members that the first pass refuses, with a warning, and
    those it collects. *)
Definition suspicious (info : ZipInfo) : bool :=
  Py.contains (filename info) ".." || Py.startswith (filename info) "/".

Definition qualifies (info : ZipInfo) : bool :=
  negb (is_directory info) && negb (suspicious info)
  && is_image_file (filename info).

Definition refused (info : ZipInfo) : bool :=
  negb (is_directory info) && suspicious info.

(** The warnings of a first pass that goes through the whole list. *)
Definition warnings_of (filelist : list ZipInfo) : list event :=
  map (fun info => Print (WarnSuspiciousPath (filename info)))
      (filter refused filelist).

Definition declared_image_size (filelist : list ZipInfo) : N :=
  fold_right (fun info acc => (file_size info + acc)%N) 0%N
             (filter qualifies filelist).

(** The declared path has a [..] segment, or is absolute. *)
Definition has_parent_segment (declared : string) : bool :=
  existsb (String.eqb "..") (Py.split_slash declared).

Definition is_absolute (declared : string) : bool :=
  Py.startswith declared "/".

(** [p] lies below [dir]: same root, the components of [dir] followed by
    components none of which steps back up. *)
Definition inside (dir p : pathlib.PurePath) : Prop :=
  pathlib.root p = pathlib.root dir /\
  exists rel, pathlib.parts p = pathlib.parts dir ++ rel /\ ~ In ".." rel.

Fixpoint writes (t : list event) : list (pathlib.PurePath * content) :=
  match t with
  | [] => []
  | Write dest c :: t' => (dest, c) :: writes t'
  | Print _ :: t' => writes t'
  end.

(** A file written for one of the members [todo], below [temp_dir] at the
    member's declared path. *)
Definition written_by_second_pass (temp_dir : pathlib.PurePath)
  (todo : list ZipInfo) (w : pathlib.PurePath * content) : Prop :=
  exists fi, In fi todo /\ fst w = pathlib.truediv temp_dir (filename fi)
             /\ (snd w = Member fi \/ snd w = Partial).

(** Two runs return the same and write the same files. *)
Definition same_outcome {A : Type} (m1 m2 : io A) : Prop :=
  snd m1 = snd m2 /\ writes (fst m1) = writes (fst m2).

(** An archive library that lists [filelist] and extracts as [zip_ref]. *)
Definition listing (zip_ref : zipfile) (filelist : list ZipInfo) : zipfile :=
  mkZipfile (fun _ => Ok filelist) (extract zip_ref).

(** Collaborators for the examples: an archive library that lists
    [filelist] and extracts every member, and an imaging library for
    which the file named [bad] does not decode, every other file is an
    RGB image, and [save] ends as [o]. *)
Definition sample_zipfile (filelist : list ZipInfo) : zipfile :=
  mkZipfile (fun _ => Ok filelist) (fun _ _ => Written).

Definition sample_pillow (bad : string) (o : write_outcome) : pillow :=
  mkPillow
    (fun p => if (pathlib.name p =? bad)%string then Raise OSError else Ok RGB)
    (fun _ => Ok tt) (fun _ _ => o).

(** The pages of the images that decode, in input order. *)
Definition decoded_pages (pil : pillow) (image_paths : list pathlib.PurePath)
  : list page :=
  flat_map (fun img_path =>
              match zipped_imgs_to_pdf.to_page pil img_path with
              | Ok pg => [pg]
              | Raise _ => []
              end) image_paths.

(** The image decodes: the body of the inner [try] gives a page. *)
Definition decodes (pil : pillow) (img_path : pathlib.PurePath) : bool :=
  match zipped_imgs_to_pdf.to_page pil img_path with
  | Ok _ => true
  | Raise _ => false
  end.


(** The image raises something the inner handler lets through. *)
Definition breaks_composition (pil : pillow) (img_path : pathlib.PurePath)
  : Prop :=
  exists e, zipped_imgs_to_pdf.to_page pil img_path = Raise e /\ e <> OSError.










(** A character that [str.isdigit] takes for a digit and [\d] does not. *)
Definition superscript_digit (c : ascii) : bool :=
  Py.chr_isdigit c && negb (Py.re_digit c).

(** No character of [s] is such a digit; every ASCII string is. *)
Definition plain (s : string) : bool :=
  Py.all_chars (fun c => negb (superscript_digit c)) s.

(** The string has no [/]. *)
Definition no_slash (s : string) : bool :=
  Py.all_chars (fun c => negb (Ascii.eqb c "/")) s.

(** The string has no [.]. *)
Definition no_dot (s : string) : bool :=
  Py.all_chars (fun c => negb (Ascii.eqb c ".")) s.

(** What the handlers of [extract_images_from_zip] print for an
    exception. *)
Definition reported (zip_path : pathlib.PurePath) (e : exn) : message :=
  match e with
  | BadZipFile => ErrorNotValidZip (pathlib.name zip_path)
  | ValueError why => SecurityError why
  | _ => ErrorExtracting (pathlib.name zip_path) e
  end.

(** Where the second pass puts a member. *)
Definition extracted_path (temp_dir : pathlib.PurePath) (info : ZipInfo)
  : pathlib.PurePath :=
  pathlib.truediv temp_dir (filename info).

(** The colour policy: an image with alpha or a palette is pasted on
    white through its alpha channel, an RGB image is taken as it is,
    any other mode is converted. *)
Definition page_follows_policy (pg : page) : Prop :=
  match pg with
  | OnWhite img with_mask =>
      with_mask = true /\ (img_mode img = RGBA \/ img_mode img = LA)
  | ToRGB img => exists name, img_mode img = OtherMode name
  | AsIs img => img_mode img = RGB
  end.

(** The image a page is made from. *)
Definition page_image (pg : page) : image :=
  match pg with
  | OnWhite img _ => img
  | ToRGB img => img
  | AsIs img => img
  end.

(** The archive file passes the three checks of [process_zip_file]: it
    exists, its suffix is [.zip] in any case, and it is not larger than
    [MAX_FILE_SIZE_BYTES]. *)
Definition accepted (fs : system.filesystem) (zip_path : pathlib.PurePath)
  : bool :=
  match system.stat_size fs zip_path with
  | None => false
  | Some file_size =>
      (Py.lower (pathlib.suffix zip_path) =? ".zip")%string
      && (file_size <=? constants.MAX_FILE_SIZE_BYTES)%N
  end.

(** Where the document of an archive goes. *)
Definition destination (zip_path : pathlib.PurePath)
  (output_dir : option pathlib.PurePath) : pathlib.PurePath :=
  pathlib.truediv
    (match output_dir with
     | None => pathlib.parent zip_path
     | Some d => d
     end)
    (pathlib.stem zip_path ++ ".pdf").

(** Making or removing the scratch directory. *)
Definition touches_scratch (a : system.action) : bool :=
  match a with
  | system.MakeTempDir _ | system.RemoveTree _ => true
  | _ => false
  end.

(** The paths of a walk that a loop of [find_zip_files_recursive] gets
    through: those before the first one on which [is_file] raises. *)
Fixpoint answered (t : system.tree) (todo : list pathlib.PurePath)
  : list pathlib.PurePath :=
  match todo with
  | [] => []
  | p :: rest =>
      match system.is_file t p with
      | Ok _ => p :: answered t rest
      | Raise _ => []
      end
  end.

(** The exception of the first [is_file] call that raises, if any. *)
Fixpoint first_refusal (t : system.tree) (todo : list pathlib.PurePath)
  : option exn :=
  match todo with
  | [] => None
  | p :: rest =>
      match system.is_file t p with
      | Ok _ => first_refusal t rest
      | Raise e => Some e
      end
  end.

(** What ends the loop over a walk early: an [is_file] that raises on a
    path the walk yielded, or else the walk itself breaking off. *)
Definition walk_failure (t : system.tree) (w : system.walk) : option exn :=
  match first_refusal t (system.yielded w) with
  | Some e => Some e
  | None => system.failure w
  end.

(** The first failure of the search: of the loop over [*.zip], or else
    of the loop over [*.ZIP]. *)
Definition search_failure (t : system.tree) (directory : pathlib.PurePath)
  : option exn :=
  match walk_failure t (system.rglob t directory "*.zip") with
  | Some e => Some e
  | None => walk_failure t (system.rglob t directory "*.ZIP")
  end.

(** The paths the search got through before its first failure. *)
Definition gone_through (t : system.tree) (directory : pathlib.PurePath)
  : list pathlib.PurePath :=
  let lower := system.rglob t directory "*.zip" in
  answered t (system.yielded lower)
  ++ match walk_failure t lower with
     | Some _ => []
     | None => answered t (system.yielded (system.rglob t directory "*.ZIP"))
     end.

(** A directory tree for the examples: on a file system that ignores
    case both patterns find the same [files]; each of them is a file. *)
Definition sample_tree (files : list pathlib.PurePath) : system.tree :=
  system.mkTree (fun _ _ => system.mkWalk files None) (fun _ => Ok true).

(** The same tree, where asking whether the path named [bad] is a file
    raises [OSError]. *)
Definition sample_broken_tree (files : list pathlib.PurePath) (bad : string)
  : system.tree :=
  system.mkTree (fun _ _ => system.mkWalk files None)
                (fun p => if (pathlib.name p =? bad)%string then Raise OSError
                          else Ok true).

(** A file system for the examples: every path is a file of [size]
    bytes, the scratch directory is [/tmp/scratch], removal succeeds. *)
Definition sample_filesystem (size : N) : system.filesystem :=
  system.mkFilesystem (fun _ => Some size) (Ok "/tmp/scratch")
                      (fun _ => Ok tt).

(** What a run of [process_zip_file] wrote, apart from the scratch
    directory itself. *)
Fixpoint files_written (t : list system.action)
  : list (pathlib.PurePath * content) :=
  match t with
  | [] => []
  | system.Inner (Write dest c) :: t' => (dest, c) :: files_written t'
  | _ :: t' => files_written t'
  end.

End Specification.

(** * Properties *)

Import constants sorting_logic effects zipped_imgs_to_pdf.

(** ** The embedding on the examples of the docstrings and the tests *)

Example natural_sort_key_docstring :
  natural_sort_key "file_1.jpg" = Ok [SStr "file_"; SInt 1; SStr ".jpg"]
  /\ natural_sort_key "file_10.jpg" = Ok [SStr "file_"; SInt 10; SStr ".jpg"]
  /\ natural_sort_key "file_2.jpg" = Ok [SStr "file_"; SInt 2; SStr ".jpg"].
Proof.
  repeat split.
Qed.

Example re_split_digits_borders :
  Py.re_split_digits "" = [""]
  /\ Py.re_split_digits "12" = [""; "12"; ""]
  /\ Py.re_split_digits "a1b2" = ["a"; "1"; "b"; "2"; ""]
  /\ Py.re_split_digits "007x" = [""; "007"; "x"].
Proof.
  repeat split.
Qed.

Example sort_images_docstring :
  sort_images ["page_10.jpg"; "page_1.jpg"; "!cover.jpg"; "page_2.jpg";
               "!back.jpg"] true "!"
  = Ok ["!back.jpg"; "!cover.jpg"; "page_1.jpg"; "page_2.jpg"; "page_10.jpg"]
  /\ sort_images ["page_10.jpg"; "page_1.jpg"; "!cover.jpg"; "page_2.jpg";
                  "!back.jpg"] false "!"
     = Ok ["!back.jpg"; "!cover.jpg"; "page_1.jpg"; "page_10.jpg";
           "page_2.jpg"]
  /\ sort_images ["page_10.jpg"; "@special.jpg"; "!cover.jpg"; "page_2.jpg"]
                 true "!@"
     = Ok ["!cover.jpg"; "@special.jpg"; "page_2.jpg"; "page_10.jpg"].
Proof.
  repeat split.
Qed.

(** tests/test_natural_sort.py, zero-padded against non-padded names *)
Example sorted_by_natural_key_zero_padded :
  list_sort natural_sort_key key_lt
    ["page_001.jpg"; "page_1.jpg"; "page_10.jpg"; "page_010.jpg"; "page_2.jpg"]
  = Ok ["page_001.jpg"; "page_1.jpg"; "page_2.jpg"; "page_10.jpg";
        "page_010.jpg"].
Proof.
  reflexivity.
Qed.

(** tests/test_natural_sort.py, no priority character *)
Example sort_images_without_priority_chars :
  sort_images ["page_10.jpg"; "!cover.jpg"; "page_1.jpg"; "@special.jpg"]
              true ""
  = Ok ["!cover.jpg"; "@special.jpg"; "page_1.jpg"; "page_10.jpg"].
Proof.
  reflexivity.
Qed.

(** The basename decides, not the directory. *)
Example sort_images_on_paths :
  sort_images ["/tmp/x/b/page_2.jpg"; "/tmp/x/a/page_10.jpg";
               "/tmp/x/z/!cover.jpg"] true "!"
  = Ok ["/tmp/x/z/!cover.jpg"; "/tmp/x/b/page_2.jpg"; "/tmp/x/a/page_10.jpg"].
Proof.
  reflexivity.
Qed.

(** tests/test_shared_utils.py; a leading dot does not start a suffix. *)
Example is_image_file_on_names :
  map is_image_file
      ["photo.JPG"; "file.name.with.dots.jpg"; "archive.tar.gz"; "README";
       ".hidden.jpg"; ".DS_Store"; "photo.jpg."; "relative/path/to/photo.gif";
       "x/y.webp"; ".jpg"; ""]
  = [true; true; false; false; true; false; false; true; true; false; false].
Proof.
  reflexivity.
Qed.

Example pathlib_on_names :
  map (fun s => pathlib.name (pathlib.Path s))
      ["a/b/c.jpg"; "a/b/"; "/"; "."; ""; "a/."; "a/.."; "//a"; "./a"]
  = ["c.jpg"; "b"; ""; ""; ""; "a"; ".."; "a"; "a"]
  /\ pathlib.str (pathlib.truediv (pathlib.Path "/tmp/x") "a//b/./c.jpg")
     = "/tmp/x/a/b/c.jpg"
  /\ pathlib.str (pathlib.truediv (pathlib.Path "/tmp/x") "/etc/passwd")
     = "/etc/passwd".
Proof.
  repeat split.
Qed.

(** A run of the extraction: the directory and the text file are passed
    over, the member with a [..] is reported, the two images are
    extracted and come back sorted. *)
Example extract_images_from_zip_run :
  extract_images_from_zip
    (sample_zipfile [mkZipInfo "pages/" 0;
                     mkZipInfo "pages/page_10.png" 2048;
                     mkZipInfo "../escape.png" 2048;
                     mkZipInfo "notes.txt" 12;
                     mkZipInfo "pages/page_9.png" 1024])
    (pathlib.Path "in/comic.zip") (pathlib.Path "/tmp/scratch") true "!"
  = ([Print (WarnSuspiciousPath "../escape.png");
      Print (ExtractingImage 1 2 "page_10.png");
      Write (pathlib.Path "/tmp/scratch/pages/page_10.png")
            (Member (mkZipInfo "pages/page_10.png" 2048));
      Print (ExtractingImage 2 2 "page_9.png");
      Write (pathlib.Path "/tmp/scratch/pages/page_9.png")
            (Member (mkZipInfo "pages/page_9.png" 1024))],
     Ok [pathlib.Path "/tmp/scratch/pages/page_9.png";
         pathlib.Path "/tmp/scratch/pages/page_10.png"]).
Proof.
  reflexivity.
Qed.

(** tests/test_convert_to_pdf.py, a corrupted image between two good ones *)
Example convert_images_to_pdf_run :
  convert_images_to_pdf (sample_pillow "bad.jpg" Written)
    [pathlib.Path "t/good1.jpg"; pathlib.Path "t/bad.jpg";
     pathlib.Path "t/good2.jpg"]
    (pathlib.Path "t/output.pdf")
  = ([Print (ConvertingImages 3);
      Print (ConvertingImage 1 3 "good1.jpg");
      Print (ConvertingImage 2 3 "bad.jpg");
      Print (WarnCouldNotProcess "bad.jpg" OSError);
      Print (ConvertingImage 3 3 "good2.jpg");
      Print (SavingPdf 2);
      Write (pathlib.Path "t/output.pdf")
            (Document [AsIs (mkImage (pathlib.Path "t/good1.jpg") RGB);
                       AsIs (mkImage (pathlib.Path "t/good2.jpg") RGB)]);
      Print (SuccessfullyCreated "output.pdf");
      Print (PagesLine 2)],
     Ok true).
Proof.
  reflexivity.
Qed.

(** ** The exception monad *)

Lemma bind_ok_inv {A B : Type} (r : result A) (f : A -> result B) (b : B) :
  (x <- r ;; f x) = Ok b -> exists a, r = Ok a /\ f a = Ok b.
Proof.
  destruct r as [a | e]; simpl; intros H; [eauto | discriminate].
Qed.

Lemma bind_raise_inv {A B : Type} (r : result A) (f : A -> result B) (e : exn) :
  (x <- r ;; f x) = Raise e ->
  r = Raise e \/ exists a, r = Ok a /\ f a = Raise e.
Proof.
  destruct r as [a | e']; simpl; intros H; [right; eauto | left; congruence].
Qed.

Ltac inv_bind H :=
  let a := fresh "a" in
  let Ha := fresh "Ha" in
  apply bind_ok_inv in H; destruct H as (a & Ha & H).

(** ** Strings *)

Lemma re_digit_isdigit (c : ascii) :
  Py.re_digit c = true -> Py.chr_isdigit c = true.
Proof.
  unfold Py.chr_isdigit; intros ->; reflexivity.
Qed.

Lemma all_chars_impl (p q : ascii -> bool) (s : string) :
  (forall c, p c = true -> q c = true) ->
  Py.all_chars p s = true -> Py.all_chars q s = true.
Proof.
  intros Hpq; induction s as [| c s IH]; simpl; [reflexivity |].
  rewrite andb_true_iff; intros [Hc Hs].
  rewrite (Hpq _ Hc), (IH Hs); reflexivity.
Qed.

Lemma int_from_digits (d : string) (acc : Z) :
  Py.all_chars Py.re_digit d = true -> exists n, Py.int_from acc d = Some n.
Proof.
  revert acc; induction d as [| c d IH]; simpl; intros acc H.
  - eauto.
  - apply andb_true_iff in H as [Hc Hd]. rewrite Hc. apply IH, Hd.
Qed.

Lemma isdigit_digit_run (d : string) : digit_run d -> Py.isdigit d = true.
Proof.
  intros [Hne Hall]. destruct d as [| c d]; [congruence |].
  unfold Py.isdigit. eapply all_chars_impl; [apply re_digit_isdigit | exact Hall].
Qed.

Lemma leading_digits_all (d : string) :
  Py.all_chars Py.re_digit d = true -> Py.leading_digits d = String.length d.
Proof.
  induction d as [| c d IH]; simpl; [reflexivity |].
  rewrite andb_true_iff. intros [-> Hd]. now rewrite (IH Hd).
Qed.

Lemma leading_digits_le (s : string) : Py.leading_digits s <= String.length s.
Proof.
  induction s as [| c s IH]; simpl; [apply Nat.le_refl |].
  destruct (Py.re_digit c); lia.
Qed.

(** [int] on a run of digits: the length decides. *)
Lemma int_digit_run (d : string) :
  digit_run d ->
  exists n,
    Py.int_from 0 d = Some n
    /\ Py.int d
       = if (Py.int_max_str_digits <? String.length d)%nat
         then Raise (ValueError (ExceedsMaxStrDigits (String.length d)))
         else Ok n.
Proof.
  intros [Hne Hall].
  destruct (int_from_digits d 0 Hall) as [n Hn]. exists n.
  split; [exact Hn |].
  unfold Py.int. rewrite (leading_digits_all d Hall), Hn.
  destruct d; [congruence | reflexivity].
Qed.

Lemma int_digit_run_short (d : string) :
  digit_run d -> String.length d <= Py.int_max_str_digits ->
  exists n, Py.int d = Ok n.
Proof.
  intros Hd Hlen. destruct (int_digit_run d Hd) as (n & _ & ->).
  destruct (Nat.ltb_spec Py.int_max_str_digits (String.length d)); [lia |].
  eauto.
Qed.

Lemma convert_digit_run (d : string) :
  digit_run d -> convert d = (n <- Py.int d ;; Ok (SInt n)).
Proof.
  intros Hd. unfold convert. now rewrite (isdigit_digit_run d Hd).
Qed.

Lemma convert_digit_run_ok (d : string) (seg : segment) :
  digit_run d -> convert d = Ok seg ->
  exists n, Py.int d = Ok n /\ seg = SInt n.
Proof.
  intros Hd. rewrite (convert_digit_run d Hd). intros H.
  apply bind_ok_inv in H as (n & Hn & H). injection H as <-. eauto.
Qed.

Lemma convert_text (t : string) (seg : segment) :
  Py.all_chars (fun c => negb (Py.re_digit c)) t = true ->
  convert t = Ok seg -> seg = SStr t.
Proof.
  intros Hall. unfold convert.
  destruct (Py.isdigit t) eqn:Hd; [| congruence].
  destruct t as [| c t]; [discriminate |].
  simpl in Hall. apply andb_true_iff in Hall as [Hc _].
  apply negb_true_iff in Hc.
  unfold Py.int. cbn [Py.leading_digits Py.int_from]. rewrite Hc.
  discriminate.
Qed.

Lemma append_empty_r (s : string) : (s ++ "")%string = s.
Proof.
  induction s as [| c s IH]; simpl; [reflexivity | now rewrite IH].
Qed.

Lemma concat_empty_cons (x : string) (l : list string) :
  String.concat "" (x :: l) = (x ++ String.concat "" l)%string.
Proof.
  destruct l as [| y l]; simpl; [now rewrite append_empty_r | reflexivity].
Qed.

(** ** The chunks of [re.split] *)

Lemma re_split_digits_shape (text : string) :
  split_shape (Py.re_split_digits text).
Proof.
  induction text as [| c rest IH]; simpl.
  - constructor; reflexivity.
  - destruct (Py.re_digit c) eqn:Hc.
    + inversion IH as [t Ht | t d more Ht Hd Hmore]; subst.
      * destruct t; (apply shape_run;
          [reflexivity | split; [discriminate | simpl; now rewrite Hc]
          | constructor; assumption]).
      * destruct t as [| c' t].
        -- apply shape_run; [reflexivity | | assumption].
           destruct Hd as [_ Hd]. split; [discriminate |].
           simpl; now rewrite Hc.
        -- apply shape_run;
             [reflexivity | split; [discriminate | simpl; now rewrite Hc] |].
           apply shape_run; assumption.
    + inversion IH as [t Ht | t d more Ht Hd Hmore]; subst.
      * constructor. simpl. now rewrite Hc.
      * apply shape_run; [simpl; now rewrite Hc | assumption | assumption].
Qed.

Lemma re_split_digits_concat (text : string) :
  String.concat "" (Py.re_split_digits text) = text.
Proof.
  induction text as [| c rest IH]; [reflexivity |].
  simpl. destruct (Py.re_digit c).
  - destruct (Py.re_split_digits rest) as [| [| c' t] [| d more]] eqn:E;
      rewrite ?concat_empty_cons in *; simpl in *;
      rewrite ?concat_empty_cons in *; simpl in *; congruence.
  - destruct (Py.re_split_digits rest) as [| t more] eqn:E;
      rewrite ?concat_empty_cons in *; simpl in *; congruence.
Qed.

Lemma split_shape_odd (chunks : list string) :
  split_shape chunks -> Nat.odd (List.length chunks) = true.
Proof.
  induction 1 as [t Ht | t d rest Ht Hd Hrest IH]; [reflexivity |].
  exact IH.
Qed.

Lemma convert_all_shape (chunks : list string) (k : list segment) :
  split_shape chunks -> convert_all chunks = Ok k ->
  key_shape k /\ Forall2 (fun chunk seg => convert chunk = Ok seg) chunks k.
Proof.
  intros Hs; revert k.
  induction Hs as [t Ht | t d rest Ht Hd Hrest IH]; intros k H; simpl in H.
  - inv_bind H. injection H as <-.
    pose proof (convert_text _ _ Ht Ha); subst a.
    split; [constructor | repeat constructor; assumption].
  - inv_bind H. inv_bind H. injection H as <-.
    rename Ha0 into H. inv_bind H. inv_bind H. injection H as <-.
    destruct (IH _ Ha1) as [Hk Hf].
    pose proof (convert_text _ _ Ht Ha); subst a.
    destruct (convert_digit_run_ok d _ Hd Ha0) as (n & _ & ->).
    split; [constructor; assumption | repeat constructor; assumption].
Qed.

Lemma natural_sort_key_shape (text : string) (k : list segment) :
  natural_sort_key text = Ok k -> key_shape k.
Proof.
  intros H. apply (convert_all_shape (Py.re_split_digits text)); 
    [apply re_split_digits_shape | exact H].
Qed.

Lemma key_shape_parity (k : list segment) :
  key_shape k ->
  forall i seg, nth_error k i = Some seg -> is_int seg = Nat.odd i.
Proof.
  induction 1 as [s | s n rest Hrest IH]; intros i seg Hi.
  - destruct i as [| [| i]]; simpl in Hi; try discriminate.
    now injection Hi as <-.
  - destruct i as [| [| i]]; simpl in Hi.
    + now injection Hi as <-.
    + now injection Hi as <-.
    + rewrite (IH _ _ Hi). reflexivity.
Qed.

(** ** Total orders on keys *)

Lemma compare_lt_gt {T : Type} (cmp : T -> T -> comparison)
  `{!TotalCompare cmp} (a b : T) : cmp a b = Lt <-> cmp b a = Gt.
Proof.
  rewrite (compare_antisym (cmp := cmp) a b).
  destruct (cmp a b); simpl; split; congruence.
Qed.

Lemma total_compare_embed {T U : Type} (f : T -> U)
  (cmp : U -> U -> comparison) `{!TotalCompare cmp} :
  (forall a b, f a = f b -> a = b) ->
  TotalCompare (fun a b => cmp (f a) (f b)).
Proof.
  intros Hinj. constructor.
  - intros a b H. apply Hinj, (compare_eq (cmp := cmp) _ _ H).
  - intros a. apply (compare_refl (cmp := cmp)).
  - intros a b. apply (compare_antisym (cmp := cmp)).
  - intros a b c. apply (compare_trans (cmp := cmp)).
Qed.

#[export] Instance N_total_compare : TotalCompare N.compare.
Proof.
  constructor.
  - apply N.compare_eq.
  - apply N.compare_refl.
  - intros a b. apply N.compare_antisym.
  - intros a b c. rewrite !N.compare_lt_iff. apply N.lt_trans.
Qed.

#[export] Instance Z_total_compare : TotalCompare Z.compare.
Proof.
  constructor.
  - apply Z.compare_eq.
  - apply Z.compare_refl.
  - intros a b. apply Z.compare_antisym.
  - intros a b c. rewrite !Z.compare_lt_iff. apply Z.lt_trans.
Qed.

#[export] Instance lex_total_compare {T : Type} (cmp : T -> T -> comparison)
  `{!TotalCompare cmp} : TotalCompare (lex_compare cmp).
Proof.
  constructor.
  - induction a as [| x a IH]; intros [| y b]; simpl; try discriminate;
      [reflexivity |].
    destruct (cmp x y) eqn:E; try discriminate.
    intros H. now rewrite (compare_eq (cmp := cmp) _ _ E), (IH _ H).
  - induction a as [| x a IH]; simpl; [reflexivity |].
    now rewrite (compare_refl (cmp := cmp)).
  - induction a as [| x a IH]; intros [| y b]; simpl; try reflexivity.
    rewrite (compare_antisym (cmp := cmp) x y). destruct (cmp x y); simpl; auto.
  - induction a as [| x a IH]; intros [| y b] [| z c]; simpl;
      try discriminate; try reflexivity.
    destruct (cmp x y) eqn:Exy; try discriminate.
    + rewrite (compare_eq (cmp := cmp) _ _ Exy). destruct (cmp y z); try discriminate;
        [apply IH | reflexivity].
    + intros _. destruct (cmp y z) eqn:Eyz; try discriminate.
      * now rewrite <- (compare_eq (cmp := cmp) _ _ Eyz), Exy.
      * now rewrite (compare_trans (cmp := cmp) _ _ _ Exy Eyz).
Qed.

#[export] Instance ascii_total_compare : TotalCompare Ascii.compare.
Proof.
  apply (total_compare_embed N_of_ascii N.compare).
  intros a b H. rewrite <- (ascii_N_embedding a), <- (ascii_N_embedding b).
  now rewrite H.
Qed.

Lemma string_compare_lex (s t : string) :
  String.compare s t =
  lex_compare Ascii.compare (list_ascii_of_string s) (list_ascii_of_string t).
Proof.
  revert t; induction s as [| c s IH]; intros [| d t]; simpl; try reflexivity.
  now rewrite IH.
Qed.

#[export] Instance string_total_compare : TotalCompare String.compare.
Proof.
  pose proof (total_compare_embed list_ascii_of_string
                (lex_compare Ascii.compare)) as H.
  assert (Hinj : forall a b : string,
             list_ascii_of_string a = list_ascii_of_string b -> a = b).
  { intros a b E. rewrite <- (string_of_list_ascii_of_string a),
      <- (string_of_list_ascii_of_string b). now rewrite E. }
  specialize (H Hinj). destruct H as [H1 H2 H3 H4].
  constructor; intros; rewrite ?string_compare_lex in *; eauto.
Qed.

#[export] Instance segment_total_compare : TotalCompare segment_compare.
Proof.
  constructor.
  - intros [n | s] [m | t]; simpl; try discriminate; intros H.
    + now rewrite (Z.compare_eq _ _ H).
    + now rewrite (compare_eq (cmp := String.compare) _ _ H).
  - intros [n | s]; simpl;
      [apply Z.compare_refl | apply (compare_refl (cmp := String.compare))].
  - intros [n | s] [m | t]; simpl; try reflexivity;
      [apply Z.compare_antisym | apply (compare_antisym (cmp := String.compare))].
  - intros [n | s] [m | t] [p | u]; simpl; try discriminate; try reflexivity;
      [apply (compare_trans (cmp := Z.compare))
      | apply (compare_trans (cmp := String.compare))].
Qed.

#[export] Instance key_total_compare : TotalCompare key_compare.
Proof.
  exact (lex_total_compare segment_compare).
Qed.

(** A sort by a totally ordered key compares with a strict weak order. *)
Lemma weak_order_of_key {A T : Type} (cmp : T -> T -> comparison)
  `{!TotalCompare cmp} (kf : A -> T) :
  WeakOrder (fun x y => is_lt (cmp (kf x) (kf y))).
Proof.
  constructor.
  - intros x. now rewrite (compare_refl (cmp := cmp)).
  - intros x y. rewrite (compare_antisym (cmp := cmp) (kf x) (kf y)).
    destruct (cmp (kf x) (kf y)); simpl; congruence.
  - intros x y z Hyx Hzy.
    destruct (cmp (kf z) (kf x)) eqn:Ezx; try reflexivity. exfalso.
    destruct (cmp (kf z) (kf y)) eqn:Ezy; simpl in Hzy; try discriminate.
    + rewrite <- (compare_eq (cmp := cmp) _ _ Ezy), Ezx in Hyx.
      discriminate.
    + apply (compare_lt_gt cmp) in Ezy.
      pose proof (compare_trans (cmp := cmp) _ _ _ Ezy Ezx) as E.
      now rewrite E in Hyx.
Qed.

#[export] Instance natural_weak_order : WeakOrder natural_ltb.
Proof.
  exact (weak_order_of_key key_compare natural_key).
Qed.

#[export] Instance name_weak_order : WeakOrder name_ltb.
Proof.
  exact (weak_order_of_key String.compare basename).
Qed.

(** ** Comparing two keys never mixes types *)

Lemma string_ltb_compare (s t : string) :
  String.ltb s t = is_lt (String.compare s t).
Proof.
  unfold String.ltb. destruct (String.compare s t); reflexivity.
Qed.

Lemma key_lt_step_str (s t : string) (k1 k2 : list segment) :
  key_lt k1 k2 = Ok (is_lt (key_compare k1 k2)) ->
  key_lt (SStr s :: k1) (SStr t :: k2)
  = Ok (is_lt (key_compare (SStr s :: k1) (SStr t :: k2))).
Proof.
  intros H. unfold key_compare in *. simpl.
  destruct (String.eqb_spec s t) as [-> | Hne].
  - now rewrite (compare_refl (cmp := String.compare)).
  - rewrite string_ltb_compare.
    destruct (String.compare s t) eqn:E; try reflexivity.
    elim Hne. apply (compare_eq (cmp := String.compare) _ _ E).
Qed.

Lemma key_lt_step_int (n m : Z) (k1 k2 : list segment) :
  key_lt k1 k2 = Ok (is_lt (key_compare k1 k2)) ->
  key_lt (SInt n :: k1) (SInt m :: k2)
  = Ok (is_lt (key_compare (SInt n :: k1) (SInt m :: k2))).
Proof.
  intros H. unfold key_compare in *. simpl.
  destruct (Z.eqb_spec n m) as [-> | Hne].
  - now rewrite Z.compare_refl.
  - unfold Z.ltb. destruct (n ?= m)%Z eqn:E; try reflexivity.
    elim Hne. apply (Z.compare_eq _ _ E).
Qed.

Lemma key_lt_shape (k1 k2 : list segment) :
  key_shape k1 -> key_shape k2 ->
  key_lt k1 k2 = Ok (is_lt (key_compare k1 k2)).
Proof.
  intros H1; revert k2.
  induction H1 as [s | s n rest Hrest IH]; intros k2 H2;
    inversion H2 as [t | t m rest' Hrest']; subst;
    apply key_lt_step_str; try reflexivity.
  apply key_lt_step_int. apply IH, Hrest'.
Qed.

Lemma key_shape_same_kind (k1 k2 : list segment) :
  key_shape k1 -> key_shape k2 ->
  forall i a b, nth_error k1 i = Some a -> nth_error k2 i = Some b ->
                is_int a = is_int b.
Proof.
  intros H1 H2 i a b Ha Hb.
  now rewrite (key_shape_parity _ H1 _ _ Ha), (key_shape_parity _ H2 _ _ Hb).
Qed.

(** ** The stable sort *)

Section SortFacts.

Context {A : Type} (ltb : A -> A -> bool).

Lemma insert_by_perm (x : A) (l : list A) :
  Permutation (insert_by ltb x l) (x :: l).
Proof.
  induction l as [| y l IH]; simpl; [reflexivity |].
  destruct (ltb x y); [reflexivity |].
  rewrite IH. apply perm_swap.
Qed.

Lemma insert_all_perm (l acc : list A) :
  Permutation (fold_left (fun sorted x => insert_by ltb x sorted) l acc)
              (acc ++ l).
Proof.
  revert acc; induction l as [| x l IH]; intros acc; simpl.
  - now rewrite app_nil_r.
  - rewrite IH, insert_by_perm. apply Permutation_middle.
Qed.

Lemma sort_by_perm (l : list A) : Permutation (sort_by ltb l) l.
Proof.
  apply (insert_all_perm l []).
Qed.

Context `{!WeakOrder ltb}.

Let le (x y : A) : Prop := ltb y x = false.

Lemma insert_by_sorted (x : A) (l : list A) :
  StronglySorted le l -> StronglySorted le (insert_by ltb x l).
Proof.
  induction 1 as [| y l Hl IH Hy]; simpl.
  - repeat constructor.
  - destruct (ltb x y) eqn:E.
    + constructor; [constructor; assumption |].
      assert (Hxy : le x y) by (apply ltb_asym, E).
      constructor; [exact Hxy |].
      eapply Forall_impl; [| exact Hy].
      intros z Hz. unfold le in *. eapply ltb_cotrans; eassumption.
    + constructor; [exact IH |].
      rewrite (Forall_forall (le y)). intros z Hz.
      apply (Permutation_in _ (insert_by_perm x l)) in Hz.
      destruct Hz as [<- | Hz]; [exact E |].
      rewrite Forall_forall in Hy. apply Hy, Hz.
Qed.

Lemma insert_all_sorted (l acc : list A) :
  StronglySorted le acc ->
  StronglySorted le (fold_left (fun sorted x => insert_by ltb x sorted) l acc).
Proof.
  revert acc; induction l as [| x l IH]; intros acc Hacc; simpl;
    [exact Hacc | apply IH, insert_by_sorted, Hacc].
Qed.

Lemma sort_by_sorted (l : list A) : StronglySorted le (sort_by ltb l).
Proof.
  apply insert_all_sorted. constructor.
Qed.

Lemma sorted_precedes (x y : A) (l : list A) :
  StronglySorted le l -> ltb x y = true -> precedes x y l.
Proof.
  intros Hl Hxy. induction Hl as [| z l Hl IH Hz]; intros i j Hi Hj.
  - destruct i; discriminate.
  - destruct i as [| i], j as [| j]; simpl in *.
    + injection Hi as ->. injection Hj as ->.
      rewrite ltb_irrefl in Hxy. discriminate.
    + apply Nat.lt_0_succ.
    + injection Hj as ->. apply nth_error_In in Hi.
      rewrite Forall_forall in Hz. specialize (Hz _ Hi).
      unfold le in Hz. congruence.
    + apply -> Nat.succ_lt_mono. eapply IH; eassumption.
Qed.

Lemma sort_by_precedes (x y : A) (l : list A) :
  ltb x y = true -> precedes x y (sort_by ltb l).
Proof.
  apply sorted_precedes, sort_by_sorted.
Qed.

(** Stability: elements that the order does not separate keep the
    order they came in. *)
Lemma insert_by_filter (P : A -> bool) (x : A) (l : list A) :
  (forall a b, P a = true -> P b = true -> ltb a b = false) ->
  StronglySorted le l ->
  filter P (insert_by ltb x l) = filter P l ++ filter P [x].
Proof.
  intros HP. induction 1 as [| y l Hl IH Hy]; simpl; [reflexivity |].
  destruct (ltb x y) eqn:E; simpl.
  - destruct (P x) eqn:Px; [| now rewrite app_nil_r].
    assert (Hnone : filter P (y :: l) = []).
    { assert (Hall : Forall (fun z => P z = false) (y :: l)).
      { constructor.
        - destruct (P y) eqn:Py; [| reflexivity].
          rewrite (HP _ _ Px Py) in E. discriminate.
        - rewrite Forall_forall in *. intros z Hz.
          destruct (P z) eqn:Pz; [| reflexivity].
          specialize (Hy _ Hz). unfold le in Hy.
          pose proof (ltb_cotrans (ltb := ltb) y z x Hy (HP _ _ Px Pz)) as C.
          congruence. }
      clear - Hall. induction Hall as [| z l' Hz _ IH']; simpl;
        [reflexivity | now rewrite Hz]. }
    simpl in Hnone. now rewrite Hnone.
  - simpl in IH. rewrite IH. now destruct (P y).
Qed.

Lemma insert_all_filter (P : A -> bool) (l acc : list A) :
  (forall a b, P a = true -> P b = true -> ltb a b = false) ->
  StronglySorted le acc ->
  filter P (fold_left (fun sorted x => insert_by ltb x sorted) l acc)
  = filter P acc ++ filter P l.
Proof.
  intros HP. revert acc; induction l as [| x l IH]; intros acc Hacc; simpl.
  - now rewrite app_nil_r.
  - rewrite IH by (apply insert_by_sorted, Hacc).
    rewrite (insert_by_filter P x acc HP Hacc). simpl.
    destruct (P x); simpl; now rewrite <- ?app_assoc, ?app_nil_r.
Qed.

Lemma sort_by_stable (P : A -> bool) (l : list A) :
  (forall a b, P a = true -> P b = true -> ltb a b = false) ->
  filter P (sort_by ltb l) = filter P l.
Proof.
  intros HP. apply (insert_all_filter P l [] HP). constructor.
Qed.

End SortFacts.

(** ** [list_sort] against the pure sort *)

Section ListSortFacts.

Context {A K : Type} (key : A -> result K) (lt : K -> K -> result bool).
Context (kf : A -> K) (ltb : A -> A -> bool) (D : A -> Prop).
Hypothesis key_ok : forall x, D x -> key x = Ok (kf x).
Hypothesis lt_ok : forall x y, D x -> D y -> lt (kf x) (kf y) = Ok (ltb x y).

Let dec (x : A) : K * A := (kf x, x).

Lemma decorate_pure (l : list A) :
  Forall D l -> decorate key l = Ok (map dec l).
Proof.
  induction 1 as [| x l Hx Hl IH]; simpl; [reflexivity |].
  now rewrite (key_ok x Hx), IH.
Qed.

Lemma insert_pure (x : A) (sorted : list A) :
  D x -> Forall D sorted ->
  insert lt (dec x) (map dec sorted) = Ok (map dec (insert_by ltb x sorted)).
Proof.
  intros Hx. induction 1 as [| y l Hy Hl IH]; simpl; [reflexivity |].
  rewrite (lt_ok x y Hx Hy). simpl.
  destruct (ltb x y); [reflexivity |].
  now rewrite IH.
Qed.

Lemma insert_all_pure (todo sorted : list A) :
  Forall D todo -> Forall D sorted ->
  insert_all lt (map dec todo) (map dec sorted)
  = Ok (map dec (fold_left (fun s x => insert_by ltb x s) todo sorted)).
Proof.
  intros Htodo; revert sorted.
  induction Htodo as [| x l Hx Hl IH]; intros sorted Hs; simpl;
    [reflexivity |].
  rewrite (insert_pure x sorted Hx Hs). simpl. apply IH.
  rewrite Forall_forall in *. intros z Hz.
  apply (Permutation_in _ (insert_by_perm ltb x sorted)) in Hz.
  destruct Hz as [<- | Hz]; auto.
Qed.

Lemma list_sort_pure (l : list A) :
  Forall D l -> list_sort key lt l = Ok (sort_by ltb l).
Proof.
  intros Hl. unfold list_sort. rewrite (decorate_pure l Hl). simpl.
  pose proof (insert_all_pure l [] Hl (Forall_nil D)) as E. simpl in E.
  rewrite E. simpl.
  f_equal. rewrite map_map. simpl. apply map_id.
Qed.

End ListSortFacts.

Lemma decorate_raise {A K : Type} (key : A -> result K) (l : list A) (e : exn) :
  decorate key l = Raise e -> exists x, In x l /\ key x = Raise e.
Proof.
  induction l as [| x l IH]; simpl; [discriminate |].
  intros H. apply bind_raise_inv in H as [H | (k & Hk & H)].
  - exists x. auto.
  - apply bind_raise_inv in H as [H | (d & _ & H)]; [| discriminate].
    destruct (IH H) as (y & Hy & Hey). exists y. auto.
Qed.

Lemma decorate_ok {A K : Type} (key : A -> result K) (l : list A)
  (d : list (K * A)) :
  decorate key l = Ok d -> Forall (fun x => exists k, key x = Ok k) l.
Proof.
  revert d; induction l as [| x l IH]; intros d H; simpl in H;
    constructor.
  - inv_bind H. eauto.
  - inv_bind H. inv_bind H. eapply IH; eassumption.
Qed.

Lemma list_sort_ok_keys {A K : Type} (key : A -> result K)
  (lt : K -> K -> result bool) (l out : list A) :
  list_sort key lt l = Ok out -> Forall (fun x => exists k, key x = Ok k) l.
Proof.
  unfold list_sort. intros H. inv_bind H. eapply decorate_ok; eassumption.
Qed.

(** ** The two sorts of [sort_images] *)

Lemma natural_key_ok (x : string) (k : list segment) :
  get_natural_sort_key x = Ok k -> natural_key x = k.
Proof.
  unfold natural_key. now intros ->.
Qed.

Lemma natural_sort_pure (l : list string) :
  Forall has_natural_key l ->
  list_sort get_natural_sort_key key_lt l = Ok (sort_by natural_ltb l).
Proof.
  apply (list_sort_pure get_natural_sort_key key_lt natural_key natural_ltb
           has_natural_key).
  - intros x [k Hk]. now rewrite (natural_key_ok x k Hk).
  - intros x y [kx Hx] [ky Hy]. unfold natural_ltb.
    rewrite (natural_key_ok x kx Hx), (natural_key_ok y ky Hy).
    apply key_lt_shape; eapply natural_sort_key_shape; eassumption.
Qed.

Lemma name_sort_pure (l : list string) :
  list_sort get_name_key str_lt l = Ok (sort_by name_ltb l).
Proof.
  apply (list_sort_pure get_name_key str_lt basename name_ltb
           (fun _ => True)).
  - reflexivity.
  - reflexivity.
  - rewrite Forall_forall. trivial.
Qed.

Lemma natural_sort_raise (l : list string) (e : exn) :
  list_sort get_natural_sort_key key_lt l = Raise e ->
  exists x, In x l /\ get_natural_sort_key x = Raise e.
Proof.
  intros H. unfold list_sort in H.
  apply bind_raise_inv in H as [H | (d & Hd & H)].
  - apply decorate_raise, H.
  - exfalso. pose proof (natural_sort_pure l (decorate_ok _ _ _ Hd)) as E.
    unfold list_sort in E. rewrite Hd in E. simpl in E. congruence.
Qed.

(** The classification loop is a pair of filters. *)
Lemma classify_filter (priority_chars : string) (l : list string) :
  classify priority_chars l
  = (filter (priority_of priority_chars) l,
     filter (fun img => negb (priority_of priority_chars img)) l).
Proof.
  unfold classify.
  enough (G : forall p n,
    fold_left
      (fun (acc : list string * list string) img =>
         let (priority_files, normal_files) := acc in
         let filename := pathlib.name (pathlib.Path img) in
         if is_priority priority_chars filename
         then (priority_files ++ [img], normal_files)
         else (priority_files, normal_files ++ [img])) l (p, n)
    = (p ++ filter (priority_of priority_chars) l,
       n ++ filter (fun img => negb (priority_of priority_chars img)) l))
    by apply (G [] []).
  induction l as [| x l IH]; intros p n; simpl.
  - now rewrite !app_nil_r.
  - assert (E : priority_of priority_chars x
               = is_priority priority_chars (pathlib.name (pathlib.Path x)))
      by reflexivity.
    rewrite E.
    destruct (is_priority priority_chars (pathlib.name (pathlib.Path x)));
      simpl; rewrite IH, <- ?app_assoc; reflexivity.
Qed.

Lemma filter_split_forall {A : Type} (P : A -> Prop) (f : A -> bool)
  (l : list A) :
  Forall P (filter f l) -> Forall P (filter (fun x => negb (f x)) l) ->
  Forall P l.
Proof.
  rewrite !Forall_forall. intros H1 H2 x Hx.
  destruct (f x) eqn:E.
  - apply H1, filter_In. auto.
  - apply H2, filter_In. rewrite E. auto.
Qed.

Lemma Forall_filter_keep {A : Type} (P : A -> Prop) (f : A -> bool)
  (l : list A) : Forall P l -> Forall P (filter f l).
Proof.
  rewrite !Forall_forall. intros H x Hx. apply filter_In in Hx. apply H, Hx.
Qed.

(** What [sort_images] returns, when it returns. *)
Lemma sort_images_natural_total (l : list string) (priority_chars : string) :
  Forall has_natural_key l ->
  sort_images l true priority_chars
  = Ok (sort_by natural_ltb (filter (priority_of priority_chars) l)
        ++ sort_by natural_ltb
             (filter (fun img => negb (priority_of priority_chars img)) l)).
Proof.
  intros Hl. unfold sort_images. rewrite classify_filter.
  rewrite !natural_sort_pure by (apply Forall_filter_keep, Hl).
  reflexivity.
Qed.

Lemma sort_images_natural_ok (l out : list string) (priority_chars : string) :
  sort_images l true priority_chars = Ok out ->
  Forall has_natural_key l /\
  out = sort_by natural_ltb (filter (priority_of priority_chars) l)
        ++ sort_by natural_ltb
             (filter (fun img => negb (priority_of priority_chars img)) l).
Proof.
  intros H.
  assert (Hl : Forall has_natural_key l).
  { unfold sort_images in H. rewrite classify_filter in H.
    inv_bind H. inv_bind H.
    apply (filter_split_forall _ (priority_of priority_chars));
      eapply list_sort_ok_keys; eassumption. }
  split; [exact Hl |].
  rewrite (sort_images_natural_total l priority_chars Hl) in H. congruence.
Qed.

Lemma sort_images_lexical (l : list string) (priority_chars : string) :
  sort_images l false priority_chars
  = Ok (sort_by name_ltb (filter (priority_of priority_chars) l)
        ++ sort_by name_ltb
             (filter (fun img => negb (priority_of priority_chars img)) l)).
Proof.
  unfold sort_images. rewrite classify_filter, !name_sort_pure. reflexivity.
Qed.

Lemma int_raise (s : string) (e : exn) :
  Py.int s = Raise e -> exists why, e = ValueError why.
Proof.
  unfold Py.int.
  destruct (Py.int_max_str_digits <? Py.leading_digits s)%nat;
    [intros H; injection H as <-; eauto |].
  destruct s as [| c s]; [intros H; injection H as <-; eauto |].
  destruct (Py.int_from 0 (String c s)); [discriminate |].
  intros H; injection H as <-; eauto.
Qed.

Lemma natural_key_raise (x : string) (e : exn) :
  get_natural_sort_key x = Raise e -> exists why, e = ValueError why.
Proof.
  unfold get_natural_sort_key, natural_sort_key.
  generalize (Py.re_split_digits (pathlib.name (pathlib.Path x))).
  induction l as [| chunk l IH]; simpl; [discriminate |].
  intros H. apply bind_raise_inv in H as [H | (seg & _ & H)].
  - unfold convert in H. destruct (Py.isdigit chunk); [| discriminate].
    apply bind_raise_inv in H as [H | (n & _ & H)]; [| discriminate].
    now apply int_raise in H.
  - apply bind_raise_inv in H as [H | (segs & _ & H)]; [auto | discriminate].
Qed.

Lemma sort_images_raise (l : list string) (use_natural_sort : bool)
  (priority_chars : string) (e : exn) :
  sort_images l use_natural_sort priority_chars = Raise e ->
  use_natural_sort = true /\
  exists x, In x l /\ get_natural_sort_key x = Raise e.
Proof.
  destruct use_natural_sort; [| now rewrite sort_images_lexical].
  intros H. split; [reflexivity |].
  unfold sort_images in H. rewrite classify_filter in H.
  apply bind_raise_inv in H as [H | (p & _ & H)].
  - apply natural_sort_raise in H as (x & Hx & He).
    apply filter_In in Hx. exists x. tauto.
  - apply bind_raise_inv in H as [H | (n & _ & H)]; [| discriminate].
    apply natural_sort_raise in H as (x & Hx & He).
    apply filter_In in Hx. exists x. tauto.
Qed.

(** Whenever [sort_images] returns, it returns a rearrangement of its
    input. *)
Lemma sort_images_permutation (l out : list string) (use_natural_sort : bool)
  (priority_chars : string) :
  sort_images l use_natural_sort priority_chars = Ok out -> Permutation l out.
Proof.
  intros H.
  assert (E : exists ltb,
    out = sort_by ltb (filter (priority_of priority_chars) l)
          ++ sort_by ltb
               (filter (fun img => negb (priority_of priority_chars img)) l)).
  { destruct use_natural_sort.
    - exists natural_ltb. apply (sort_images_natural_ok _ _ _ H).
    - exists name_ltb. rewrite sort_images_lexical in H. congruence. }
  destruct E as [ltb ->]. rewrite !sort_by_perm.
  clear H. induction l as [| x l IH]; simpl; [constructor |].
  destruct (priority_of priority_chars x); simpl.
  - now constructor.
  - rewrite <- Permutation_middle. now constructor.
Qed.

Lemma filter_filter_disjoint {A : Type} (P f : A -> bool) (l : list A) :
  (forall z, P z = true -> f z = false) -> filter P (filter f l) = [].
Proof.
  intros H. induction l as [| z l IH]; [reflexivity |]. simpl.
  destruct (f z) eqn:Fz; [| exact IH]. simpl.
  destruct (P z) eqn:Pz; [| exact IH].
  rewrite (H z Pz) in Fz. discriminate.
Qed.

(** ** Positions in a concatenation *)

Lemma precedes_app_left {A : Type} (x y : A) (p n : list A) :
  ~ In x n -> ~ In y n -> precedes x y p -> precedes x y (p ++ n).
Proof.
  intros Hx Hy Hp i j Hi Hj.
  destruct (Nat.lt_ge_cases i (List.length p)) as [Hi' | Hi'].
  - destruct (Nat.lt_ge_cases j (List.length p)) as [Hj' | Hj'].
    + rewrite nth_error_app1 in Hi, Hj by assumption.
      eapply Hp; eassumption.
    + rewrite nth_error_app2 in Hj by exact Hj'.
      elim Hy. eapply nth_error_In, Hj.
  - rewrite nth_error_app2 in Hi by exact Hi'.
    elim Hx. eapply nth_error_In, Hi.
Qed.

Lemma precedes_app_right {A : Type} (x y : A) (p n : list A) :
  ~ In x p -> ~ In y p -> precedes x y n -> precedes x y (p ++ n).
Proof.
  intros Hx Hy Hn i j Hi Hj.
  destruct (Nat.lt_ge_cases i (List.length p)) as [Hi' | Hi'].
  - rewrite nth_error_app1 in Hi by exact Hi'.
    elim Hx. eapply nth_error_In, Hi.
  - destruct (Nat.lt_ge_cases j (List.length p)) as [Hj' | Hj'].
    + rewrite nth_error_app1 in Hj by exact Hj'.
      elim Hy. eapply nth_error_In, Hj.
    + rewrite nth_error_app2 in Hi, Hj by assumption.
      specialize (Hn _ _ Hi Hj). lia.
Qed.

Lemma precedes_app_cross {A : Type} (x y : A) (p n : list A) :
  ~ In x n -> ~ In y p -> precedes x y (p ++ n).
Proof.
  intros Hx Hy i j Hi Hj.
  destruct (Nat.lt_ge_cases i (List.length p)) as [Hi' | Hi'].
  - destruct (Nat.lt_ge_cases j (List.length p)) as [Hj' | Hj'].
    + rewrite nth_error_app1 in Hj by exact Hj'.
      elim Hy. eapply nth_error_In, Hj.
    + lia.
  - rewrite nth_error_app2 in Hi by exact Hi'.
    elim Hx. eapply nth_error_In, Hi.
Qed.

Lemma sort_by_filter_in {A : Type} (ltb : A -> A -> bool) (f : A -> bool)
  (l : list A) (x : A) :
  In x (sort_by ltb (filter f l)) -> In x l /\ f x = true.
Proof.
  intros H. apply (Permutation_in _ (sort_by_perm ltb _)) in H.
  apply filter_In, H.
Qed.

(** ** Priority marking *)

Lemma is_priority_spec (priority_chars name : string) :
  is_priority priority_chars name = true <->
  exists c rest, name = String c rest /\
                 In c (list_ascii_of_string priority_chars).
Proof.
  unfold is_priority.
  destruct (String.eqb_spec priority_chars "") as [-> | _].
  - split; [discriminate | intros (c & rest & _ & [])].
  - induction priority_chars as [| p pcs IH]; simpl.
    + split; [discriminate | intros (c & rest & _ & [])].
    + rewrite orb_true_iff, IH. unfold Py.startswith. split.
      * intros [H | (c & rest & Hn & Hc)].
        -- destruct name as [| c rest]; [discriminate |]. simpl in H.
           destruct (Ascii.ascii_dec p c) as [<- | ]; [| discriminate].
           exists p, rest. auto.
        -- exists c, rest. auto.
      * intros (c & rest & -> & [<- | Hc]).
        -- left. simpl. destruct (Ascii.ascii_dec p p); [| congruence].
           now destruct rest.
        -- right. exists c, rest. auto.
Qed.

Lemma strongly_sorted_nth {A : Type} (R : A -> A -> Prop) (l : list A) :
  StronglySorted R l ->
  forall i j x y, i < j -> nth_error l i = Some x -> nth_error l j = Some y ->
                  R x y.
Proof.
  induction 1 as [| z l Hl IH Hz]; intros i j x y Hij Hi Hj.
  - destruct i; discriminate.
  - destruct j as [| j]; [lia |]. simpl in Hj.
    destruct i as [| i]; simpl in Hi.
    + injection Hi as ->. rewrite Forall_forall in Hz.
      apply Hz. eapply nth_error_In, Hj.
    + apply (IH i j); [lia | assumption | assumption].
Qed.

Lemma group_sorted_in_app {A : Type} (ltb : A -> A -> bool)
  `{!WeakOrder ltb} (f : A -> bool) (l : list A) (i j : nat) (x y : A) :
  i < j ->
  nth_error (sort_by ltb (filter f l)
             ++ sort_by ltb (filter (fun z => negb (f z)) l)) i = Some x ->
  nth_error (sort_by ltb (filter f l)
             ++ sort_by ltb (filter (fun z => negb (f z)) l)) j = Some y ->
  f x = f y ->
  ltb y x = false.
Proof.
  set (p := sort_by ltb (filter f l)).
  set (n := sort_by ltb (filter (fun z => negb (f z)) l)).
  intros Hij Hi Hj Hf.
  assert (Hp : forall z, In z p -> f z = true)
    by (intros z Hz; apply sort_by_filter_in in Hz; tauto).
  assert (Hn : forall z, In z n -> f z = false).
  { intros z Hz. apply sort_by_filter_in in Hz as [_ Hz].
    now apply negb_true_iff in Hz. }
  destruct (Nat.lt_ge_cases j (List.length p)) as [Hj' | Hj'].
  - rewrite nth_error_app1 in Hi, Hj by lia.
    apply (strongly_sorted_nth _ p (sort_by_sorted ltb _) i j x y Hij Hi Hj).
  - rewrite nth_error_app2 in Hj by exact Hj'.
    destruct (Nat.lt_ge_cases i (List.length p)) as [Hi' | Hi'].
    + rewrite nth_error_app1 in Hi by exact Hi'.
      apply nth_error_In in Hi, Hj.
      rewrite (Hp _ Hi), (Hn _ Hj) in Hf. discriminate.
    + rewrite nth_error_app2 in Hi by exact Hi'.
      apply (strongly_sorted_nth _ n (sort_by_sorted ltb _)
               (i - List.length p) (j - List.length p) x y);
        [lia | assumption | assumption].
Qed.

(** Inside a priority group the returned list goes up. *)
Lemma sort_images_group_order (image_files out : list string)
  (use_natural_sort : bool) (priority_chars : string) (i j : nat)
  (x y : string) :
  sort_images image_files use_natural_sort priority_chars = Ok out ->
  i < j -> nth_error out i = Some x -> nth_error out j = Some y ->
  is_priority priority_chars (basename x)
  = is_priority priority_chars (basename y) ->
  if use_natural_sort
  then exists kx ky, natural_sort_key (basename x) = Ok kx
                     /\ natural_sort_key (basename y) = Ok ky
                     /\ key_lt ky kx = Ok false
  else String.ltb (basename y) (basename x) = false.
Proof.
  intros H Hij Hi Hj Hclass.
  pose proof (sort_images_permutation _ _ _ _ H) as Hperm.
  destruct use_natural_sort.
  - apply sort_images_natural_ok in H as [Hkeys ->].
    rewrite Forall_forall in Hkeys.
    assert (Hx : has_natural_key x).
    { apply Hkeys. eapply Permutation_in; [symmetry; exact Hperm |].
      eapply nth_error_In, Hi. }
    assert (Hy : has_natural_key y).
    { apply Hkeys. eapply Permutation_in; [symmetry; exact Hperm |].
      eapply nth_error_In, Hj. }
    pose proof (group_sorted_in_app natural_ltb (priority_of priority_chars)
                  image_files i j x y Hij Hi Hj Hclass) as Hle.
    destruct Hx as [kx Hx], Hy as [ky Hy]. exists kx, ky.
    split; [exact Hx |]. split; [exact Hy |].
    unfold natural_ltb in Hle.
    rewrite (natural_key_ok x kx Hx), (natural_key_ok y ky Hy) in Hle.
    rewrite <- Hle.
    apply key_lt_shape; eapply natural_sort_key_shape; eassumption.
  - rewrite sort_images_lexical in H. injection H as <-.
    apply (group_sorted_in_app name_ltb (priority_of priority_chars)
             image_files i j x y Hij Hi Hj Hclass).
Qed.

Lemma is_priority_empty (name : string) : is_priority "" name = false.
Proof.
  reflexivity.
Qed.

(** Claim C2. Whatever the sort mode, in the list [sort_images] returns
    every priority-marked file (its basename starts with one of the
    characters of [priority_chars]) stands before every unmarked file;
    with an empty [priority_chars] no file is marked and the result is the
    whole input sorted as one list: a rearrangement of the input in
    which no file stands after one with a larger key, the key being the
    natural key of the basename, or the basename itself when natural
    sort is off. *)
Theorem priority_files_precede_normal_files :
  (forall priority_chars name,
      is_priority priority_chars name = true <->
      exists c rest, name = String c rest /\
                     In c (list_ascii_of_string priority_chars))
  /\ (forall image_files use_natural_sort priority_chars out x y,
         sort_images image_files use_natural_sort priority_chars = Ok out ->
         is_priority priority_chars (basename x) = true ->
         is_priority priority_chars (basename y) = false ->
         precedes x y out)
  /\ (forall image_files use_natural_sort,
         (forall name, is_priority "" name = false) /\
         sort_images image_files use_natural_sort ""
         = if use_natural_sort
           then list_sort get_natural_sort_key key_lt image_files
           else list_sort get_name_key str_lt image_files)
  /\ (forall image_files use_natural_sort out,
         sort_images image_files use_natural_sort "" = Ok out ->
         Permutation image_files out
         /\ forall i j x y,
              i < j -> nth_error out i = Some x -> nth_error out j = Some y ->
              if use_natural_sort
              then exists kx ky,
                     natural_sort_key (basename x) = Ok kx
                     /\ natural_sort_key (basename y) = Ok ky
                     /\ key_lt ky kx = Ok false
              else String.ltb (basename y) (basename x) = false).
Proof.
  split; [exact is_priority_spec |]. split; [| split].
  - intros l b pc out x y H Hx Hy.
    assert (E : exists ltb,
      out = sort_by ltb (filter (priority_of pc) l)
            ++ sort_by ltb (filter (fun img => negb (priority_of pc img)) l)).
    { destruct b.
      - exists natural_ltb. apply (sort_images_natural_ok _ _ _ H).
      - exists name_ltb. rewrite sort_images_lexical in H. congruence. }
    destruct E as [ltb ->]. apply precedes_app_cross.
    + intros Hin. apply sort_by_filter_in in Hin as [_ Hin].
      unfold priority_of in Hin. rewrite Hx in Hin. discriminate.
    + intros Hin. apply sort_by_filter_in in Hin as [_ Hin].
      unfold priority_of in Hin. congruence.
  - intros l b. split; [reflexivity |].
    unfold sort_images. rewrite classify_filter.
    assert (E1 : filter (priority_of "") l = []).
    { induction l as [| x l IH]; [reflexivity | exact IH]. }
    assert (E2 : filter (fun img => negb (priority_of "" img)) l = l).
    { induction l as [| x l IH]; [reflexivity |].
      change (x :: filter (fun img => negb (priority_of "" img)) l = x :: l).
      now rewrite IH. }
    rewrite E1, E2.
    destruct b; simpl.
    + destruct (list_sort get_natural_sort_key key_lt l); reflexivity.
    + destruct (list_sort get_name_key str_lt l); reflexivity.
  - intros l b out H. split; [exact (sort_images_permutation _ _ _ _ H) |].
    intros i j x y Hij Hi Hj.
    apply (sort_images_group_order l out b "" i j x y H Hij Hi Hj).
    now rewrite !is_priority_empty.
Qed.

Lemma priority_files_precede_normal_files_witness :
  precedes "dir/!cover.jpg" "page_1.jpg"
           ["dir/!cover.jpg"; "page_1.jpg"; "page_10.jpg"]
  /\ String.ltb (basename "page_10.jpg") (basename "a/page_1.jpg") = false.
Proof.
  destruct priority_files_precede_normal_files as (_ & H & _ & H').
  split.
  - apply (H ["page_10.jpg"; "page_1.jpg"; "dir/!cover.jpg"] true "!");
      reflexivity.
  - apply (proj2 (H' ["page_10.jpg"; "!cover.jpg"; "a/page_1.jpg"] false
                     ["!cover.jpg"; "a/page_1.jpg"; "page_10.jpg"] eq_refl)
                 1 2 "a/page_1.jpg" "page_10.jpg");
      [lia | reflexivity | reflexivity].
Defined.

(** Claim C10. A key made by [natural_sort_key] has a string at every even
    position and an integer at every odd position; so two such keys hold
    the same kind of segment at every common position, comparing them
    never raises [TypeError], and [sort_images] never raises it either. *)
Theorem natural_sort_key_never_mixes_types :
  (forall text k, natural_sort_key text = Ok k ->
     forall i seg, nth_error k i = Some seg -> is_int seg = Nat.odd i)
  /\ (forall a b ka kb,
         natural_sort_key a = Ok ka -> natural_sort_key b = Ok kb ->
         (forall i x y, nth_error ka i = Some x -> nth_error kb i = Some y ->
                        is_int x = is_int y)
         /\ exists r, key_lt ka kb = Ok r)
  /\ (forall image_files use_natural_sort priority_chars,
         sort_images image_files use_natural_sort priority_chars
         <> Raise TypeError).
Proof.
  split; [| split].
  - intros text k H. apply key_shape_parity.
    eapply natural_sort_key_shape, H.
  - intros a b ka kb Ha Hb.
    apply natural_sort_key_shape in Ha, Hb. split.
    + apply key_shape_same_kind; assumption.
    + eexists. apply key_lt_shape; assumption.
  - intros l b pc H. apply sort_images_raise in H as (_ & x & _ & H).
    apply natural_key_raise in H as [s H]. discriminate.
Qed.

Lemma natural_sort_key_never_mixes_types_witness :
  is_int (SInt 10) = Nat.odd 1 /\
  exists r, key_lt [SStr "a"; SInt 1; SStr ""] [SStr ""; SInt 12; SStr "a"]
            = Ok r.
Proof.
  destruct natural_sort_key_never_mixes_types as (H1 & H2 & _). split.
  - apply (H1 "f10" [SStr "f"; SInt 10; SStr ""] eq_refl 1 (SInt 10) eq_refl).
  - apply (H2 "a1" "12a" _ _ eq_refl eq_refl).
Defined.

Lemma re_split_digits_maximal (text : string) :
  maximal_split (Py.re_split_digits text)
  /\ (forall t rest, Py.re_split_digits text = t :: rest ->
        (t = "" <-> text = "" \/ starts_with_digit text = true)).
Proof.
  induction text as [| c rest IH]; simpl.
  - split; [constructor; reflexivity |].
    intros t r H. injection H as <- <-. tauto.
  - destruct IH as [IH Hhead].
    destruct (Py.re_digit c) eqn:Hc.
    + split.
      * inversion IH as [t Ht E | t d more Ht Hd Hmore Hgap E].
        -- destruct t as [| c' t].
           ++ apply maximal_run;
                [reflexivity | split; [discriminate | simpl; now rewrite Hc]
                | constructor; reflexivity | discriminate].
           ++ apply maximal_run;
                [reflexivity | split; [discriminate | simpl; now rewrite Hc]
                | constructor; exact Ht | discriminate].
        -- destruct t as [| c' t].
           ++ apply maximal_run; [reflexivity | | assumption | assumption].
              destruct Hd as [_ Hd]. split; [discriminate |].
              simpl; now rewrite Hc.
           ++ apply maximal_run;
                [reflexivity | split; [discriminate | simpl; now rewrite Hc]
                | apply maximal_run; assumption |].
              intros t' d' rest' H. injection H as <- _ _. discriminate.
      * intros t r H.
        assert (t = "").
        { destruct (Py.re_split_digits rest) as [| [| ? ?] [| ? ?]];
            now injection H as <-. }
        subst t. split; [auto | reflexivity].
    + split.
      * inversion IH as [t Ht E | t d more Ht Hd Hmore Hgap E].
        -- constructor. simpl. now rewrite Hc.
        -- apply maximal_run;
             [simpl; now rewrite Hc | assumption | assumption | assumption].
      * intros t r H.
        assert (exists piece, t = String c piece).
        { destruct (Py.re_split_digits rest); injection H as <-; eauto. }
        destruct H0 as [piece ->].
        split; [discriminate | intros [E | E]; discriminate].
Qed.

Lemma last_cons {A : Type} (x d : A) (l : list A) :
  l <> [] -> last (x :: l) d = last l d.
Proof.
  destruct l; [congruence | reflexivity].
Qed.

Lemma split_last (text : string) :
  last (Py.re_split_digits text) "" = ""
  <-> text = "" \/ ends_with_digit text = true.
Proof.
  induction text as [| c rest IH]; [simpl; tauto |].
  assert (Hends : ends_with_digit (String c rest)
                  = match rest with
                    | EmptyString => Py.re_digit c
                    | _ => ends_with_digit rest
                    end) by (now destruct rest).
  pose proof (re_split_digits_shape rest) as Hsh.
  pose proof (re_split_digits_concat rest) as Hcat.
  assert (Hlast : last (Py.re_split_digits (String c rest)) ""
                  = match Py.re_split_digits rest with
                    | [t] => if Py.re_digit c then t else String c t
                    | l => last l ""
                    end).
  { cbn [Py.re_split_digits]. cbv zeta.
    inversion Hsh as [t Ht E | t d more Ht Hd Hmore E].
    - destruct (Py.re_digit c); [destruct t |]; reflexivity.
    - assert (Hm : more <> []) by (inversion Hmore; discriminate).
      destruct more as [| m more']; [congruence |].
      destruct (Py.re_digit c); [destruct t |]; reflexivity. }
  rewrite Hlast, Hends. clear Hlast Hends.
  inversion Hsh as [t Ht E | t d more Ht Hd Hmore E]; rewrite <- E in *.
  - simpl in Hcat. rewrite ?append_empty_r in Hcat. subst t.
    simpl in IH.
    destruct (Py.re_digit c) eqn:Hc.
    + rewrite IH. destruct rest; [tauto |].
      split; [intros [H | H]; [discriminate | auto] | intros [H | H]; auto].
      discriminate.
    + split; [discriminate |]. intros [H | H]; [discriminate |].
      destruct rest as [| a r]; [discriminate |].
      assert (Hx : String a r = "") by (apply IH; auto). discriminate.
  - assert (Hm : more <> []) by (inversion Hmore; discriminate).
    destruct more as [| m more']; [congruence |].
    rewrite IH.
    destruct rest as [| a r]; [discriminate |].
    split; [intros [H | H]; [discriminate | auto] | intros [H | H]; auto].
    discriminate.
Qed.

Lemma convert_all_segments (chunks : list string) (k : list segment) :
  split_shape chunks -> convert_all chunks = Ok k ->
  Forall2 segment_of chunks k
  /\ (forall t rest, chunks = t :: rest -> exists k', k = SStr t :: k')
  /\ last k (SInt 0) = SStr (last chunks "").
Proof.
  intros Hs; revert k.
  induction Hs as [t Ht | t d rest Ht Hd Hrest IH]; intros k H; simpl in H.
  - inv_bind H. injection H as <-.
    pose proof (convert_text _ _ Ht Ha); subst a.
    split; [constructor; [right; auto | constructor] |].
    split; [intros t' r E; injection E as <- _; eauto | reflexivity].
  - inv_bind H. inv_bind H. injection H as <-.
    rename Ha0 into H. inv_bind H. inv_bind H. injection H as <-.
    destruct (IH _ Ha1) as (Hf & Hhd & Hlast).
    pose proof (convert_text _ _ Ht Ha); subst a.
    destruct (convert_digit_run_ok d _ Hd Ha0) as (n & Hn & ->).
    split; [| split].
    + constructor; [right; auto |].
      constructor; [left; split; [exact Hd | eauto] | exact Hf].
    + intros t' r E. injection E as <- _. eauto.
    + assert (Hr : rest <> []) by (inversion Hrest; discriminate).
      destruct rest as [| t1 rest1]; [congruence |].
      destruct (Hhd t1 rest1 eq_refl) as [k' ->].
      exact Hlast.
Qed.

(** Claim C7, as the code has it.  The chunks of the split, joined in
    order, give the input back; they are text without a digit and runs
    of digits in turn, each run as long as it can be, and every segment
    of the key is the segment of the chunk at its position.  The number
    of segments is always odd: the key runs from a string segment to a
    string segment, and the first is empty exactly when the input
    starts with a digit or is empty, the last exactly when the input
    ends with a digit or is empty. *)
Theorem natural_sort_key_segments (text : string) (k : list segment) :
  natural_sort_key text = Ok k ->
  Py.join "" (Py.re_split_digits text) = text
  /\ maximal_split (Py.re_split_digits text)
  /\ Forall2 segment_of (Py.re_split_digits text) k
  /\ key_shape k
  /\ Nat.odd (List.length k) = true
  /\ (hd_error k = Some (SStr "")
      <-> text = "" \/ starts_with_digit text = true)
  /\ (last k (SInt 0) = SStr ""
      <-> text = "" \/ ends_with_digit text = true).
Proof.
  intros H.
  pose proof (re_split_digits_shape text) as Hs.
  destruct (convert_all_shape _ _ Hs H) as [Hk Hf].
  destruct (convert_all_segments _ _ Hs H) as (Hseg & Hhd & Hlast).
  destruct (re_split_digits_maximal text) as [Hmax Hfirst].
  split; [apply re_split_digits_concat |].
  split; [exact Hmax |]. split; [exact Hseg |]. split; [exact Hk |].
  split; [rewrite <- (Forall2_length Hf); apply split_shape_odd, Hs |].
  split.
  - destruct (Py.re_split_digits text) as [| t rest] eqn:E;
      [inversion Hs |].
    destruct (Hhd t rest eq_refl) as [k' ->]. cbn [hd_error].
    rewrite <- (Hfirst t rest eq_refl).
    split; [intros E'; now injection E' | now intros ->].
  - rewrite Hlast, <- split_last.
    split; [intros E'; now injection E' | now intros ->].
Qed.

Lemma natural_sort_key_segments_witness :
  Py.join "" (Py.re_split_digits "page_010.jpg") = "page_010.jpg"
  /\ maximal_split (Py.re_split_digits "page_010.jpg")
  /\ Forall2 segment_of (Py.re_split_digits "page_010.jpg")
             [SStr "page_"; SInt 10; SStr ".jpg"]
  /\ key_shape [SStr "page_"; SInt 10; SStr ".jpg"]
  /\ Nat.odd (List.length [SStr "page_"; SInt 10; SStr ".jpg"]) = true
  /\ (hd_error [SStr "page_"; SInt 10; SStr ".jpg"] = Some (SStr "")
      <-> "page_010.jpg" = "" \/ starts_with_digit "page_010.jpg" = true)
  /\ (last [SStr "page_"; SInt 10; SStr ".jpg"] (SInt 0) = SStr ""
      <-> "page_010.jpg" = "" \/ ends_with_digit "page_010.jpg" = true).
Proof.
  apply (natural_sort_key_segments "page_010.jpg"). reflexivity.
Defined.

(** Claim C7 as stated fails: the key of ["1"] has three segments, an odd
    number, although ["1"] neither starts nor ends with a non-digit. *)
Lemma segment_count_parity_counterexample :
  natural_sort_key "1" = Ok [SStr ""; SInt 1; SStr ""]
  /\ ~ (Nat.odd (List.length [SStr ""; SInt 1; SStr ""]) = true
        <-> starts_and_ends_with_non_digit "1" = true).
Proof.
  split; [reflexivity |]. intros [H _]. specialize (H eq_refl). discriminate.
Qed.

(** Claim C9 at a failing input.  The superscript two is a digit for
    [str.isdigit] and not for [\d]: the split leaves it in a text chunk,
    [convert] hands that chunk to [int], and [sort_images] raises instead
    of returning the rearranged list. *)
Theorem sort_images_raises_on_superscript_digit :
  sort_images [String "178" ""] true "!"
  = Raise (ValueError (InvalidLiteral (String "178" "")))
  /\ sort_images ["page_2.jpg"; String "1" (String "178" "3.jpg")] true "!"
     = Raise (ValueError (InvalidLiteral (String "178" ""))).
Proof.
  split; reflexivity.
Qed.

(** In the pipeline the error is caught as a security error: both files
    have been extracted and the function returns the empty list. *)
Example extraction_loses_files_on_superscript_digit :
  extract_images_from_zip
    (sample_zipfile [mkZipInfo "page_2.jpg" 10;
                     mkZipInfo (String "1" (String "178" "3.jpg")) 10])
    (pathlib.Path "c.zip") (pathlib.Path "/tmp/scratch") true "!"
  = ([Print (ExtractingImage 1 2 "page_2.jpg");
      Write (pathlib.Path "/tmp/scratch/page_2.jpg")
            (Member (mkZipInfo "page_2.jpg" 10));
      Print (ExtractingImage 2 2 (String "1" (String "178" "3.jpg")));
      Write (pathlib.truediv (pathlib.Path "/tmp/scratch")
                             (String "1" (String "178" "3.jpg")))
            (Member (mkZipInfo (String "1" (String "178" "3.jpg")) 10));
      Print (SecurityError (InvalidLiteral (String "178" "")))],
     Ok []).
Proof.
  reflexivity.
Qed.

(** Claim C3, as the code has it.  With natural sort on, two files of the
    same priority group whose keys are equal are not compared any
    further: they come out in the order they went in. *)
Theorem equal_keys_keep_input_order
  (image_files out : list string) (priority_chars x y : string) :
  sort_images image_files true priority_chars = Ok out ->
  get_natural_sort_key x = get_natural_sort_key y ->
  is_priority priority_chars (basename x)
  = is_priority priority_chars (basename y) ->
  filter (fun z => (z =? x)%string || (z =? y)%string) out
  = filter (fun z => (z =? x)%string || (z =? y)%string) image_files.
Proof.
  intros H Hk Hp.
  apply sort_images_natural_ok in H as [_ ->].
  set (P := fun z => (z =? x)%string || (z =? y)%string).
  assert (HP : forall a b, P a = true -> P b = true -> natural_ltb a b = false).
  { assert (Hxy : natural_key x = natural_key y)
      by (unfold natural_key; now rewrite Hk).
    intros a b Ha Hb. unfold P in Ha, Hb.
    rewrite orb_true_iff, !String.eqb_eq in Ha, Hb.
    unfold natural_ltb.
    assert (Ea : natural_key a = natural_key x) by (destruct Ha; congruence).
    assert (Eb : natural_key b = natural_key x) by (destruct Hb; congruence).
    rewrite Ea, Eb. now rewrite (compare_refl (cmp := key_compare)). }
  assert (Hclass : forall z, P z = true ->
            priority_of priority_chars z = priority_of priority_chars x).
  { intros z Hz. unfold P in Hz. rewrite orb_true_iff, !String.eqb_eq in Hz.
    unfold priority_of. destruct Hz; subst; congruence. }
  rewrite filter_app, !(sort_by_stable natural_ltb P) by exact HP.
  clear HP. induction image_files as [| z l IH]; [reflexivity |]. simpl.
  destruct (P z) eqn:Pz.
  - rewrite (Hclass z Pz).
    destruct (priority_of priority_chars x); simpl; rewrite Pz.
    + simpl. now rewrite IH.
    + rewrite (filter_filter_disjoint P (priority_of priority_chars) l Hclass)
        in *.
      simpl in *. now rewrite IH.
  - destruct (priority_of priority_chars z); simpl; rewrite Pz; exact IH.
Qed.

Lemma equal_keys_keep_input_order_witness :
  filter (fun z => (z =? "page_1.jpg")%string || (z =? "page_001.jpg")%string)
         ["page_1.jpg"; "page_001.jpg"; "page_2.jpg"]
  = filter (fun z => (z =? "page_1.jpg")%string || (z =? "page_001.jpg")%string)
           ["page_2.jpg"; "page_1.jpg"; "page_001.jpg"].
Proof.
  apply (equal_keys_keep_input_order
           ["page_2.jpg"; "page_1.jpg"; "page_001.jpg"]
           ["page_1.jpg"; "page_001.jpg"; "page_2.jpg"] "!");
    reflexivity.
Defined.

(** Claim C3 as stated fails: ["1"] and ["001"] have the same key and
    ["001"] is the smaller string, yet ["1"], given first, stays first. *)
Lemma zero_padding_tiebreak_counterexample :
  natural_sort_key "1" = natural_sort_key "001"
  /\ String.ltb "001" "1" = true
  /\ sort_images ["1"; "001"] true "!" = Ok ["1"; "001"]
  /\ ~ precedes "001" "1" ["1"; "001"].
Proof.
  repeat split. intros H. specialize (H 1 0 eq_refl eq_refl). lia.
Qed.

(** ** A digit run between two pieces of text *)

Lemma split_head_after_text (s : string) :
  starts_with_digit s = false ->
  forall run tl, Py.re_split_digits s <> EmptyString :: run :: tl.
Proof.
  destruct s as [| c s]; simpl; intros H run tl; [discriminate |].
  rewrite H. destruct (Py.re_split_digits s); discriminate.
Qed.

Lemma split_run_then_text (d s : string) :
  digit_run d -> starts_with_digit s = false ->
  Py.re_split_digits (d ++ s) = EmptyString :: d :: Py.re_split_digits s.
Proof.
  intros [Hne Hall] Hs. induction d as [| c d IH]; [congruence |].
  simpl in Hall. apply andb_true_iff in Hall as [Hc Hd].
  simpl. rewrite Hc. destruct d as [| c' d].
  - simpl. pose proof (split_head_after_text s Hs) as Hh.
    destruct (Py.re_split_digits s) as [| [| ? ?] [| ? ?]]; try reflexivity.
    elim (Hh _ _ eq_refl).
  - rewrite IH; [reflexivity | discriminate | exact Hd].
Qed.

Lemma split_nonempty (s : string) : Py.re_split_digits s <> [].
Proof.
  pose proof (re_split_digits_shape s) as H. inversion H; discriminate.
Qed.

Lemma split_text_then (p q : string) (tl : list string) :
  ends_with_digit p = false ->
  Py.re_split_digits q = EmptyString :: tl -> tl <> [] ->
  Py.re_split_digits (p ++ q) = Py.re_split_digits p ++ tl.
Proof.
  intros Hp Hq Htl. induction p as [| c p IH]; [exact Hq |].
  destruct p as [| c' p].
  - simpl in Hp |- *. rewrite Hp, Hq. reflexivity.
  - assert (Hp' : ends_with_digit (String c' p) = false) by exact Hp.
    specialize (IH Hp').
    change (String c (String c' p) ++ q)%string
      with (String c (String c' p ++ q)).
    remember (String c' p) as p' eqn:Ep.
    simpl. rewrite IH.
    pose proof (re_split_digits_concat p') as Hc.
    destruct (Py.re_split_digits p') as [| t [| r more]] eqn:E.
    + elim (split_nonempty p' E).
    + simpl in Hc. subst t. rewrite Ep. simpl.
      destruct tl as [| d tl]; [congruence |].
      destruct (Py.re_digit c); reflexivity.
    + simpl. destruct (Py.re_digit c); [destruct t |]; reflexivity.
Qed.

Lemma split_around_run (p d s : string) :
  ends_with_digit p = false -> digit_run d -> starts_with_digit s = false ->
  Py.re_split_digits (p ++ d ++ s)
  = Py.re_split_digits p ++ d :: Py.re_split_digits s.
Proof.
  intros Hp Hd Hs. apply split_text_then; [exact Hp | | discriminate].
  apply split_run_then_text; assumption.
Qed.

Lemma convert_all_app (l1 l2 : list string) (k : list segment) :
  convert_all (l1 ++ l2) = Ok k ->
  exists k1 k2, convert_all l1 = Ok k1 /\ convert_all l2 = Ok k2
                /\ k = k1 ++ k2.
Proof.
  revert k; induction l1 as [| c l1 IH]; intros k H; simpl in *.
  - exists [], k. auto.
  - inv_bind H. inv_bind H. injection H as <-.
    destruct (IH _ Ha0) as (k1 & k2 & E1 & E2 & ->).
    exists (a :: k1), k2. rewrite Ha, E1. auto.
Qed.

Lemma lex_compare_app {T : Type} (cmp : T -> T -> comparison)
  `{!TotalCompare cmp} (k a b : list T) :
  lex_compare cmp (k ++ a) (k ++ b) = lex_compare cmp a b.
Proof.
  induction k as [| x k IH]; simpl; [reflexivity |].
  now rewrite (compare_refl (cmp := cmp)).
Qed.

Lemma key_around_run (p d s : string) (k : list segment) :
  ends_with_digit p = false -> digit_run d -> starts_with_digit s = false ->
  natural_sort_key (p ++ d ++ s) = Ok k ->
  exists kp ks n,
    natural_sort_key p = Ok kp /\ natural_sort_key s = Ok ks
    /\ Py.int d = Ok n /\ k = kp ++ SInt n :: ks.
Proof.
  intros Hp Hd Hs H. unfold natural_sort_key in *.
  rewrite (split_around_run p d s Hp Hd Hs) in H.
  apply convert_all_app in H as (kp & k2 & Ekp & E2 & ->).
  simpl in E2. inv_bind E2. inv_bind E2. injection E2 as <-.
  destruct (convert_digit_run_ok d _ Hd Ha) as (n & Hn & ->).
  exists kp, a0, n. auto.
Qed.

Lemma natural_ltb_digit_runs (x y p d1 d2 s : string) (v1 v2 : Z) :
  basename x = (p ++ d1 ++ s)%string -> basename y = (p ++ d2 ++ s)%string ->
  digit_run d1 -> digit_run d2 ->
  ends_with_digit p = false -> starts_with_digit s = false ->
  Py.int d1 = Ok v1 -> Py.int d2 = Ok v2 -> (v1 < v2)%Z ->
  has_natural_key x -> has_natural_key y ->
  natural_ltb x y = true.
Proof.
  intros Ex Ey Hd1 Hd2 Hp Hs Hv1 Hv2 Hlt [kx Hx] [ky Hy].
  unfold natural_ltb. rewrite (natural_key_ok x kx Hx), (natural_key_ok y ky Hy).
  unfold get_natural_sort_key in Hx, Hy. fold (basename x) in Hx.
  fold (basename y) in Hy. rewrite Ex in Hx. rewrite Ey in Hy.
  apply key_around_run in Hx as (kp & ks & n1 & Ep & Es & En1 & ->);
    try assumption.
  apply key_around_run in Hy as (kp' & ks' & n2 & Ep' & Es' & En2 & ->);
    try assumption.
  assert (kp' = kp) by congruence. assert (ks' = ks) by congruence.
  assert (n1 = v1) by congruence. assert (n2 = v2) by congruence. subst.
  unfold key_compare. rewrite lex_compare_app by exact segment_total_compare.
  simpl. apply Z.compare_lt_iff in Hlt. now rewrite Hlt.
Qed.

Lemma is_priority_same_first (priority_chars : string) (c : ascii)
  (r1 r2 : string) :
  is_priority priority_chars (String c r1)
  = is_priority priority_chars (String c r2).
Proof.
  apply eq_true_iff_eq. rewrite !is_priority_spec.
  split; intros (c' & rest & E & Hin); injection E as <- _; eauto.
Qed.

Lemma same_group_precedes (l out : list string) (priority_chars x y : string) :
  sort_images l true priority_chars = Ok out ->
  (has_natural_key x -> has_natural_key y -> natural_ltb x y = true) ->
  is_priority priority_chars (basename x)
  = is_priority priority_chars (basename y) ->
  precedes x y out.
Proof.
  intros H Hlt Hclass.
  pose proof (sort_images_permutation _ _ _ _ H) as Hperm.
  apply sort_images_natural_ok in H as [Hkeys Hout].
  intros i j Hi Hj.
  assert (Hx : In x l)
    by (eapply Permutation_in; [symmetry; exact Hperm |];
        eapply nth_error_In, Hi).
  assert (Hy : In y l)
    by (eapply Permutation_in; [symmetry; exact Hperm |];
        eapply nth_error_In, Hj).
  rewrite Forall_forall in Hkeys.
  specialize (Hlt (Hkeys _ Hx) (Hkeys _ Hy)).
  revert i j Hi Hj. fold (precedes x y out). subst out.
  destruct (priority_of priority_chars x) eqn:Px.
  - apply precedes_app_left.
    + intros Hin. apply sort_by_filter_in in Hin as [_ Hin].
      rewrite Px in Hin. discriminate.
    + intros Hin. apply sort_by_filter_in in Hin as [_ Hin].
      unfold priority_of in Hin, Px. rewrite <- Hclass, Px in Hin.
      discriminate.
    + apply sort_by_precedes; [exact natural_weak_order | exact Hlt].
  - apply precedes_app_right.
    + intros Hin. apply sort_by_filter_in in Hin as [_ Hin]. congruence.
    + intros Hin. apply sort_by_filter_in in Hin as [_ Hin].
      unfold priority_of in Hin, Px. congruence.
    + apply sort_by_precedes; [exact natural_weak_order | exact Hlt].
Qed.

(** Claim C1. With natural sort on, two files whose basenames differ only
    in one digit run come out in the order of the values of that run,
    whatever else the list holds: ["f2"] stands before ["f10"] (the
    lexical sort puts ["f10"] first), and the scenario of the
    specification gives the cover, page 1, page 10.  A run that opens the
    name is ordered the same way when both names fall in one priority
    group. *)
Theorem natural_sort_orders_digit_runs_by_value :
  (forall image_files priority_chars out,
      sort_images image_files true priority_chars = Ok out ->
      precedes "f2" "f10" out)
  /\ (forall image_files priority_chars out x y p d1 d2 s v1 v2,
         sort_images image_files true priority_chars = Ok out ->
         basename x = (p ++ d1 ++ s)%string ->
         basename y = (p ++ d2 ++ s)%string ->
         digit_run d1 -> digit_run d2 ->
         ends_with_digit p = false -> starts_with_digit s = false ->
         Py.int d1 = Ok v1 -> Py.int d2 = Ok v2 -> (v1 < v2)%Z ->
         p <> "" \/ is_priority priority_chars (basename x)
                    = is_priority priority_chars (basename y) ->
         precedes x y out)
  /\ sort_images ["page_10.jpg"; "page_1.jpg"; "!cover.jpg"] true "!"
     = Ok ["!cover.jpg"; "page_1.jpg"; "page_10.jpg"]
  /\ sort_images ["f2"; "f10"] false "!" = Ok ["f10"; "f2"].
Proof.
  assert (General : forall image_files priority_chars out x y p d1 d2 s v1 v2,
    sort_images image_files true priority_chars = Ok out ->
    basename x = (p ++ d1 ++ s)%string ->
    basename y = (p ++ d2 ++ s)%string ->
    digit_run d1 -> digit_run d2 ->
    ends_with_digit p = false -> starts_with_digit s = false ->
    Py.int d1 = Ok v1 -> Py.int d2 = Ok v2 -> (v1 < v2)%Z ->
    p <> "" \/ is_priority priority_chars (basename x)
               = is_priority priority_chars (basename y) ->
    precedes x y out).
  { intros l pc out x y p d1 d2 s v1 v2 H Ex Ey Hd1 Hd2 Hp Hs Hv1 Hv2 Hlt Hg.
    apply (same_group_precedes l out pc x y H).
    - intros Hx Hy.
      apply (natural_ltb_digit_runs x y p d1 d2 s v1 v2); assumption.
    - destruct Hg as [Hne | Hg]; [| exact Hg].
      rewrite Ex, Ey. destruct p as [| c p]; [congruence |].
      apply is_priority_same_first. }
  split; [| split; [exact General | split; reflexivity]].
  intros l pc out H.
  apply (General l pc out "f2" "f10" "f" "2" "10" "" 2%Z 10%Z H);
    try reflexivity; try (split; [discriminate | reflexivity]).
  left. discriminate.
Qed.

Lemma natural_sort_orders_digit_runs_by_value_witness :
  precedes "f2" "f10" ["!f1"; "f1"; "f2"; "f10"]
  /\ precedes "a/page_7.png" "b/page_10.png"
              ["a/page_7.png"; "b/page_10.png"].
Proof.
  destruct natural_sort_orders_digit_runs_by_value as (H1 & H2 & _).
  split.
  - apply (H1 ["f10"; "f1"; "f2"; "!f1"] "!"). reflexivity.
  - apply (H2 ["b/page_10.png"; "a/page_7.png"] "!" _
              "a/page_7.png" "b/page_10.png" "page_" "7" "10" ".png"
              7%Z 10%Z).
    + reflexivity.
    + reflexivity.
    + reflexivity.
    + split; [discriminate | reflexivity].
    + split; [discriminate | reflexivity].
    + reflexivity.
    + reflexivity.
    + reflexivity.
    + reflexivity.
    + lia.
    + left. discriminate.
Defined.

(** ** Traces *)

Lemma writes_app (t1 t2 : list event) :
  writes (t1 ++ t2) = writes t1 ++ writes t2.
Proof.
  induction t1 as [| [m | d c] t1 IH]; simpl; [reflexivity | exact IH |].
  now rewrite IH.
Qed.

(** ** The first pass *)

Lemma io_bind_ret_l {A B : Type} (a : A) (f : A -> io B) :
  io_bind ([], Ok a) f = f a.
Proof.
  simpl. now destruct (f a).
Qed.

Lemma is_dir_named (fi : ZipInfo) :
  nameless fi = false -> is_dir fi = Ok (is_directory fi).
Proof.
  unfold nameless, is_dir, is_directory.
  destruct (filename fi) as [| c s]; [discriminate |]. intros _.
  destruct (Py.last_char (String c s)) eqn:E; [reflexivity |].
  exfalso. revert c E. induction s as [| c' s IH]; intros c E;
    [discriminate | exact (IH c' E)].
Qed.

Lemma is_dir_nameless (fi : ZipInfo) :
  nameless fi = true -> is_dir fi = Raise IndexError.
Proof.
  unfold nameless, is_dir. intros H. apply String.eqb_eq in H.
  now rewrite H.
Qed.

Lemma is_dir_false (fi : ZipInfo) :
  is_dir fi = Ok false -> nameless fi = false /\ is_directory fi = false.
Proof.
  destruct (nameless fi) eqn:E.
  - rewrite (is_dir_nameless fi E). discriminate.
  - rewrite (is_dir_named fi E). intros H. injection H as ->. auto.
Qed.

Lemma qualifies_named (fi : ZipInfo) : qualifies fi = true -> nameless fi = false.
Proof.
  unfold qualifies, nameless. rewrite !andb_true_iff. intros [_ H].
  destruct (filename fi); [discriminate | reflexivity].
Qed.

(** One round of the loop. *)
Lemma first_pass_cons (fi : ZipInfo) (rest : list ZipInfo) (total : N)
  (infos : list ZipInfo) :
  first_pass (fi :: rest) total infos
  = if nameless fi then throw IndexError
    else if is_directory fi then first_pass rest total infos
    else if suspicious fi then
      print (WarnSuspiciousPath (filename fi)) ;;;
      first_pass rest total infos
    else if is_image_file (filename fi) then
      if (MAX_EXTRACTED_SIZE_BYTES <? total + file_size fi)%N
      then throw (ValueError ExceedsExtractionSize)
      else first_pass rest (total + file_size fi)%N (infos ++ [fi])
    else first_pass rest total infos.
Proof.
  cbn [first_pass]. destruct (nameless fi) eqn:E.
  - now rewrite (is_dir_nameless fi E).
  - rewrite (is_dir_named fi E). unfold lift. rewrite io_bind_ret_l.
    reflexivity.
Qed.

Lemma first_pass_no_write (filelist : list ZipInfo) (total : N)
  (infos : list ZipInfo) :
  writes (fst (first_pass filelist total infos)) = [].
Proof.
  revert total infos; induction filelist as [| fi rest IH];
    intros total infos; [reflexivity |].
  rewrite first_pass_cons.
  destruct (nameless fi); [reflexivity |].
  destruct (is_directory fi); [apply IH |].
  destruct (suspicious fi).
  - unfold io_bind, print.
    specialize (IH total infos).
    destruct (first_pass rest total infos); simpl in *. exact IH.
  - destruct (is_image_file (filename fi)); [| apply IH].
    destruct (MAX_EXTRACTED_SIZE_BYTES <? total + file_size fi)%N;
      [reflexivity | apply IH].
Qed.

Lemma qualifies_cases (fi : ZipInfo) :
  qualifies fi = true ->
  nameless fi = false /\ is_directory fi = false /\ suspicious fi = false
  /\ is_image_file (filename fi) = true.
Proof.
  intros H. split; [now apply qualifies_named |].
  unfold qualifies in H.
  rewrite !andb_true_iff, !negb_true_iff in H. tauto.
Qed.

Lemma first_pass_step_skip (fi : ZipInfo) (rest : list ZipInfo) (total : N)
  (infos : list ZipInfo) :
  nameless fi = false -> qualifies fi = false ->
  snd (first_pass (fi :: rest) total infos)
  = snd (first_pass rest total infos).
Proof.
  unfold qualifies. intros Hn H. rewrite first_pass_cons, Hn.
  destruct (is_directory fi); [reflexivity |].
  destruct (suspicious fi).
  - unfold io_bind, print. now destruct (first_pass rest total infos).
  - simpl in H. now rewrite H.
Qed.

Lemma declared_image_size_cons (fi : ZipInfo) (rest : list ZipInfo) :
  declared_image_size (fi :: rest)
  = ((if qualifies fi then file_size fi else 0) + declared_image_size rest)%N.
Proof.
  unfold declared_image_size. simpl. now destruct (qualifies fi).
Qed.

Lemma first_pass_step_take (fi : ZipInfo) (rest : list ZipInfo) (total : N)
  (infos : list ZipInfo) :
  qualifies fi = true ->
  first_pass (fi :: rest) total infos
  = if (MAX_EXTRACTED_SIZE_BYTES <? total + file_size fi)%N
    then throw (ValueError ExceedsExtractionSize)
    else first_pass rest (total + file_size fi)%N (infos ++ [fi]).
Proof.
  intros H. apply qualifies_cases in H as (Hn & Hd & Hs & Hi).
  now rewrite first_pass_cons, Hn, Hd, Hs, Hi.
Qed.

Lemma named_cons (fi : ZipInfo) (rest : list ZipInfo) :
  named (fi :: rest) = true <-> nameless fi = false /\ named rest = true.
Proof.
  unfold named. simpl. now rewrite andb_true_iff, negb_true_iff.
Qed.

Lemma first_pass_exceeds (filelist : list ZipInfo) (total : N)
  (infos : list ZipInfo) :
  named filelist = true ->
  (total <= MAX_EXTRACTED_SIZE_BYTES)%N ->
  (MAX_EXTRACTED_SIZE_BYTES < total + declared_image_size filelist)%N ->
  snd (first_pass filelist total infos)
  = Raise (ValueError ExceedsExtractionSize).
Proof.
  revert total infos; induction filelist as [| fi rest IH];
    intros total infos Hn Hle H.
  - unfold declared_image_size in H. simpl in H. lia.
  - apply named_cons in Hn as [Hfi Hn].
    rewrite declared_image_size_cons in H.
    destruct (qualifies fi) eqn:Q.
    + rewrite (first_pass_step_take fi rest total infos Q).
      destruct (N.ltb_spec MAX_EXTRACTED_SIZE_BYTES (total + file_size fi));
        [reflexivity |].
      apply IH; [assumption | assumption | lia].
    + rewrite (first_pass_step_skip fi rest total infos Hfi Q).
      apply IH; [assumption | assumption | lia].
Qed.

Lemma first_pass_within (filelist : list ZipInfo) (total : N)
  (infos : list ZipInfo) :
  named filelist = true ->
  (total + declared_image_size filelist <= MAX_EXTRACTED_SIZE_BYTES)%N ->
  snd (first_pass filelist total infos)
  = Ok (infos ++ filter qualifies filelist).
Proof.
  revert total infos; induction filelist as [| fi rest IH];
    intros total infos Hn H.
  - simpl. now rewrite app_nil_r.
  - apply named_cons in Hn as [Hfi Hn].
    rewrite declared_image_size_cons in H. simpl filter.
    destruct (qualifies fi) eqn:Q.
    + rewrite (first_pass_step_take fi rest total infos Q).
      destruct (N.ltb_spec MAX_EXTRACTED_SIZE_BYTES (total + file_size fi));
        [lia |].
      rewrite IH by (assumption || lia). now rewrite <- app_assoc.
    + rewrite (first_pass_step_skip fi rest total infos Hfi Q).
      apply IH; [assumption | lia].
Qed.

(** When every member has a name, the outcome of the first pass only
    depends on the members that qualify. *)
Lemma first_pass_named (filelist : list ZipInfo) :
  named filelist = true ->
  snd (first_pass filelist 0 [])
  = if (MAX_EXTRACTED_SIZE_BYTES <? declared_image_size filelist)%N
    then Raise (ValueError ExceedsExtractionSize)
    else Ok (filter qualifies filelist).
Proof.
  intros Hn.
  destruct (N.ltb_spec MAX_EXTRACTED_SIZE_BYTES (declared_image_size filelist)).
  - apply first_pass_exceeds;
      [assumption | unfold MAX_EXTRACTED_SIZE_BYTES; lia | lia].
  - apply (first_pass_within filelist 0 []); [assumption | lia].
Qed.

Lemma named_scanned (filelist : list ZipInfo) : named (scanned filelist) = true.
Proof.
  induction filelist as [| fi rest IH]; [reflexivity |]. simpl.
  destruct (nameless fi) eqn:E; [reflexivity |].
  apply named_cons. auto.
Qed.

Lemma scanned_named (filelist : list ZipInfo) :
  named filelist = true -> scanned filelist = filelist.
Proof.
  induction filelist as [| fi rest IH]; [reflexivity |].
  intros H. apply named_cons in H as [Hfi Hn]. simpl.
  now rewrite Hfi, (IH Hn).
Qed.

(** The pass stops at the first member without a name, unless it has
    stopped before. *)
Lemma first_pass_scanned (filelist : list ZipInfo) (total : N)
  (infos : list ZipInfo) :
  first_pass filelist total infos
  = (fst (first_pass (scanned filelist) total infos),
     match snd (first_pass (scanned filelist) total infos) with
     | Raise e => Raise e
     | Ok found => if named filelist then Ok found else Raise IndexError
     end).
Proof.
  revert total infos; induction filelist as [| fi rest IH];
    intros total infos; [reflexivity |].
  rewrite first_pass_cons. cbn [scanned].
  destruct (nameless fi) eqn:Hfi;
    [unfold named; simpl; now rewrite Hfi |].
  assert (Hn : named (fi :: rest) = named rest)
    by (unfold named; simpl; now rewrite Hfi).
  rewrite Hn, first_pass_cons, Hfi.
  destruct (is_directory fi); [apply IH |].
  destruct (suspicious fi).
  - unfold io_bind, print. rewrite (IH total infos).
    destruct (first_pass (scanned rest) total infos) as [t [r | e]];
      reflexivity.
  - destruct (is_image_file (filename fi)); [| apply IH].
    destruct (MAX_EXTRACTED_SIZE_BYTES <? total + file_size fi)%N;
      [reflexivity | apply IH].
Qed.

(** The outcome of the first pass. *)
Lemma first_pass_result (filelist : list ZipInfo) :
  snd (first_pass filelist 0 [])
  = if (MAX_EXTRACTED_SIZE_BYTES <? declared_image_size (scanned filelist))%N
    then Raise (ValueError ExceedsExtractionSize)
    else if named filelist then Ok (filter qualifies filelist)
    else Raise IndexError.
Proof.
  rewrite first_pass_scanned. cbn [snd].
  rewrite (first_pass_named _ (named_scanned filelist)).
  destruct (MAX_EXTRACTED_SIZE_BYTES
            <? declared_image_size (scanned filelist))%N; [reflexivity |].
  destruct (named filelist) eqn:Hn; [| reflexivity].
  now rewrite (scanned_named _ Hn).
Qed.

(** Once the pass has stopped, what follows in the archive plays no
    role. *)
Lemma first_pass_stopped (pre rest : list ZipInfo) (total : N)
  (infos : list ZipInfo) (e : exn) :
  snd (first_pass pre total infos) = Raise e ->
  first_pass (pre ++ rest) total infos = first_pass pre total infos.
Proof.
  revert total infos; induction pre as [| fi pre IH]; intros total infos;
    [discriminate |].
  change ((fi :: pre) ++ rest) with (fi :: (pre ++ rest)).
  rewrite !first_pass_cons.
  destruct (nameless fi); [reflexivity |].
  destruct (is_directory fi); [apply IH |].
  destruct (suspicious fi).
  - unfold io_bind, print. intros H.
    rewrite (IH total infos);
      [reflexivity | now destruct (first_pass pre total infos)].
  - destruct (is_image_file (filename fi)); [| apply IH].
    destruct (MAX_EXTRACTED_SIZE_BYTES <? total + file_size fi)%N;
      [reflexivity | apply IH].
Qed.

(** A suspicious member that the pass reaches is reported. *)
Lemma first_pass_warns (pre post : list ZipInfo) (fi : ZipInfo) (total : N)
  (infos : list ZipInfo) :
  named pre = true ->
  (total + declared_image_size pre <= MAX_EXTRACTED_SIZE_BYTES)%N ->
  is_dir fi = Ok false -> suspicious fi = true ->
  In (Print (WarnSuspiciousPath (filename fi)))
     (fst (first_pass (pre ++ fi :: post) total infos)).
Proof.
  revert total infos; induction pre as [| g pre IH];
    intros total infos Hn H Hd Hs.
  - apply is_dir_false in Hd as [Hfi Hd].
    simpl app. rewrite first_pass_cons, Hfi, Hd, Hs.
    unfold io_bind, print. destruct (first_pass post total infos).
    simpl. auto.
  - apply named_cons in Hn as [Hg Hn].
    rewrite declared_image_size_cons in H.
    change ((g :: pre) ++ fi :: post) with (g :: (pre ++ fi :: post)).
    destruct (qualifies g) eqn:Q.
    + rewrite (first_pass_step_take g _ total infos Q).
      destruct (N.ltb_spec MAX_EXTRACTED_SIZE_BYTES (total + file_size g));
        [lia |].
      apply IH; [assumption | lia | assumption | assumption].
    + assert (IH' := IH total infos Hn ltac:(lia) Hd Hs).
      clear - IH' Q Hg. rewrite first_pass_cons, Hg.
      unfold qualifies in Q.
      destruct (is_directory g); [exact IH' |].
      destruct (suspicious g).
      * unfold io_bind, print.
        destruct (first_pass (pre ++ fi :: post) total infos). simpl in *.
        auto.
      * simpl in Q. rewrite Q. exact IH'.
Qed.

(** A member that does not qualify and has a name does not change what
    the pass returns. *)
Lemma first_pass_without (pre post : list ZipInfo) (fi : ZipInfo) (total : N)
  (infos : list ZipInfo) :
  nameless fi = false -> qualifies fi = false ->
  snd (first_pass (pre ++ fi :: post) total infos)
  = snd (first_pass (pre ++ post) total infos).
Proof.
  intros Hfi Hq. revert total infos; induction pre as [| g pre IH];
    intros total infos.
  - apply first_pass_step_skip; assumption.
  - change ((g :: pre) ++ fi :: post) with (g :: (pre ++ fi :: post)).
    change ((g :: pre) ++ post) with (g :: (pre ++ post)).
    rewrite !first_pass_cons.
    destruct (nameless g); [reflexivity |].
    destruct (is_directory g); [apply IH |].
    destruct (suspicious g).
    + unfold io_bind, print. specialize (IH total infos).
      destruct (first_pass (pre ++ fi :: post) total infos),
               (first_pass (pre ++ post) total infos).
      simpl in *. exact IH.
    + destruct (is_image_file (filename g)); [| apply IH].
      destruct (MAX_EXTRACTED_SIZE_BYTES <? total + file_size g)%N;
        [reflexivity | apply IH].
Qed.

(** ** Paths below the scratch directory *)

Lemma prefix_empty (s : string) : String.prefix "" s = true.
Proof.
  now destruct s.
Qed.

Lemma prefix_same_head (a : ascii) (p s : string) :
  String.prefix (String a p) (String a s) = String.prefix p s.
Proof.
  simpl. destruct (Ascii.ascii_dec a a); [reflexivity | congruence].
Qed.

Lemma prefix_first (a : ascii) (p s : string) :
  String.prefix (String a p) s = true -> String.prefix (String a "") s = true.
Proof.
  destruct s as [| c r]; [discriminate |].
  change (String.prefix (String a p) (String c r))
    with (if Ascii.ascii_dec a c then String.prefix p r else false).
  change (String.prefix (String a "") (String c r))
    with (if Ascii.ascii_dec a c then String.prefix "" r else false).
  destruct (Ascii.ascii_dec a c); [| discriminate].
  intros _. apply prefix_empty.
Qed.

Lemma split_slash_head (s : string) (a : ascii) (piece : string)
  (tl : list string) :
  Py.split_slash s = String a piece :: tl -> exists r, s = String a r.
Proof.
  destruct s as [| c r]; simpl; [discriminate |].
  destruct (Ascii.eqb c "/"); [discriminate |].
  destruct (Py.split_slash r); intros H; injection H as -> _; eauto.
Qed.

Lemma split_slash_parent (s : string) :
  In ".." (Py.split_slash s) -> Py.contains s ".." = true.
Proof.
  induction s as [| c s IH]; simpl.
  - intros [H | []]. discriminate.
  - destruct (Ascii.eqb c "/") eqn:Ec.
    + intros [H | H]; [discriminate |].
      rewrite (IH H). apply orb_true_r.
    + destruct (Py.split_slash s) as [| piece tl] eqn:E.
      * intros [H | []]. discriminate.
      * intros [H | H].
        -- injection H as -> ->.
           destruct (split_slash_head s _ _ _ E) as [r ->].
           unfold Py.contains. now rewrite !prefix_same_head, prefix_empty.
        -- rewrite IH by (right; exact H). apply orb_true_r.
Qed.

Lemma not_suspicious_inside (temp_dir : pathlib.PurePath) (fi : ZipInfo) :
  suspicious fi = false ->
  inside temp_dir (pathlib.truediv temp_dir (filename fi)).
Proof.
  unfold suspicious. rewrite orb_false_iff. intros [Hdots Habs].
  assert (Hroot : pathlib.root (pathlib.Path (filename fi)) = "").
  { unfold pathlib.Path, pathlib.root, pathlib.parse_root.
    rewrite Habs. unfold Py.startswith in *.
    destruct (String.prefix "//" (filename fi)) eqn:E; [| reflexivity].
    apply prefix_first in E. congruence. }
  unfold pathlib.truediv. rewrite Hroot. simpl. split; [reflexivity |].
  eexists. split; [reflexivity |].
  intros Hin. apply filter_In in Hin as [Hin _].
  apply split_slash_parent in Hin. congruence.
Qed.

Lemma parent_segment_suspicious (fi : ZipInfo) :
  has_parent_segment (filename fi) = true \/ is_absolute (filename fi) = true ->
  suspicious fi = true.
Proof.
  unfold suspicious, has_parent_segment, is_absolute. intros [H | H].
  - apply existsb_exists in H as (x & Hx & E).
    apply String.eqb_eq in E. subst x.
    now rewrite (split_slash_parent _ Hx).
  - rewrite H. apply orb_true_r.
Qed.

(** ** The second pass and the whole extraction *)

Lemma same_outcome_try {A : Type} (m1 m2 : io A) (h : exn -> io A) :
  same_outcome m1 m2 -> same_outcome (try_except m1 h) (try_except m2 h).
Proof.
  destruct m1 as [t1 r1], m2 as [t2 r2]. unfold same_outcome. simpl.
  intros [<- Hw]. destruct r1 as [a | e]; simpl; [auto |].
  destruct (h e) as [t r]. simpl. rewrite !writes_app, Hw. auto.
Qed.

Lemma second_pass_writes (zip_ref : zipfile) (temp_dir : pathlib.PurePath)
  (total : nat) (todo : list ZipInfo) (idx : nat) (files : list string) :
  Forall (written_by_second_pass temp_dir todo)
         (writes (fst (second_pass zip_ref temp_dir total todo idx files))).
Proof.
  revert idx files; induction todo as [| fi rest IH]; intros idx files;
    simpl; [constructor |].
  specialize (IH (S idx)
    (files ++ [pathlib.str (pathlib.truediv temp_dir (filename fi))])).
  assert (Hrest : Forall (written_by_second_pass temp_dir (fi :: rest))
    (writes (fst (second_pass zip_ref temp_dir total rest (S idx)
       (files ++ [pathlib.str (pathlib.truediv temp_dir (filename fi))]))))).
  { eapply Forall_impl; [| exact IH].
    intros w (g & Hg & Hw). exists g. split; [right; exact Hg | exact Hw]. }
  clear IH.
  unfold io_bind, print, library_write, write, throw.
  destruct (extract zip_ref fi temp_dir) as [| e [|]]; simpl.
  - destruct (second_pass zip_ref temp_dir total rest (S idx) _); simpl in *.
    constructor; [| exact Hrest].
    exists fi. simpl. auto.
  - constructor; [| constructor]. exists fi. simpl. auto.
  - constructor.
Qed.

Lemma second_pass_listing (zip_ref : zipfile) (filelist : list ZipInfo)
  (temp_dir : pathlib.PurePath) (total : nat) (todo : list ZipInfo)
  (idx : nat) (files : list string) :
  second_pass (listing zip_ref filelist) temp_dir total todo idx files
  = second_pass zip_ref temp_dir total todo idx files.
Proof.
  revert idx files; induction todo as [| fi rest IH]; intros idx files;
    simpl; [reflexivity |].
  now rewrite IH.
Qed.

Lemma first_pass_infos (filelist infos : list ZipInfo) :
  snd (first_pass filelist 0 []) = Ok infos ->
  infos = filter qualifies filelist.
Proof.
  rewrite first_pass_result.
  destruct (MAX_EXTRACTED_SIZE_BYTES
            <? declared_image_size (scanned filelist))%N; [congruence |].
  destruct (named filelist); congruence.
Qed.

(** Everything [extract_images_from_zip] writes is a member that
    qualifies, written at its declared path below [temp_dir]. *)
Lemma extract_writes_qualifying (zip_ref : zipfile)
  (zip_path temp_dir : pathlib.PurePath) (use_natural_sort : bool)
  (priority_chars : string) :
  Forall (fun w => exists fi,
            qualifies fi = true
            /\ fst w = pathlib.truediv temp_dir (filename fi)
            /\ (snd w = Member fi \/ snd w = Partial))
         (writes (fst (extract_images_from_zip zip_ref zip_path temp_dir
                         use_natural_sort priority_chars))).
Proof.
  unfold extract_images_from_zip.
  destruct (ZipFile zip_ref zip_path) as [filelist | e].
  2:{ unfold lift, io_bind, try_except, print, ret.
      destruct e; simpl; constructor. }
  unfold lift. rewrite io_bind_ret_l.
  pose proof (first_pass_no_write filelist 0 []) as Hw.
  pose proof (first_pass_infos filelist) as Hinfos.
  destruct (first_pass filelist 0 []) as [w [infos | e]]; simpl in Hw, Hinfos.
  2:{ unfold io_bind, try_except, print, ret.
      destruct e; simpl; rewrite writes_app, Hw; simpl; constructor. }
  specialize (Hinfos infos eq_refl).
  unfold io_bind at 1.
  destruct (MAX_FILES_IN_ZIP <? N.of_nat (List.length infos))%N.
  { unfold try_except, throw, io_bind, print, ret. simpl.
    rewrite !writes_app, Hw. simpl. constructor. }
  destruct (List.length infos =? 0)%nat.
  { unfold try_except, throw, io_bind, print, ret. simpl.
    rewrite !writes_app, Hw. simpl. constructor. }
  pose proof (second_pass_writes zip_ref temp_dir (List.length infos)
                infos 1 []) as H2.
  assert (H2' : Forall (fun w => exists fi,
            qualifies fi = true
            /\ fst w = pathlib.truediv temp_dir (filename fi)
            /\ (snd w = Member fi \/ snd w = Partial))
         (writes (fst (second_pass zip_ref temp_dir (List.length infos)
                         infos 1 [])))).
  { eapply Forall_impl; [| exact H2].
    intros x (fi & Hfi & Hx). exists fi. split; [| exact Hx].
    rewrite Hinfos in Hfi. apply filter_In in Hfi. tauto. }
  clear H2.
  destruct (second_pass zip_ref temp_dir (List.length infos) infos 1 [])
    as [t2 [files | e]]; simpl in H2'.
  - unfold io_bind, lift, ret.
    destruct (sort_images files use_natural_sort priority_chars) as [s | e];
      simpl.
    + rewrite !writes_app, Hw, !app_nil_r. simpl. exact H2'.
    + unfold print. destruct e; simpl;
        rewrite !writes_app, Hw, ?app_nil_r; simpl;
        rewrite ?writes_app, ?app_nil_r; simpl; rewrite ?app_nil_r;
        exact H2'.
  - unfold io_bind, try_except, print, ret.
    destruct e; simpl; rewrite !writes_app, Hw; simpl;
      rewrite ?app_nil_r; exact H2'.
Qed.

Lemma first_pass_only_warns (filelist : list ZipInfo) (total : N)
  (infos : list ZipInfo) :
  Forall (fun ev => exists declared, ev = Print (WarnSuspiciousPath declared))
         (fst (first_pass filelist total infos)).
Proof.
  revert total infos; induction filelist as [| fi rest IH];
    intros total infos; [constructor |].
  rewrite first_pass_cons.
  destruct (nameless fi); [constructor |].
  destruct (is_directory fi); [apply IH |].
  destruct (suspicious fi).
  - unfold io_bind, print. specialize (IH total infos).
    destruct (first_pass rest total infos); simpl in *.
    constructor; [eauto | exact IH].
  - destruct (is_image_file (filename fi)); [| apply IH].
    destruct (MAX_EXTRACTED_SIZE_BYTES <? total + file_size fi)%N;
      [constructor | apply IH].
Qed.

Lemma io_bind_trace {A B : Type} (m : io A) (f : A -> io B) :
  exists t, fst (io_bind m f) = fst m ++ t.
Proof.
  destruct m as [t [a | e]]; simpl.
  - destruct (f a) as [t' r]. simpl. eauto.
  - exists []. now rewrite app_nil_r.
Qed.

Lemma try_except_trace {A : Type} (m : io A) (h : exn -> io A) :
  exists t, fst (try_except m h) = fst m ++ t.
Proof.
  destruct m as [t [a | e]]; simpl.
  - exists []. now rewrite app_nil_r.
  - destruct (h e) as [t' r]. simpl. eauto.
Qed.

Lemma extract_trace_starts_with_first_pass (zip_ref : zipfile)
  (zip_path temp_dir : pathlib.PurePath) (use_natural_sort : bool)
  (priority_chars : string) (filelist : list ZipInfo) :
  ZipFile zip_ref zip_path = Ok filelist ->
  exists t,
    fst (extract_images_from_zip zip_ref zip_path temp_dir use_natural_sort
           priority_chars)
    = fst (first_pass filelist 0 []) ++ t.
Proof.
  intros H. unfold extract_images_from_zip. rewrite H. unfold lift.
  rewrite io_bind_ret_l.
  match goal with
  | |- exists t, fst (try_except (io_bind ?m ?f) ?h) = _ =>
      destruct (try_except_trace (io_bind m f) h) as [t1 E1];
      destruct (io_bind_trace m f) as [t2 E2]
  end.
  exists (t2 ++ t1). now rewrite E1, E2, app_assoc.
Qed.

(** All the runs of the extraction on an archive that opens. *)
Lemma extract_run (zip_ref : zipfile) (zip_path temp_dir : pathlib.PurePath)
  (use_natural_sort : bool) (priority_chars : string)
  (filelist : list ZipInfo) :
  ZipFile zip_ref zip_path = Ok filelist ->
  let infos := filter qualifies filelist in
  let warned := fst (first_pass filelist 0 []) in
  let second := second_pass zip_ref temp_dir (List.length infos) infos 1 [] in
  extract_images_from_zip zip_ref zip_path temp_dir use_natural_sort
    priority_chars
  = if (MAX_EXTRACTED_SIZE_BYTES
        <? declared_image_size (scanned filelist))%N then
      (warned ++ [Print (SecurityError ExceedsExtractionSize)], Ok [])
    else if negb (named filelist) then
      (warned ++ [Print (ErrorExtracting (pathlib.name zip_path) IndexError)],
       Ok [])
    else if (MAX_FILES_IN_ZIP <? N.of_nat (List.length infos))%N then
      (warned ++ [Print (SecurityError (TooManyFiles (List.length infos)))],
       Ok [])
    else if (List.length infos =? 0)%nat then
      (warned ++ [Print (WarnNoImages (pathlib.name zip_path))], Ok [])
    else
      match snd second with
      | Raise e =>
          (warned ++ fst second ++ [Print (reported zip_path e)], Ok [])
      | Ok files =>
          match sort_images files use_natural_sort priority_chars with
          | Ok sorted =>
              (warned ++ fst second, Ok (map pathlib.Path sorted))
          | Raise e =>
              (warned ++ fst second ++ [Print (reported zip_path e)], Ok [])
          end
      end.
Proof.
  intros Hopen infos warned second.
  unfold extract_images_from_zip. rewrite Hopen. unfold lift.
  rewrite io_bind_ret_l.
  pose proof (first_pass_result filelist) as Hr.
  subst warned. destruct (first_pass filelist 0 []) as [w r]. simpl in Hr.
  cbn [fst]. subst r.
  destruct (MAX_EXTRACTED_SIZE_BYTES
            <? declared_image_size (scanned filelist))%N.
  { reflexivity. }
  destruct (named filelist).
  2:{ reflexivity. }
  cbn [negb]. fold infos. cbn [io_bind].
  destruct (MAX_FILES_IN_ZIP <? N.of_nat (List.length infos))%N.
  { unfold throw, try_except. simpl. now rewrite app_nil_r. }
  destruct (List.length infos =? 0)%nat.
  { unfold print, ret, io_bind, try_except. now rewrite app_nil_r. }
  fold second. destruct second as [t2 [files | e]]; cbn [fst snd].
  - cbn [io_bind]. unfold lift.
    destruct (sort_images files use_natural_sort priority_chars) as [sorted | e].
    + unfold ret, io_bind, try_except. now rewrite !app_nil_r.
    + destruct e; unfold io_bind, try_except, print, ret; cbn [fst snd app];
        now rewrite ?app_nil_r, <- ?app_assoc.
  - destruct e; unfold io_bind, try_except, print, ret; cbn [fst snd app];
      now rewrite ?app_nil_r, <- ?app_assoc.
Qed.

(** The run when the first pass stops. *)
Lemma extract_stopped (zip_ref : zipfile)
  (zip_path temp_dir : pathlib.PurePath) (use_natural_sort : bool)
  (priority_chars : string) (filelist : list ZipInfo) (e : exn) :
  ZipFile zip_ref zip_path = Ok filelist ->
  snd (first_pass filelist 0 []) = Raise e ->
  extract_images_from_zip zip_ref zip_path temp_dir use_natural_sort
    priority_chars
  = (fst (first_pass filelist 0 []) ++ [Print (reported zip_path e)], Ok []).
Proof.
  intros Hopen Hstop.
  rewrite (extract_run _ _ _ _ _ _ Hopen). cbv zeta.
  rewrite first_pass_result in Hstop.
  destruct (MAX_EXTRACTED_SIZE_BYTES
            <? declared_image_size (scanned filelist))%N;
    [injection Hstop as <-; reflexivity |].
  destruct (named filelist); [discriminate |].
  injection Hstop as <-. reflexivity.
Qed.

Lemma declared_image_size_app (l1 l2 : list ZipInfo) :
  declared_image_size (l1 ++ l2)
  = (declared_image_size l1 + declared_image_size l2)%N.
Proof.
  induction l1 as [| fi l1 IH]; [reflexivity |].
  change ((fi :: l1) ++ l2) with (fi :: (l1 ++ l2)).
  rewrite !declared_image_size_cons, IH. lia.
Qed.

(** Claim C4, as the code has it.  When the declared sizes of the
    members that qualify add up to more than
    [MAX_EXTRACTED_SIZE_BYTES], the extraction returns no
    file and has written nothing: the decision falls in the first pass,
    which only warns.  The run ends with the security error of the size
    limit when the running total passes the limit at a member the pass
    reaches, as it does whenever every member has a name; when a member
    without a name comes first, [is_dir()] raises on it and the run ends
    with the general extraction error. *)
Theorem oversized_archive_is_rejected (zip_ref : zipfile)
  (zip_path temp_dir : pathlib.PurePath) (use_natural_sort : bool)
  (priority_chars : string) (filelist : list ZipInfo) :
  ZipFile zip_ref zip_path = Ok filelist ->
  (MAX_EXTRACTED_SIZE_BYTES < declared_image_size filelist)%N ->
  exists warnings,
    Forall (fun ev => exists declared,
              ev = Print (WarnSuspiciousPath declared)) warnings
    /\ ((MAX_EXTRACTED_SIZE_BYTES < declared_image_size (scanned filelist))%N
        /\ extract_images_from_zip zip_ref zip_path temp_dir
             use_natural_sort priority_chars
           = (warnings ++ [Print (SecurityError ExceedsExtractionSize)],
              Ok [])
        \/ (declared_image_size (scanned filelist)
            <= MAX_EXTRACTED_SIZE_BYTES)%N
           /\ named filelist = false
           /\ extract_images_from_zip zip_ref zip_path temp_dir
                use_natural_sort priority_chars
              = (warnings
                 ++ [Print (ErrorExtracting (pathlib.name zip_path)
                                            IndexError)],
                 Ok []))
    /\ (named filelist = true ->
        extract_images_from_zip zip_ref zip_path temp_dir use_natural_sort
          priority_chars
        = (warnings ++ [Print (SecurityError ExceedsExtractionSize)], Ok []))
    /\ writes (fst (extract_images_from_zip zip_ref zip_path temp_dir
                      use_natural_sort priority_chars)) = [].
Proof.
  intros Hopen Hsize.
  exists (fst (first_pass filelist 0 [])).
  split; [apply first_pass_only_warns |].
  rewrite (extract_run _ _ _ _ _ _ Hopen). cbv zeta.
  destruct (N.ltb_spec MAX_EXTRACTED_SIZE_BYTES
              (declared_image_size (scanned filelist))) as [Hs | Hs].
  - split; [left; split; [exact Hs | reflexivity] |].
    split; [reflexivity |].
    cbn [fst]. now rewrite writes_app, first_pass_no_write.
  - destruct (named filelist) eqn:Hn.
    + rewrite (scanned_named _ Hn) in Hs. lia.
    + cbn [negb]. split; [right; repeat split; exact Hs |].
      split; [discriminate |].
      cbn [fst]. now rewrite writes_app, first_pass_no_write.
Qed.

Lemma oversized_archive_is_rejected_witness :
  exists warnings,
    extract_images_from_zip
      (sample_zipfile [mkZipInfo "../big.png" 900000000;
                       mkZipInfo "a.jpg" 300000000;
                       mkZipInfo "dir/b.PNG" 300000000])
      (pathlib.Path "comic.zip") (pathlib.Path "/tmp/scratch") true "!"
    = (warnings ++ [Print (SecurityError ExceedsExtractionSize)], Ok []).
Proof.
  destruct (oversized_archive_is_rejected
              (sample_zipfile [mkZipInfo "../big.png" 900000000;
                               mkZipInfo "a.jpg" 300000000;
                               mkZipInfo "dir/b.PNG" 300000000])
              (pathlib.Path "comic.zip") (pathlib.Path "/tmp/scratch")
              true "!" _ eq_refl eq_refl) as (warnings & _ & _ & H & _).
  exists warnings. exact (H eq_refl).
Defined.

(** Claim C4 as stated fails: an archive over the limit that does not
    end with the security error, because the member without a name stops
    the pass before the total is reached. *)
Lemma nameless_member_hides_size_limit :
  (MAX_EXTRACTED_SIZE_BYTES
   < declared_image_size [mkZipInfo "" 1; mkZipInfo "a.jpg" 600000000])%N
  /\ extract_images_from_zip
       (sample_zipfile [mkZipInfo "" 1; mkZipInfo "a.jpg" 600000000])
       (pathlib.Path "comic.zip") (pathlib.Path "/tmp/scratch") true "!"
     = ([Print (ErrorExtracting "comic.zip" IndexError)], Ok []).
Proof.
  split; reflexivity.
Qed.

Lemma same_outcome_bind_ext {A B : Type} (m1 m2 : io A) (f1 f2 : A -> io B) :
  same_outcome m1 m2 -> (forall a, f1 a = f2 a) ->
  same_outcome (io_bind m1 f1) (io_bind m2 f2).
Proof.
  intros Hm Hf.
  destruct m1 as [t1 r1], m2 as [t2 r2]. unfold same_outcome in *.
  simpl in *. destruct Hm as [<- Hw].
  destruct r1 as [a | e]; simpl; [| auto].
  rewrite (Hf a). destruct (f2 a) as [t r]. simpl.
  rewrite !writes_app, Hw. auto.
Qed.

(** A member with a name that does not qualify changes neither what
    the extraction returns nor what it writes. *)
Lemma extract_without (zip_ref : zipfile)
  (zip_path temp_dir : pathlib.PurePath) (use_natural_sort : bool)
  (priority_chars : string) (pre post : list ZipInfo) (fi : ZipInfo) :
  nameless fi = false -> qualifies fi = false ->
  same_outcome
    (extract_images_from_zip (listing zip_ref (pre ++ fi :: post)) zip_path
       temp_dir use_natural_sort priority_chars)
    (extract_images_from_zip (listing zip_ref (pre ++ post)) zip_path
       temp_dir use_natural_sort priority_chars).
Proof.
  intros Hfi Hq. unfold extract_images_from_zip.
  change (ZipFile (listing zip_ref (pre ++ fi :: post)) zip_path)
    with (Ok (A := list ZipInfo) (pre ++ fi :: post)).
  change (ZipFile (listing zip_ref (pre ++ post)) zip_path)
    with (Ok (A := list ZipInfo) (pre ++ post)).
  unfold lift. rewrite !io_bind_ret_l.
  apply same_outcome_try, same_outcome_bind_ext.
  - split.
    + apply first_pass_without; assumption.
    + now rewrite !first_pass_no_write.
  - intros infos. now rewrite !second_pass_listing.
Qed.

(** When the first pass stops inside [pre], the run is the run on
    [pre]. *)
Lemma extract_cut (zip_ref : zipfile)
  (zip_path temp_dir : pathlib.PurePath) (use_natural_sort : bool)
  (priority_chars : string) (pre rest : list ZipInfo) :
  named pre = false
  \/ (MAX_EXTRACTED_SIZE_BYTES < declared_image_size (scanned pre))%N ->
  extract_images_from_zip (listing zip_ref (pre ++ rest)) zip_path temp_dir
    use_natural_sort priority_chars
  = extract_images_from_zip (listing zip_ref pre) zip_path temp_dir
      use_natural_sort priority_chars.
Proof.
  intros Hstop.
  assert (He : exists e, snd (first_pass pre 0 []) = Raise e).
  { rewrite first_pass_result.
    destruct (N.ltb_spec MAX_EXTRACTED_SIZE_BYTES
                (declared_image_size (scanned pre))); [eauto |].
    destruct Hstop as [-> | Hstop]; [eauto | lia]. }
  destruct He as [e He].
  rewrite (extract_stopped (listing zip_ref (pre ++ rest)) zip_path temp_dir
             use_natural_sort priority_chars (pre ++ rest) e eq_refl)
    by (rewrite (first_pass_stopped pre rest 0 [] e He); exact He).
  rewrite (extract_stopped (listing zip_ref pre) zip_path temp_dir
             use_natural_sort priority_chars pre e eq_refl He).
  now rewrite (first_pass_stopped pre rest 0 [] e He).
Qed.

(** Claim C8, as the code has it.  A member that is not a directory
    and whose declared path has a [..] segment or is absolute is skipped and the job goes on: the run
    returns and writes what it would without that member, and the member
    is never extracted.  The warning is printed when the first pass
    reaches the member; when the pass stops before, at a member without
    a name or where the size limit is passed, the run is the run on the
    archive cut before the member.  Whatever the archive, every file the
    extraction writes lies below the scratch directory. *)
Theorem traversal_guard_skips_and_confines (zip_ref : zipfile)
  (zip_path temp_dir : pathlib.PurePath) (use_natural_sort : bool)
  (priority_chars : string) :
  (forall pre e post,
      is_dir e = Ok false ->
      has_parent_segment (filename e) = true
      \/ is_absolute (filename e) = true ->
      same_outcome
        (extract_images_from_zip (listing zip_ref (pre ++ e :: post))
           zip_path temp_dir use_natural_sort priority_chars)
        (extract_images_from_zip (listing zip_ref (pre ++ post))
           zip_path temp_dir use_natural_sort priority_chars)
      /\ (forall dest,
             ~ In (dest, Member e)
                  (writes (fst (extract_images_from_zip
                                  (listing zip_ref (pre ++ e :: post))
                                  zip_path temp_dir use_natural_sort
                                  priority_chars))))
      /\ (named pre = true ->
          (declared_image_size pre <= MAX_EXTRACTED_SIZE_BYTES)%N ->
          In (Print (WarnSuspiciousPath (filename e)))
             (fst (extract_images_from_zip
                     (listing zip_ref (pre ++ e :: post))
                     zip_path temp_dir use_natural_sort priority_chars)))
      /\ (named pre = false
          \/ (MAX_EXTRACTED_SIZE_BYTES
              < declared_image_size (scanned pre))%N ->
          extract_images_from_zip (listing zip_ref (pre ++ e :: post))
            zip_path temp_dir use_natural_sort priority_chars
          = extract_images_from_zip (listing zip_ref pre)
              zip_path temp_dir use_natural_sort priority_chars))
  /\ (forall dest c,
         In (dest, c)
            (writes (fst (extract_images_from_zip zip_ref zip_path temp_dir
                            use_natural_sort priority_chars))) ->
         inside temp_dir dest).
Proof.
  split.
  - intros pre e post Hdir Hpath.
    pose proof (parent_segment_suspicious e Hpath) as Hs.
    apply is_dir_false in Hdir as [Hname Hdir].
    assert (Hq : qualifies e = false).
    { unfold qualifies. rewrite Hs. simpl. now rewrite andb_false_r. }
    split; [| split; [| split]].
    + apply extract_without; assumption.
    + intros dest Hin.
      pose proof (extract_writes_qualifying
                    (listing zip_ref (pre ++ e :: post)) zip_path temp_dir
                    use_natural_sort priority_chars) as Hw.
      rewrite Forall_forall in Hw.
      destruct (Hw _ Hin) as (fi & Hfi & _ & [Hm | Hm]); simpl in Hm;
        congruence.
    + intros Hnamed Hreach.
      destruct (extract_trace_starts_with_first_pass
                  (listing zip_ref (pre ++ e :: post)) zip_path temp_dir
                  use_natural_sort priority_chars (pre ++ e :: post) eq_refl)
        as [t ->].
      apply in_or_app. left.
      apply first_pass_warns; [exact Hnamed | lia | | exact Hs].
      now rewrite (is_dir_named e Hname), Hdir.
    + apply extract_cut.
  - intros dest c Hin.
    pose proof (extract_writes_qualifying zip_ref zip_path temp_dir
                  use_natural_sort priority_chars) as Hw.
    rewrite Forall_forall in Hw.
    destruct (Hw _ Hin) as (fi & Hfi & Hdest & _). simpl in Hdest.
    subst dest. apply not_suspicious_inside.
    unfold qualifies in Hfi. rewrite !andb_true_iff, !negb_true_iff in Hfi.
    tauto.
Qed.

Lemma traversal_guard_skips_and_confines_witness :
  In (Print (WarnSuspiciousPath "pages/../../etc/p.png"))
     (fst (extract_images_from_zip
             (listing (sample_zipfile [])
                      ([mkZipInfo "pages/1.png" 10]
                       ++ mkZipInfo "pages/../../etc/p.png" 10
                       :: [mkZipInfo "pages/2.png" 10]))
             (pathlib.Path "c.zip") (pathlib.Path "/tmp/scratch") true "!"))
  /\ inside (pathlib.Path "/tmp/scratch")
            (pathlib.Path "/tmp/scratch/pages/2.png").
Proof.
  split.
  - destruct (traversal_guard_skips_and_confines
                (sample_zipfile [])
                (pathlib.Path "c.zip") (pathlib.Path "/tmp/scratch") true "!")
      as [H _].
    apply (H [mkZipInfo "pages/1.png" 10]
             (mkZipInfo "pages/../../etc/p.png" 10)
             [mkZipInfo "pages/2.png" 10]).
    + reflexivity.
    + left. reflexivity.
    + reflexivity.
    + vm_compute. discriminate.
  - destruct (traversal_guard_skips_and_confines
                (sample_zipfile [mkZipInfo "pages/1.png" 10;
                                 mkZipInfo "/abs.png" 10;
                                 mkZipInfo "pages/2.png" 10])
                (pathlib.Path "c.zip") (pathlib.Path "/tmp/scratch") true "!")
      as [_ H].
    apply (H (pathlib.Path "/tmp/scratch/pages/2.png")
             (Member (mkZipInfo "pages/2.png" 10))).
    vm_compute. right. left. reflexivity.
Defined.

(** Claim C8 as stated fails: a refused member that is not logged,
    because the size limit is passed at the member before it and the
    pass never gets to it. *)
Lemma unreached_member_is_not_logged :
  is_dir (mkZipInfo "../x.png" 10) = Ok false
  /\ has_parent_segment (filename (mkZipInfo "../x.png" 10)) = true
  /\ ~ In (Print (WarnSuspiciousPath "../x.png"))
          (fst (extract_images_from_zip
                  (sample_zipfile [mkZipInfo "a.jpg" 600000000;
                                   mkZipInfo "../x.png" 10])
                  (pathlib.Path "c.zip") (pathlib.Path "/tmp/scratch")
                  true "!")).
Proof.
  split; [reflexivity |]. split; [reflexivity |].
  vm_compute. intros [H | []]. discriminate.
Qed.

(** ** Composition of the pages *)

Lemma open_all_no_write (pil : pillow) (total : nat)
  (todo : list pathlib.PurePath) (idx : nat) (images : list page) :
  writes (fst (open_all pil total todo idx images)) = [].
Proof.
  revert idx images; induction todo as [| p rest IH]; intros idx images;
    simpl; [reflexivity |].
  unfold try_except, io_bind, print, lift, ret, throw.
  destruct (to_page pil p) as [pg | e]; simpl.
  - specialize (IH (S idx) (images ++ [pg])).
    destruct (open_all pil total rest (S idx) (images ++ [pg])). exact IH.
  - destruct e; simpl; try reflexivity.
    specialize (IH (S idx) images).
    destruct (open_all pil total rest (S idx) images). exact IH.
Qed.

Lemma open_all_step_ok (pil : pillow) (total : nat) (p : pathlib.PurePath)
  (rest : list pathlib.PurePath) (idx : nat) (images : list page) (pg : page) :
  to_page pil p = Ok pg ->
  open_all pil total (p :: rest) idx images
  = io_bind ([Print (ConvertingImage idx total (pathlib.name p))], Ok tt)
            (fun _ => open_all pil total rest (S idx) (images ++ [pg])).
Proof.
  intros H. simpl. rewrite H.
  unfold try_except, io_bind, print, lift, ret. simpl.
  now destruct (open_all pil total rest (S idx) (images ++ [pg])).
Qed.

Lemma open_all_step_skip (pil : pillow) (total : nat) (p : pathlib.PurePath)
  (rest : list pathlib.PurePath) (idx : nat) (images : list page) :
  to_page pil p = Raise OSError ->
  open_all pil total (p :: rest) idx images
  = io_bind ([Print (ConvertingImage idx total (pathlib.name p));
              Print (WarnCouldNotProcess (pathlib.name p) OSError)], Ok tt)
            (fun _ => open_all pil total rest (S idx) images).
Proof.
  intros H. simpl. rewrite H.
  unfold try_except, io_bind, print, lift, ret. simpl.
  now destruct (open_all pil total rest (S idx) images).
Qed.

Lemma open_all_step_break (pil : pillow) (total : nat) (p : pathlib.PurePath)
  (rest : list pathlib.PurePath) (idx : nat) (images : list page) (e : exn) :
  to_page pil p = Raise e -> e <> OSError ->
  open_all pil total (p :: rest) idx images
  = ([Print (ConvertingImage idx total (pathlib.name p))], Raise e).
Proof.
  intros H Hne. simpl. rewrite H.
  unfold try_except, io_bind, print, lift, ret, throw.
  destruct e; simpl; try reflexivity. congruence.
Qed.

Lemma open_all_result (pil : pillow) (total : nat)
  (todo : list pathlib.PurePath) (idx : nat) (images : list page) :
  (exists p, In p todo /\ breaks_composition pil p)
  /\ (exists e, snd (open_all pil total todo idx images) = Raise e)
  \/ (forall p, In p todo -> ~ breaks_composition pil p)
     /\ snd (open_all pil total todo idx images)
        = Ok (images ++ decoded_pages pil todo).
Proof.
  revert idx images; induction todo as [| p rest IH]; intros idx images.
  - right. simpl. rewrite app_nil_r. split; [intros p [] | reflexivity].
  - destruct (to_page pil p) as [pg | e] eqn:E.
    + rewrite (open_all_step_ok pil total p rest idx images pg E).
      destruct (IH (S idx) (images ++ [pg])) as [[(q & Hq & Hb) [e He]] | [Hn Hr]].
      * left. split; [exists q; simpl; auto |].
        exists e. unfold io_bind.
        destruct (open_all pil total rest (S idx) (images ++ [pg])).
        exact He.
      * right. split.
        -- intros q [<- | Hq]; [| auto].
           intros (e & He & _). congruence.
        -- unfold io_bind.
           destruct (open_all pil total rest (S idx) (images ++ [pg])).
           simpl in *. rewrite Hr. unfold decoded_pages. simpl.
           rewrite E. now rewrite <- app_assoc.
    + destruct e.
      4:{ rewrite (open_all_step_skip pil total p rest idx images E).
          destruct (IH (S idx) images) as [[(q & Hq & Hb) [e He]] | [Hn Hr]].
          - left. split; [exists q; simpl; auto |].
            exists e. unfold io_bind.
            destruct (open_all pil total rest (S idx) images). exact He.
          - right. split.
            + intros q [<- | Hq]; [| auto].
              intros (e & He & Hne). congruence.
            + unfold io_bind.
              destruct (open_all pil total rest (S idx) images).
              simpl in *. rewrite Hr. unfold decoded_pages. simpl.
              now rewrite E. }
      all: left; split;
        [ exists p; split; [left; reflexivity |];
          eexists; split; [exact E | discriminate]
        | rewrite (open_all_step_break pil total p rest idx images _ E)
            by discriminate; eexists; reflexivity ].
Qed.


Lemma decoded_pages_one_each (pil : pillow)
  (image_paths : list pathlib.PurePath) :
  Forall2 (fun img_path pg => to_page pil img_path = Ok pg)
          (filter (decodes pil) image_paths) (decoded_pages pil image_paths).
Proof.
  induction image_paths as [| p rest IH]; simpl; [constructor |].
  unfold decodes at 1. unfold decoded_pages. simpl.
  destruct (to_page pil p) as [pg | e] eqn:E; simpl.
  - constructor; [exact E | exact IH].
  - exact IH.
Qed.


Lemma decoded_pages_some (pil : pillow) (image_paths : list pathlib.PurePath)
  (p : pathlib.PurePath) (pg : page) :
  In p image_paths -> to_page pil p = Ok pg ->
  decoded_pages pil image_paths <> [].
Proof.
  intros Hin Hp. unfold decoded_pages. intros E.
  assert (Hpg : In pg (flat_map
    (fun img_path => match to_page pil img_path with
                     | Ok pg => [pg]
                     | Raise _ => []
                     end) image_paths)).
  { apply in_flat_map. exists p. rewrite Hp. simpl. auto. }
  rewrite E in Hpg. destruct Hpg.
Qed.

(** The runs of [convert_images_to_pdf] on a non-empty list. *)
Lemma convert_cases (pil : pillow) (image_paths : list pathlib.PurePath)
  (output_pdf : pathlib.PurePath) :
  image_paths <> [] ->
  let n := List.length image_paths in
  let composed := open_all pil n image_paths 1 [] in
  let run := convert_images_to_pdf pil image_paths output_pdf in
  (exists e,
      snd composed = Raise e
      /\ run = (Print (ConvertingImages n) :: fst composed
                ++ [Print (ErrorCreatingPdf e)], Ok false))
  \/ (snd composed = Ok []
      /\ run = (Print (ConvertingImages n) :: fst composed
                ++ [Print ErrorNoValidImages], Ok false))
  \/ (exists pages,
         pages <> [] /\ snd composed = Ok pages
         /\ ((save pil pages output_pdf = Written
              /\ run = (Print (ConvertingImages n) :: fst composed
                        ++ [Print (SavingPdf (List.length pages));
                            Write output_pdf (Document pages);
                            Print (SuccessfullyCreated
                                     (pathlib.name output_pdf));
                            Print (PagesLine (List.length pages))],
                        Ok true))
             \/ (exists e,
                    save pil pages output_pdf = Failed e true
                    /\ run = (Print (ConvertingImages n) :: fst composed
                              ++ [Print (SavingPdf (List.length pages));
                                  Write output_pdf Partial;
                                  Print (ErrorCreatingPdf e)],
                              Ok false))
             \/ (exists e,
                    save pil pages output_pdf = Failed e false
                    /\ run = (Print (ConvertingImages n) :: fst composed
                              ++ [Print (SavingPdf (List.length pages));
                                  Print (ErrorCreatingPdf e)],
                              Ok false)))).
Proof.
  intros Hne n composed run. subst run.
  unfold convert_images_to_pdf.
  destruct image_paths as [| p0 ps]; [congruence |].
  fold n. fold composed.
  destruct composed as [t [[| pg pgs] | e]]; simpl fst; simpl snd.
  - right; left. split; [reflexivity |].
    unfold try_except, io_bind, print, ret. simpl.
    rewrite <- ?app_assoc, ?app_nil_r. reflexivity.
  - right; right. exists (pg :: pgs).
    split; [discriminate |]. split; [reflexivity |].
    unfold try_except, io_bind, print, ret, library_write, write, throw.
    destruct (save pil (pg :: pgs) output_pdf) as [| e [|]]; simpl.
    + left. split; [reflexivity |].
      rewrite <- ?app_assoc, ?app_nil_r. reflexivity.
    + right; left. exists e. split; [reflexivity |].
      rewrite <- ?app_assoc, ?app_nil_r. reflexivity.
    + right; right. exists e. split; [reflexivity |].
      rewrite <- ?app_assoc, ?app_nil_r. reflexivity.
  - left. exists e. split; [reflexivity |].
    unfold try_except, io_bind, print, ret. simpl.
    rewrite <- ?app_assoc, ?app_nil_r. reflexivity.
Qed.

Lemma writes_composed (pil : pillow) (n : nat)
  (image_paths : list pathlib.PurePath) (m : message) (after : list event) :
  writes (Print m :: fst (open_all pil n image_paths 1 []) ++ after)
  = writes after.
Proof.
  simpl. now rewrite writes_app, open_all_no_write.
Qed.

(** The same runs, told by what decodes and what the library does. *)
Lemma convert_outcomes (pil : pillow) (image_paths : list pathlib.PurePath)
  (output_pdf : pathlib.PurePath) :
  image_paths <> [] ->
  let n := List.length image_paths in
  let composed := fst (open_all pil n image_paths 1 []) in
  let pages := decoded_pages pil image_paths in
  let run := convert_images_to_pdf pil image_paths output_pdf in
  ((exists p, In p image_paths /\ breaks_composition pil p)
   /\ exists e, run = (Print (ConvertingImages n) :: composed
                       ++ [Print (ErrorCreatingPdf e)], Ok false))
  \/ ((forall p, In p image_paths -> ~ breaks_composition pil p)
      /\ ((pages = []
           /\ run = (Print (ConvertingImages n) :: composed
                     ++ [Print ErrorNoValidImages], Ok false))
          \/ (pages <> []
              /\ ((save pil pages output_pdf = Written
                   /\ run = (Print (ConvertingImages n) :: composed
                             ++ [Print (SavingPdf (List.length pages));
                                 Write output_pdf (Document pages);
                                 Print (SuccessfullyCreated
                                          (pathlib.name output_pdf));
                                 Print (PagesLine (List.length pages))],
                             Ok true))
                  \/ (exists e,
                         save pil pages output_pdf = Failed e true
                         /\ run = (Print (ConvertingImages n) :: composed
                                   ++ [Print (SavingPdf (List.length pages));
                                       Write output_pdf Partial;
                                       Print (ErrorCreatingPdf e)],
                                   Ok false))
                  \/ (exists e,
                         save pil pages output_pdf = Failed e false
                         /\ run = (Print (ConvertingImages n) :: composed
                                   ++ [Print (SavingPdf (List.length pages));
                                       Print (ErrorCreatingPdf e)],
                                   Ok false)))))).
Proof.
  intros Hne n composed pages run.
  pose proof (convert_cases pil image_paths output_pdf Hne) as Hc.
  pose proof (open_all_result pil n image_paths 1 []) as Hr.
  fold n in Hc. simpl in Hc, Hr. fold run in Hc. fold composed in Hc.
  fold pages in Hr.
  destruct Hr as [[Hb [e He]] | [Hnb Hok]].
  - left. split; [exact Hb |].
    destruct Hc as [(e' & _ & Hrun) | [[Hc _] | (pg & _ & Hc & _)]];
      [eauto | congruence | congruence].
  - right. split; [exact Hnb |].
    destruct Hc as [(e' & Hc & _) | [[Hc Hrun] | (pg & Hpg & Hc & Hrun)]].
    + congruence.
    + left. split; [congruence | exact Hrun].
    + right. assert (pg = pages) by congruence. subst pg.
      split; [exact Hpg | exact Hrun].
Qed.







(** Claim C6, as the code has it.  The function never raises; it hands the
    pages to the library in one [save] call, made after the whole list
    has been gone through, and it returns [True] exactly when that call
    wrote the complete document.  An error before the call (an image
    raising something else than the decode error, or no image decoding)
    and a [save] that fails without touching the destination leave
    nothing written.  There is no clean-up: what a failing [save] left at
    the destination stays. *)
Theorem conversion_failure_and_destination (pil : pillow)
  (image_paths : list pathlib.PurePath) (output_pdf : pathlib.PurePath) :
  let run := convert_images_to_pdf pil image_paths output_pdf in
  let pages := decoded_pages pil image_paths in
  (snd run = Ok true \/ snd run = Ok false)
  /\ (writes (fst run) = []
      \/ exists c after,
           fst run
           = Print (ConvertingImages (List.length image_paths))
             :: fst (open_all pil (List.length image_paths) image_paths 1 [])
             ++ Print (SavingPdf (List.length pages))
             :: Write output_pdf c :: after
           /\ writes after = [])
  /\ (snd run = Ok true <-> writes (fst run) = [(output_pdf, Document pages)])
  /\ (snd run = Ok false ->
      writes (fst run) = []
      \/ (writes (fst run) = [(output_pdf, Partial)]
          /\ exists e, save pil pages output_pdf = Failed e true))
  /\ ((exists p, In p image_paths /\ breaks_composition pil p)
      \/ pages = []
      \/ (exists e, save pil pages output_pdf = Failed e false) ->
      snd run = Ok false /\ writes (fst run) = [])
  /\ ((forall p, In p image_paths -> ~ breaks_composition pil p) ->
      pages <> [] ->
      (exists e, save pil pages output_pdf = Failed e true) ->
      snd run = Ok false /\ writes (fst run) = [(output_pdf, Partial)]).
Proof.
  intros run pages.
  assert (Easy : forall (t : list event),
    writes t = [] ->
    (Ok false = Ok true \/ Ok false = Ok false :> result bool)
    /\ (writes t = []
        \/ exists c after,
             t = Print (ConvertingImages (List.length image_paths))
                 :: fst (open_all pil (List.length image_paths)
                           image_paths 1 [])
                 ++ Print (SavingPdf (List.length pages))
                 :: Write output_pdf c :: after
             /\ writes after = [])
    /\ (Ok false = Ok true :> result bool
        <-> writes t = [(output_pdf, Document pages)])
    /\ (Ok false = Ok false :> result bool ->
        writes t = []
        \/ (writes t = [(output_pdf, Partial)]
            /\ exists e, save pil pages output_pdf = Failed e true))
    /\ ((exists p, In p image_paths /\ breaks_composition pil p)
        \/ pages = []
        \/ (exists e, save pil pages output_pdf = Failed e false) ->
        Ok false = Ok false :> result bool /\ writes t = [])).
  { intros t Ht. rewrite Ht. repeat split; auto; discriminate. }
  destruct image_paths as [| p0 ps].
  { subst run pages. cbn [convert_images_to_pdf ret fst snd].
    destruct (Easy [] eq_refl) as (E1 & E2 & E3 & E4 & E5).
    repeat (split; [assumption |]). intros _ H. now elim H. }
  assert (Hne : p0 :: ps <> []) by discriminate.
  pose proof (convert_outcomes pil (p0 :: ps) output_pdf Hne) as Hc.
  cbv zeta in Hc. fold run in Hc. fold pages in Hc.
  destruct Hc as [[Hb [e Hrun]] | [Hnb [[Hnone Hrun] | [Hsome [[Hs Hrun] |
    [(e & Hs & Hrun) | (e & Hs & Hrun)]]]]]];
    rewrite Hrun; cbn [fst snd].
  - match goal with |- context [writes ?t] =>
      destruct (Easy t) as (E1 & E2 & E3 & E4 & E5);
        [now rewrite writes_composed |]
    end.
    repeat (split; [assumption |]).
    destruct Hb as (p & Hp & Hbr). intros Hnb. elim (Hnb p Hp Hbr).
  - match goal with |- context [writes ?t] =>
      destruct (Easy t) as (E1 & E2 & E3 & E4 & E5);
        [now rewrite writes_composed |]
    end.
    repeat (split; [assumption |]). intros _ H. now elim H.
  - rewrite writes_composed. cbn [writes].
    split; [auto |]. split.
    { right. exists (Document pages). eexists. split; [reflexivity |].
      reflexivity. }
    split; [tauto |]. split; [discriminate |]. split.
    + intros [(p & Hp & Hbr) | [Hn | [e He]]].
      * elim (Hnb p Hp Hbr).
      * congruence.
      * congruence.
    + intros _ _ [e He]. congruence.
  - rewrite writes_composed. cbn [writes].
    split; [auto |]. split.
    { right. exists Partial. eexists. split; [reflexivity |]. reflexivity. }
    split; [split; discriminate |]. split; [eauto |]. split.
    + intros [(p & Hp & Hbr) | [Hn | [e' He]]].
      * elim (Hnb p Hp Hbr).
      * congruence.
      * congruence.
    + auto.
  - match goal with |- context [writes ?t] =>
      destruct (Easy t) as (E1 & E2 & E3 & E4 & E5);
        [now rewrite writes_composed |]
    end.
    repeat (split; [assumption |]). intros _ _ [e' He]. congruence.
Qed.



Lemma conversion_failure_and_destination_witness :
  snd (convert_images_to_pdf (sample_pillow "" (Failed OSError false))
         [pathlib.Path "image.jpg"] (pathlib.Path "subdir")) = Ok false
  /\ writes (fst (convert_images_to_pdf
                    (sample_pillow "" (Failed OSError false))
                    [pathlib.Path "image.jpg"] (pathlib.Path "subdir")))
     = [].
Proof.
  destruct (conversion_failure_and_destination
              (sample_pillow "" (Failed OSError false))
              [pathlib.Path "image.jpg"] (pathlib.Path "subdir"))
    as (_ & _ & _ & _ & H & _).
  apply H. right. right. exists OSError. reflexivity.
Defined.

(** Claim C6 as stated fails: when the library's [save] raises after it
    has begun to write, the function returns [False] and what was written
    stays at the destination. *)
Lemma failed_save_leaves_partial_output :
  snd (convert_images_to_pdf (sample_pillow "" (Failed OSError true))
         [pathlib.Path "a.jpg"] (pathlib.Path "out.pdf")) = Ok false
  /\ writes (fst (convert_images_to_pdf
                    (sample_pillow "" (Failed OSError true))
                    [pathlib.Path "a.jpg"] (pathlib.Path "out.pdf")))
     = [(pathlib.Path "out.pdf", Partial)]
  /\ ~ (snd (convert_images_to_pdf (sample_pillow "" (Failed OSError true))
               [pathlib.Path "a.jpg"] (pathlib.Path "out.pdf")) = Ok false ->
        writes (fst (convert_images_to_pdf
                       (sample_pillow "" (Failed OSError true))
                       [pathlib.Path "a.jpg"] (pathlib.Path "out.pdf")))
        = []).
Proof.
  split; [reflexivity |]. split; [reflexivity |].
  intros H. specialize (H eq_refl). discriminate.
Qed.

(** * Further properties *)

(** ** More on the sort *)

Lemma insert_by_last {A : Type} (ltb : A -> A -> bool) (x : A) (l : list A) :
  Forall (fun y => ltb x y = false) l -> insert_by ltb x l = l ++ [x].
Proof.
  induction 1 as [| y l Hy Hl IH]; simpl; [reflexivity |].
  now rewrite Hy, IH.
Qed.

Lemma insert_all_sorted_id {A : Type} (ltb : A -> A -> bool) (l acc : list A) :
  StronglySorted (fun x y => ltb y x = false) (acc ++ l) ->
  fold_left (fun sorted x => insert_by ltb x sorted) l acc = acc ++ l.
Proof.
  revert acc; induction l as [| x l IH]; intros acc H; simpl.
  - now rewrite app_nil_r.
  - assert (Hx : Forall (fun y => ltb x y = false) acc).
    { clear IH. induction acc as [| y acc IHacc]; [constructor |].
      simpl in H. inversion H as [| ? ? Hs Hy]; subst.
      constructor.
      - rewrite Forall_forall in Hy. apply Hy, in_or_app. right. now left.
      - apply IHacc, Hs. }
    rewrite (insert_by_last ltb x acc Hx).
    rewrite IH; rewrite <- app_assoc; [reflexivity | exact H].
Qed.

Lemma sort_by_sorted_id {A : Type} (ltb : A -> A -> bool) (l : list A) :
  StronglySorted (fun x y => ltb y x = false) l -> sort_by ltb l = l.
Proof.
  intros H. apply (insert_all_sorted_id ltb l [] H).
Qed.

Lemma sort_by_idempotent {A : Type} (ltb : A -> A -> bool)
  `{!WeakOrder ltb} (l : list A) :
  sort_by ltb (sort_by ltb l) = sort_by ltb l.
Proof.
  apply sort_by_sorted_id, sort_by_sorted. assumption.
Qed.

Lemma filter_all_true {A : Type} (f : A -> bool) (l : list A) :
  Forall (fun x => f x = true) l -> filter f l = l.
Proof.
  induction 1 as [| x l Hx Hl IH]; simpl; [reflexivity |].
  now rewrite Hx, IH.
Qed.

Lemma filter_all_false {A : Type} (f : A -> bool) (l : list A) :
  Forall (fun x => f x = false) l -> filter f l = [].
Proof.
  induction 1 as [| x l Hx Hl IH]; simpl; [reflexivity |].
  now rewrite Hx.
Qed.

Lemma sorted_groups_filter {A : Type} (ltb : A -> A -> bool) (f : A -> bool)
  (l : list A) :
  let p := sort_by ltb (filter f l) in
  let n := sort_by ltb (filter (fun x => negb (f x)) l) in
  filter f (p ++ n) = p /\ filter (fun x => negb (f x)) (p ++ n) = n.
Proof.
  intros p n.
  assert (Hp : Forall (fun x => f x = true) p).
  { rewrite Forall_forall. intros x Hx.
    apply sort_by_filter_in in Hx. tauto. }
  assert (Hn : Forall (fun x => f x = false) n).
  { rewrite Forall_forall. intros x Hx.
    apply sort_by_filter_in in Hx. destruct Hx as [_ Hx].
    now apply negb_true_iff in Hx. }
  rewrite !filter_app. split.
  - rewrite (filter_all_true f p Hp), (filter_all_false f n Hn).
    apply app_nil_r.
  - rewrite (filter_all_false (fun x => negb (f x)) p),
      (filter_all_true (fun x => negb (f x)) n); [reflexivity | |].
    + eapply Forall_impl; [| exact Hn]. intros x Hx. simpl. now rewrite Hx.
    + eapply Forall_impl; [| exact Hp]. intros x Hx. simpl. now rewrite Hx.
Qed.

(** Property X1.
    Sorting a list that [sort_images] returned, with the same options,
    gives the same list back. *)
Theorem sort_images_idempotent (image_files out : list string)
  (use_natural_sort : bool) (priority_chars : string) :
  sort_images image_files use_natural_sort priority_chars = Ok out ->
  sort_images out use_natural_sort priority_chars = Ok out.
Proof.
  intros H.
  pose proof (sort_images_permutation _ _ _ _ H) as Hperm.
  destruct use_natural_sort.
  - apply sort_images_natural_ok in H as [Hkeys ->].
    rewrite sort_images_natural_total.
    + destruct (sorted_groups_filter natural_ltb (priority_of priority_chars)
                  image_files) as [-> ->].
      now rewrite !(sort_by_idempotent natural_ltb).
    + rewrite Forall_forall in *. intros x Hx. apply Hkeys.
      eapply Permutation_in; [symmetry; exact Hperm | exact Hx].
  - rewrite sort_images_lexical in H. injection H as <-.
    rewrite sort_images_lexical.
    destruct (sorted_groups_filter name_ltb (priority_of priority_chars)
                image_files) as [-> ->].
    now rewrite !(sort_by_idempotent name_ltb).
Qed.

Lemma sort_images_idempotent_witness :
  sort_images ["!cover.jpg"; "page_2.jpg"; "page_10.jpg"] true "!"
  = Ok ["!cover.jpg"; "page_2.jpg"; "page_10.jpg"].
Proof.
  apply (sort_images_idempotent ["page_10.jpg"; "!cover.jpg"; "page_2.jpg"]).
  reflexivity.
Defined.


(** ** When the natural key exists *)

Lemma int_from_some_iff (s : string) (acc : Z) :
  (exists n, Py.int_from acc s = Some n) <-> Py.all_chars Py.re_digit s = true.
Proof.
  revert acc; induction s as [| c s IH]; intros acc; simpl.
  - split; eauto.
  - destruct (Py.re_digit c); simpl; [apply IH |].
    split; [intros [n H]; discriminate | discriminate].
Qed.

Lemma int_returns_iff (s : string) :
  (exists n, Py.int s = Ok n) <->
  s <> "" /\ Py.all_chars Py.re_digit s = true
  /\ String.length s <= Py.int_max_str_digits.
Proof.
  split.
  - intros [n H]. unfold Py.int in H.
    destruct (Nat.ltb_spec Py.int_max_str_digits (Py.leading_digits s))
      as [Hl | Hl]; [discriminate |].
    destruct s as [| c s]; [discriminate |].
    destruct (Py.int_from 0 (String c s)) as [m |] eqn:E; [| discriminate].
    assert (Hall : Py.all_chars Py.re_digit (String c s) = true)
      by (apply (int_from_some_iff _ 0); eauto).
    rewrite (leading_digits_all _ Hall) in Hl.
    repeat split; [discriminate | exact Hall | exact Hl].
  - intros (Hne & Hall & Hlen).
    apply int_digit_run_short; [split |]; assumption.
Qed.

Lemma convert_returns_iff (chunk : string) :
  (exists seg, convert chunk = Ok seg) <->
  (Py.isdigit chunk = true ->
   Py.all_chars Py.re_digit chunk = true
   /\ String.length chunk <= Py.int_max_str_digits).
Proof.
  unfold convert. destruct (Py.isdigit chunk) eqn:Hd.
  - split.
    + intros [seg H] _. apply bind_ok_inv in H as (n & Hn & _).
      apply (proj1 (int_returns_iff chunk)). eauto.
    + intros H. destruct (H eq_refl) as [Hall Hlen].
      destruct (proj2 (int_returns_iff chunk)) as [n ->]; [| simpl; eauto].
      repeat split; [| assumption | assumption].
      intros ->. discriminate.
  - split; [discriminate | eauto].
Qed.

Lemma convert_all_returns_iff (chunks : list string) :
  (exists k, convert_all chunks = Ok k) <->
  Forall (fun chunk => exists seg, convert chunk = Ok seg) chunks.
Proof.
  induction chunks as [| c l IH]; simpl.
  - split; [constructor | eauto].
  - split.
    + intros [k H]. inv_bind H. inv_bind H.
      constructor; [eauto | apply IH; eauto].
    + intros H. inversion H as [| ? ? [seg Hc] Hl]; subst.
      apply IH in Hl as [k Hk]. rewrite Hc, Hk. simpl. eauto.
Qed.

Lemma all_chars_split (p : ascii -> bool) (text : string) :
  Py.all_chars p text = true ->
  Forall (fun chunk => Py.all_chars p chunk = true) (Py.re_split_digits text).
Proof.
  induction text as [| c rest IH]; simpl; intros H.
  - repeat constructor.
  - apply andb_true_iff in H as [Hc Hrest]. specialize (IH Hrest).
    destruct (Py.re_digit c).
    + destruct (Py.re_split_digits rest) as [| [| c' t] [| d more]];
        inversion IH as [| ? ? H1 H2]; subst;
        try (inversion H2 as [| ? ? H3 H4]; subst);
        repeat constructor; simpl; rewrite ?Hc; auto.
    + destruct (Py.re_split_digits rest) as [| t more];
        [repeat constructor; simpl; now rewrite Hc |].
      inversion IH; subst.
      constructor; [simpl; now rewrite Hc, H1 | assumption].
Qed.

Lemma plain_digits (chunk : string) :
  plain chunk = true -> Py.isdigit chunk = true ->
  Py.all_chars Py.re_digit chunk = true.
Proof.
  unfold plain, Py.isdigit. destruct chunk as [| c chunk]; [discriminate |].
  generalize (String c chunk). clear. intros s.
  induction s as [| c s IH]; simpl; [reflexivity |].
  rewrite !andb_true_iff. intros [Hp Hs] [Hd Hds].
  split; [| apply IH; assumption].
  unfold superscript_digit in Hp. rewrite Hd in Hp. simpl in Hp.
  now apply negb_true_iff, negb_false_iff in Hp.
Qed.

Lemma natural_sort_key_iff_chunks (text : string) :
  (exists k, natural_sort_key text = Ok k) <->
  (forall chunk, In chunk (Py.re_split_digits text) ->
                 Py.isdigit chunk = true ->
                 Py.all_chars Py.re_digit chunk = true
                 /\ String.length chunk <= Py.int_max_str_digits).
Proof.
  unfold natural_sort_key. rewrite convert_all_returns_iff, Forall_forall.
  split; intros H chunk Hin; apply convert_returns_iff; auto.
Qed.

Lemma length_append (s t : string) :
  String.length (s ++ t) = String.length s + String.length t.
Proof.
  induction s as [| c s IH]; simpl; [reflexivity | now rewrite IH].
Qed.

Lemma chunk_length (text chunk : string) :
  In chunk (Py.re_split_digits text) ->
  String.length chunk <= String.length text.
Proof.
  rewrite <- (re_split_digits_concat text) at 2.
  induction (Py.re_split_digits text) as [| x l IH]; [intros [] |].
  rewrite concat_empty_cons, length_append.
  intros [<- | H]; [lia | specialize (IH H); lia].
Qed.

Lemma plain_has_key (text : string) :
  plain text = true -> String.length text <= Py.int_max_str_digits ->
  exists k, natural_sort_key text = Ok k.
Proof.
  intros Hp Hlen. apply natural_sort_key_iff_chunks. intros chunk Hin Hd.
  split.
  - apply plain_digits; [| exact Hd].
    pose proof (all_chars_split _ text Hp) as Hall.
    rewrite Forall_forall in Hall. apply Hall, Hin.
  - pose proof (chunk_length text chunk Hin). lia.
Qed.

Lemma natural_sort_key_raise (text : string) (e : exn) :
  natural_sort_key text = Raise e ->
  exists chunk, In chunk (Py.re_split_digits text)
                /\ Py.isdigit chunk = true /\ Py.int chunk = Raise e.
Proof.
  unfold natural_sort_key.
  induction (Py.re_split_digits text) as [| chunk l IH]; simpl;
    [discriminate |].
  intros H. apply bind_raise_inv in H as [H | (seg & _ & H)].
  - exists chunk. split; [now left |].
    unfold convert in H. destruct (Py.isdigit chunk); [| discriminate].
    apply bind_raise_inv in H as [H | (n & _ & H)]; [| discriminate].
    auto.
  - apply bind_raise_inv in H as [H | (segs & _ & H)]; [| discriminate].
    destruct (IH H) as (c & Hc & He).
    exists c. split; [now right | exact He].
Qed.

(** Property X2.
    [natural_sort_key] returns a key exactly when every chunk of the
    split that [str.isdigit] accepts is a run of decimal digits, the
    digits of [\d], of at most [int_max_str_digits] digits.  So it
    returns for every text of at most that many characters in which no
    character is accepted by [str.isdigit] and refused by [\d].  What it
    raises otherwise is the [ValueError] that [int] raises on such a
    chunk. *)
Theorem natural_sort_key_returns_iff (text : string) :
  ((exists k, natural_sort_key text = Ok k) <->
   (forall chunk, In chunk (Py.re_split_digits text) ->
                  Py.isdigit chunk = true ->
                  Py.all_chars Py.re_digit chunk = true
                  /\ String.length chunk <= Py.int_max_str_digits))
  /\ (plain text = true ->
      String.length text <= Py.int_max_str_digits ->
      exists k, natural_sort_key text = Ok k)
  /\ (forall e, natural_sort_key text = Raise e ->
                (exists why, e = ValueError why)
                /\ exists chunk, In chunk (Py.re_split_digits text)
                                 /\ Py.isdigit chunk = true
                                 /\ Py.int chunk = Raise e).
Proof.
  split; [apply natural_sort_key_iff_chunks |].
  split; [apply plain_has_key |].
  intros e H. destruct (natural_sort_key_raise text e H) as (c & Hc & Hd & He).
  split; [exact (int_raise c e He) | eauto].
Qed.

Lemma natural_sort_key_returns_iff_witness :
  exists k, natural_sort_key "IMG_0010 (2).jpeg" = Ok k.
Proof.
  apply (proj1 (proj2 (natural_sort_key_returns_iff "IMG_0010 (2).jpeg"))).
  - reflexivity.
  - apply Nat.leb_le. vm_compute. reflexivity.
Defined.


(** ** What [sort_images] returns *)

(** Property X3.
    Whenever [sort_images] returns, the list it returns is a
    rearrangement of its input.  It returns for every input when
    natural sort is off, and with natural sort on whenever every
    basename has at most [int_max_str_digits] characters, none of them
    accepted by [str.isdigit] and refused by [\d]. *)
Theorem sort_images_returns_rearrangement :
  (forall image_files use_natural_sort priority_chars out,
      sort_images image_files use_natural_sort priority_chars = Ok out ->
      Permutation image_files out
      /\ List.length out = List.length image_files)
  /\ (forall image_files priority_chars,
         exists out, sort_images image_files false priority_chars = Ok out)
  /\ (forall image_files priority_chars,
         Forall (fun img =>
                   plain (basename img) = true
                   /\ String.length (basename img) <= Py.int_max_str_digits)
                image_files ->
         exists out, sort_images image_files true priority_chars = Ok out).
Proof.
  split; [| split].
  - intros l b pc out H. pose proof (sort_images_permutation _ _ _ _ H) as P.
    split; [exact P | symmetry; apply Permutation_length, P].
  - intros l pc. rewrite sort_images_lexical. eauto.
  - intros l pc H. rewrite sort_images_natural_total; [eauto |].
    eapply Forall_impl; [| exact H].
    intros x [Hx Hlen]. apply (plain_has_key _ Hx Hlen).
Qed.

Lemma sort_images_returns_rearrangement_witness :
  Permutation ["b/page_10.jpg"; "!z.png"; "a/page_9.jpg"]
              ["!z.png"; "a/page_9.jpg"; "b/page_10.jpg"]
  /\ exists out,
       sort_images ["b/page_10.jpg"; "!z.png"; "a/page_9.jpg"] true "!"
       = Ok out.
Proof.
  destruct sort_images_returns_rearrangement as (H1 & _ & H3). split.
  - apply (H1 ["b/page_10.jpg"; "!z.png"; "a/page_9.jpg"] true "!").
    reflexivity.
  - apply H3.
    repeat (constructor;
            [split; [reflexivity | apply Nat.leb_le; vm_compute; reflexivity]
            |]).
    constructor.
Defined.

(** Property X4.
    Inside a priority group the returned list goes up: a file never
    stands after one with a larger key, the key being the natural key of
    the basename, or the basename itself when natural sort is off. *)
Theorem sort_images_groups_in_key_order (image_files out : list string)
  (use_natural_sort : bool) (priority_chars : string) (i j : nat)
  (x y : string) :
  sort_images image_files use_natural_sort priority_chars = Ok out ->
  i < j -> nth_error out i = Some x -> nth_error out j = Some y ->
  is_priority priority_chars (basename x)
  = is_priority priority_chars (basename y) ->
  if use_natural_sort
  then exists kx ky, natural_sort_key (basename x) = Ok kx
                     /\ natural_sort_key (basename y) = Ok ky
                     /\ key_lt ky kx = Ok false
  else String.ltb (basename y) (basename x) = false.
Proof.
  apply sort_images_group_order.
Qed.

Lemma sort_images_groups_in_key_order_witness :
  exists kx ky, natural_sort_key (basename "a/page_9.jpg") = Ok kx
                /\ natural_sort_key (basename "b/page_10.jpg") = Ok ky
                /\ key_lt ky kx = Ok false.
Proof.
  apply (sort_images_groups_in_key_order
           ["b/page_10.jpg"; "!z.png"; "a/page_9.jpg"]
           ["!z.png"; "a/page_9.jpg"; "b/page_10.jpg"] true "!" 1 2);
    try reflexivity. lia.
Defined.


(** ** Zero padding *)

Lemma convert_all_replace (a b : list string) (x y : string) :
  convert x = convert y ->
  convert_all (a ++ x :: b) = convert_all (a ++ y :: b).
Proof.
  intros H. induction a as [| c a IH]; simpl; [now rewrite H |].
  now rewrite IH.
Qed.

Lemma convert_leading_zero (d : string) :
  digit_run d -> S (String.length d) <= Py.int_max_str_digits ->
  convert (String "0" d) = convert d.
Proof.
  intros Hd Hlen.
  assert (Hd0 : digit_run (String "0" d)).
  { destruct Hd as [Hne Hall]. split; [discriminate |]. simpl. exact Hall. }
  rewrite (convert_digit_run _ Hd), (convert_digit_run _ Hd0).
  destruct (int_digit_run d Hd) as (n & Hn & ->).
  destruct (int_digit_run _ Hd0) as (n0 & Hn0 & ->).
  change (Py.int_from 0 (String "0" d)) with (Py.int_from 0 d) in Hn0.
  assert (n0 = n) by congruence. subst n0.
  change (String.length (String "0" d)) with (S (String.length d)).
  destruct (Nat.ltb_spec Py.int_max_str_digits (S (String.length d)));
    [lia |].
  destruct (Nat.ltb_spec Py.int_max_str_digits (String.length d)); [lia |].
  reflexivity.
Qed.

(** Property X5.
    A zero put in front of a digit run does not change the key, as long
    as the longer run stays within [int_max_str_digits] digits: the run
    counts by its value. *)
Theorem leading_zero_keeps_the_key (p d s : string) :
  ends_with_digit p = false -> digit_run d -> starts_with_digit s = false ->
  S (String.length d) <= Py.int_max_str_digits ->
  natural_sort_key (p ++ String "0" d ++ s) = natural_sort_key (p ++ d ++ s).
Proof.
  intros Hp Hd Hs Hlen.
  assert (Hd0 : digit_run (String "0" d)).
  { destruct Hd as [Hne Hall]. split; [discriminate |]. simpl. exact Hall. }
  unfold natural_sort_key.
  rewrite (split_around_run p (String "0" d) s Hp Hd0 Hs).
  rewrite (split_around_run p d s Hp Hd Hs).
  apply convert_all_replace, convert_leading_zero; assumption.
Qed.

Lemma leading_zero_keeps_the_key_witness :
  natural_sort_key ("page_" ++ String "0" "10" ++ ".jpg")
  = natural_sort_key ("page_" ++ "10" ++ ".jpg").
Proof.
  apply leading_zero_keeps_the_key;
    [reflexivity | split; [discriminate | reflexivity] | reflexivity
    | apply Nat.leb_le; vm_compute; reflexivity].
Defined.

(** ** [is_image_file] *)

Lemma split_slash_nonempty (s : string) : Py.split_slash s <> [].
Proof.
  destruct s as [| c s]; simpl; [discriminate |].
  destruct (Ascii.eqb c "/"); [discriminate |].
  destruct (Py.split_slash s); discriminate.
Qed.

Lemma split_slash_no_slash (n : string) :
  no_slash n = true -> Py.split_slash n = [n].
Proof.
  unfold no_slash. induction n as [| c n IH]; simpl; [reflexivity |].
  rewrite andb_true_iff, negb_true_iff. intros [Hc Hn].
  now rewrite Hc, (IH Hn).
Qed.

Lemma split_slash_app (a b : string) :
  Py.split_slash (a ++ String "/" b) = Py.split_slash a ++ Py.split_slash b.
Proof.
  induction a as [| c a IH]; [reflexivity |].
  change (String c a ++ String "/" b)%string with (String c (a ++ String "/" b)).
  simpl. rewrite IH.
  destruct (Ascii.eqb c "/"); [reflexivity |].
  pose proof (split_slash_nonempty a) as Hne.
  destruct (Py.split_slash a); [congruence | reflexivity].
Qed.

Lemma last_snoc {A : Type} (l : list A) (x d : A) : last (l ++ [x]) d = x.
Proof.
  induction l as [| y l IH]; [reflexivity |].
  simpl. destruct (l ++ [x]) eqn:E; [destruct l; discriminate | exact IH].
Qed.

Lemma basename_in_directory (dir n : string) :
  no_slash n = true -> n <> "" -> n <> "." ->
  basename (dir ++ String "/" n) = n /\ basename n = n.
Proof.
  intros Hs Hne Hdot.
  assert (Hc : pathlib.is_component n = true).
  { unfold pathlib.is_component.
    destruct (String.eqb_spec n ""); [congruence |].
    destruct (String.eqb_spec n "."); [congruence | reflexivity]. }
  unfold basename, pathlib.name, pathlib.Path. simpl pathlib.parts. split.
  - rewrite split_slash_app, (split_slash_no_slash n Hs), filter_app.
    simpl. rewrite Hc. apply last_snoc.
  - rewrite (split_slash_no_slash n Hs). simpl. now rewrite Hc.
Qed.

Lemma rfind_dot_none (s : string) : no_dot s = true <-> Py.rfind_dot s = None.
Proof.
  unfold no_dot. induction s as [| c s IH]; simpl; [tauto |].
  rewrite andb_true_iff, negb_true_iff, IH.
  destruct (Py.rfind_dot s); destruct (Ascii.eqb c "."); split;
    try tauto; try discriminate; intros [? ?]; discriminate.
Qed.

Lemma rfind_dot_some (s : string) (i : nat) :
  Py.rfind_dot s = Some i <->
  exists e, s = (Py.take i s ++ String "." e)%string /\ no_dot e = true
            /\ String.length (Py.take i s) = i.
Proof.
  revert i; induction s as [| c s IH]; intros i; simpl.
  - split; [discriminate |]. intros (e & H & _).
    destruct i; discriminate.
  - destruct (Py.rfind_dot s) as [k |] eqn:E.
    + split.
      * intros H. injection H as <-.
        destruct (proj1 (IH k) eq_refl) as (e & He & Hn & Hl).
        exists e. simpl. rewrite Hl. split; [now rewrite <- He | auto].
      * intros (e & He & Hn & Hl). destruct i as [| i].
        -- simpl in He. injection He as -> ->.
           apply rfind_dot_none in Hn. congruence.
        -- simpl in He, Hl. injection He as He. injection Hl as Hl.
           f_equal. assert (Some k = Some i) as Hk; [| congruence].
           apply IH. eauto.
    + apply rfind_dot_none in E. destruct (Ascii.eqb_spec c ".") as [-> | Hc].
      * split.
        -- intros H. injection H as <-. exists s. simpl. auto.
        -- intros (e & He & Hn & Hl). destruct i as [| i]; [reflexivity |].
           simpl in He. injection He as He.
           exfalso. rewrite He in E. clear - E.
           induction (Py.take i s) as [| c t IHt]; simpl in E.
           ++ discriminate.
           ++ apply andb_true_iff in E as [_ E]. apply IHt, E.
      * split; [discriminate |].
        intros (e & He & Hn & Hl). destruct i as [| i].
        -- simpl in He. congruence.
        -- simpl in He. injection He as He.
           exfalso. rewrite He in E. clear - E. unfold no_dot in E.
           induction (Py.take i s) as [| c' t IHt]; simpl in E.
           ++ discriminate.
           ++ apply andb_true_iff in E as [_ E]. apply IHt, E.
Qed.


Lemma take_app_length (s t : string) : Py.take (String.length s) (s ++ t) = s.
Proof.
  induction s as [| c s IH]; simpl; [reflexivity | now rewrite IH].
Qed.

Lemma drop_app_length (s t : string) : Py.drop (String.length s) (s ++ t) = t.
Proof.
  induction s as [| c s IH]; simpl; [now destruct t | exact IH].
Qed.

Lemma suffix_of_name (n stem e : string) (p : pathlib.PurePath) :
  pathlib.name p = (stem ++ String "." e)%string ->
  stem <> "" -> e <> "" -> no_dot e = true ->
  pathlib.suffix p = String "." e.
Proof.
  intros Hn Hs He Hd. unfold pathlib.suffix. rewrite Hn.
  assert (Hr : Py.rfind_dot (stem ++ String "." e) = Some (String.length stem)).
  { apply rfind_dot_some. exists e. rewrite take_app_length. auto. }
  rewrite Hr, length_append. simpl String.length.
  assert (H0 : (0 <? String.length stem)%nat = true).
  { apply Nat.ltb_lt. destruct stem; [congruence | simpl; lia]. }
  assert (H1 : (String.length stem
                <? String.length stem + S (String.length e) - 1)%nat = true).
  { apply Nat.ltb_lt. destruct e; [congruence | simpl; lia]. }
  rewrite H0, H1. simpl. apply drop_app_length.
Qed.

Lemma suffix_shape (p : pathlib.PurePath) :
  pathlib.suffix p <> "" ->
  exists stem e, pathlib.name p = (stem ++ String "." e)%string
                 /\ stem <> "" /\ no_dot e = true
                 /\ pathlib.suffix p = String "." e.
Proof.
  unfold pathlib.suffix.
  destruct (Py.rfind_dot (pathlib.name p)) as [i |] eqn:E; [| congruence].
  destruct ((0 <? i) && (i <? String.length (pathlib.name p) - 1))%nat eqn:G;
    [| congruence].
  intros _. apply andb_true_iff in G as [G0 _]. apply Nat.ltb_lt in G0.
  apply rfind_dot_some in E as (e & He & Hn & Hl).
  exists (Py.take i (pathlib.name p)), e.
  split; [exact He |]. split.
  - intros H0. rewrite H0 in Hl. simpl in Hl. lia.
  - split; [exact Hn |].
    rewrite He at 1. rewrite <- Hl at 1. apply drop_app_length.
Qed.

Lemma in_extensions (s : string) :
  existsb (String.eqb s) IMAGE_EXTENSIONS = true <-> In s IMAGE_EXTENSIONS.
Proof.
  rewrite existsb_exists. split.
  - intros (x & Hx & E). apply String.eqb_eq in E. now subst.
  - intros H. exists s. split; [exact H | apply String.eqb_refl].
Qed.

(** Property X6.
    [is_image_file] holds exactly when the basename is a non-empty stem,
    a dot and an extension without a dot that, in lower case, is one of
    the seven of [IMAGE_EXTENSIONS]; a name that only starts with its
    dot, or ends with one, is no image file. *)
Theorem is_image_file_iff (filename : string) :
  is_image_file filename = true <->
  exists stem e, basename filename = (stem ++ String "." e)%string
                 /\ stem <> "" /\ no_dot e = true
                 /\ In (String "." (Py.lower e)) IMAGE_EXTENSIONS.
Proof.
  unfold is_image_file. rewrite in_extensions. split.
  - intros H.
    destruct (suffix_shape (pathlib.Path filename))
      as (stem & e & Hn & Hs & Hd & E).
    { intros E. rewrite E in H. simpl in H.
      repeat (destruct H as [H | H]; [discriminate |]). exact H. }
    exists stem, e. rewrite E in H. auto.
  - intros (stem & e & Hn & Hs & Hd & H).
    assert (He : e <> "").
    { intros ->. simpl in H.
      repeat (destruct H as [H | H]; [discriminate |]). exact H. }
    rewrite (suffix_of_name (basename filename) stem e _ Hn Hs He Hd).
    exact H.
Qed.

Lemma is_image_file_iff_witness : is_image_file "scans/page.01.JPG" = true.
Proof.
  apply (proj2 (is_image_file_iff "scans/page.01.JPG")).
  exists "page.01"%string, "JPG"%string.
  repeat split; [discriminate | vm_compute; auto].
Defined.

(** Property X7.
    The directory part plays no role: a file in any directory is an
    image file exactly when its name alone is. *)
Theorem is_image_file_ignores_directory (dir name : string) :
  no_slash name = true -> name <> "" -> name <> "." ->
  is_image_file (dir ++ String "/" name) = is_image_file name.
Proof.
  intros Hs Hne Hdot.
  destruct (basename_in_directory dir name Hs Hne Hdot) as [E1 E2].
  unfold is_image_file, pathlib.suffix.
  fold (basename (dir ++ String "/" name)). fold (basename name).
  now rewrite E1, E2.
Qed.

Lemma is_image_file_ignores_directory_witness :
  is_image_file ("/home/user/a.b/" ++ String "/" "IMG_001.JPeG")
  = is_image_file "IMG_001.JPeG".
Proof.
  apply is_image_file_ignores_directory;
    [reflexivity | discriminate | discriminate].
Defined.


(** ** The runs of [extract_images_from_zip] *)

Lemma second_pass_all_written (zip_ref : zipfile)
  (temp_dir : pathlib.PurePath) (total : nat) (todo : list ZipInfo)
  (idx : nat) (files : list string) :
  (forall info, In info todo -> extract zip_ref info temp_dir = Written) ->
  snd (second_pass zip_ref temp_dir total todo idx files)
  = Ok (files ++ map (fun info => pathlib.str (extracted_path temp_dir info))
                     todo)
  /\ writes (fst (second_pass zip_ref temp_dir total todo idx files))
     = map (fun info => (extracted_path temp_dir info, Member info)) todo.
Proof.
  revert idx files; induction todo as [| fi rest IH]; intros idx files H.
  - simpl. now rewrite app_nil_r.
  - simpl. rewrite (H fi (or_introl eq_refl)).
    unfold io_bind, print, library_write, write.
    destruct (IH (S idx)
                (files ++ [pathlib.str (pathlib.truediv temp_dir (filename fi))])
                (fun info Hin => H info (or_intror Hin))) as [Hr Hw].
    destruct (second_pass zip_ref temp_dir total rest (S idx) _) as [t r].
    simpl in *. rewrite Hr, Hw, <- app_assoc. split; reflexivity.
Qed.

Lemma second_pass_fails_at (zip_ref : zipfile)
  (temp_dir : pathlib.PurePath) (total : nat) (done : list ZipInfo)
  (fi : ZipInfo) (rest : list ZipInfo) (idx : nat) (files : list string)
  (e : exn) (touched : bool) :
  (forall info, In info done -> extract zip_ref info temp_dir = Written) ->
  extract zip_ref fi temp_dir = Failed e touched ->
  snd (second_pass zip_ref temp_dir total (done ++ fi :: rest) idx files)
  = Raise e
  /\ writes (fst (second_pass zip_ref temp_dir total (done ++ fi :: rest)
                    idx files))
     = map (fun info => (extracted_path temp_dir info, Member info)) done
       ++ (if touched then [(extracted_path temp_dir fi, Partial)] else []).
Proof.
  revert idx files; induction done as [| g done IH]; intros idx files H Hf.
  - simpl. rewrite Hf. unfold io_bind, print, library_write, write, throw.
    destruct touched; simpl; split; reflexivity.
  - simpl. rewrite (H g (or_introl eq_refl)).
    unfold io_bind, print, library_write, write.
    destruct (IH (S idx)
                (files ++ [pathlib.str (pathlib.truediv temp_dir (filename g))])
                (fun info Hin => H info (or_intror Hin)) Hf) as [Hr Hw].
    destruct (second_pass zip_ref temp_dir total (done ++ fi :: rest) (S idx) _)
      as [t r].
    simpl in *. rewrite Hr, Hw. split; reflexivity.
Qed.

Lemma extract_open_failure (zip_ref : zipfile)
  (zip_path temp_dir : pathlib.PurePath) (use_natural_sort : bool)
  (priority_chars : string) (e : exn) :
  ZipFile zip_ref zip_path = Raise e ->
  extract_images_from_zip zip_ref zip_path temp_dir use_natural_sort
    priority_chars
  = ([Print (reported zip_path e)], Ok []).
Proof.
  intros He. unfold extract_images_from_zip. rewrite He.
  destruct e; reflexivity.
Qed.

Lemma extract_returns (zip_ref : zipfile)
  (zip_path temp_dir : pathlib.PurePath) (use_natural_sort : bool)
  (priority_chars : string) :
  exists image_paths,
    snd (extract_images_from_zip zip_ref zip_path temp_dir use_natural_sort
           priority_chars) = Ok image_paths.
Proof.
  destruct (ZipFile zip_ref zip_path) as [filelist | e] eqn:Hopen.
  - rewrite (extract_run zip_ref zip_path temp_dir use_natural_sort
               priority_chars filelist Hopen).
    destruct (MAX_EXTRACTED_SIZE_BYTES
              <? declared_image_size (scanned filelist))%N;
      [eexists; reflexivity |].
    destruct (negb (named filelist)); [eexists; reflexivity |].
    destruct (MAX_FILES_IN_ZIP
              <? N.of_nat (List.length (filter qualifies filelist)))%N;
      [eexists; reflexivity |].
    destruct (List.length (filter qualifies filelist) =? 0)%nat;
      [eexists; reflexivity |].
    destruct (snd (second_pass zip_ref temp_dir _ _ 1 [])) as [files | e];
      [| eexists; reflexivity].
    destruct (sort_images files use_natural_sort priority_chars);
      eexists; reflexivity.
  - rewrite (extract_open_failure _ _ _ _ _ e Hopen). eexists; reflexivity.
Qed.


(** Property X8.
    [extract_images_from_zip] never raises: whatever the archive
    library does, the function returns a list.  When the archive does not
    open, the run is the one message of the handler for the exception
    (not a valid ZIP, a security error, or the general extraction error)
    and the empty list. *)
Theorem extraction_always_returns (zip_ref : zipfile)
  (zip_path temp_dir : pathlib.PurePath) (use_natural_sort : bool)
  (priority_chars : string) :
  (exists image_paths,
      snd (extract_images_from_zip zip_ref zip_path temp_dir use_natural_sort
             priority_chars) = Ok image_paths)
  /\ (forall e,
        ZipFile zip_ref zip_path = Raise e ->
        extract_images_from_zip zip_ref zip_path temp_dir use_natural_sort
          priority_chars
        = ([Print (reported zip_path e)], Ok [])).
Proof.
  split.
  - apply extract_returns.
  - intros e He. now apply extract_open_failure.
Qed.

Lemma extraction_always_returns_witness :
  extract_images_from_zip (mkZipfile (fun _ => Raise BadZipFile)
                                     (fun _ _ => Written))
    (pathlib.Path "in/book.zip") (pathlib.Path "/tmp/t") true "!"
  = ([Print (ErrorNotValidZip "book.zip")], Ok []).
Proof.
  apply (proj2 (extraction_always_returns
                  (mkZipfile (fun _ => Raise BadZipFile) (fun _ _ => Written))
                  (pathlib.Path "in/book.zip") (pathlib.Path "/tmp/t")
                  true "!") BadZipFile).
  reflexivity.
Defined.

(** The trace of a first pass that goes through the whole list. *)
Lemma first_pass_trace (filelist : list ZipInfo) (total : N)
  (infos : list ZipInfo) :
  named filelist = true ->
  (total + declared_image_size filelist <= MAX_EXTRACTED_SIZE_BYTES)%N ->
  fst (first_pass filelist total infos) = warnings_of filelist.
Proof.
  revert total infos; induction filelist as [| fi rest IH];
    intros total infos Hn H; [reflexivity |].
  apply named_cons in Hn as [Hfi Hn].
  rewrite declared_image_size_cons in H.
  rewrite first_pass_cons, Hfi. unfold warnings_of, refused, qualifies in *.
  cbn [filter].
  destruct (is_directory fi); cbn [negb andb] in *; [apply IH; [| lia]; auto |].
  destruct (suspicious fi); cbn [negb andb map] in *.
  - unfold io_bind, print. rewrite <- (IH total infos Hn ltac:(lia)).
    now destruct (first_pass rest total infos).
  - destruct (is_image_file (filename fi)); [| apply IH; [| lia]; auto].
    destruct (N.ltb_spec MAX_EXTRACTED_SIZE_BYTES (total + file_size fi));
      [lia |].
    apply IH; [auto | lia].
Qed.

(** The run on an archive that the first pass goes through. *)
Lemma extract_run_named (zip_ref : zipfile)
  (zip_path temp_dir : pathlib.PurePath) (use_natural_sort : bool)
  (priority_chars : string) (filelist : list ZipInfo) :
  ZipFile zip_ref zip_path = Ok filelist ->
  named filelist = true ->
  (declared_image_size filelist <= MAX_EXTRACTED_SIZE_BYTES)%N ->
  let infos := filter qualifies filelist in
  let second := second_pass zip_ref temp_dir (List.length infos) infos 1 [] in
  extract_images_from_zip zip_ref zip_path temp_dir use_natural_sort
    priority_chars
  = if (MAX_FILES_IN_ZIP <? N.of_nat (List.length infos))%N then
      (warnings_of filelist
       ++ [Print (SecurityError (TooManyFiles (List.length infos)))],
       Ok [])
    else if (List.length infos =? 0)%nat then
      (warnings_of filelist ++ [Print (WarnNoImages (pathlib.name zip_path))],
       Ok [])
    else
      match snd second with
      | Raise e =>
          (warnings_of filelist ++ fst second ++ [Print (reported zip_path e)],
           Ok [])
      | Ok files =>
          match sort_images files use_natural_sort priority_chars with
          | Ok sorted =>
              (warnings_of filelist ++ fst second,
               Ok (map pathlib.Path sorted))
          | Raise e =>
              (warnings_of filelist ++ fst second
               ++ [Print (reported zip_path e)], Ok [])
          end
      end.
Proof.
  intros Hopen Hn Hsize infos second.
  rewrite (extract_run _ _ _ _ _ _ Hopen). cbv zeta.
  rewrite (scanned_named _ Hn), Hn.
  destruct (N.ltb_spec MAX_EXTRACTED_SIZE_BYTES (declared_image_size filelist));
    [lia |].
  cbn [negb].
  rewrite (first_pass_trace filelist 0 [] Hn) by lia.
  reflexivity.
Qed.

Lemma warnings_of_no_write (filelist : list ZipInfo) :
  writes (warnings_of filelist) = [].
Proof.
  unfold warnings_of.
  induction (filter refused filelist) as [| fi l IH]; [reflexivity | exact IH].
Qed.

(** Property X9.
    An archive all of whose members have a name, with qualifying image
    members within the size limit but more than [MAX_FILES_IN_ZIP] of
    them, is refused: after the warnings on the refused paths the run
    ends with the security error that names the count, the result is
    the empty list, and no member is extracted. *)
Theorem too_many_files_is_refused (zip_ref : zipfile)
  (zip_path temp_dir : pathlib.PurePath) (use_natural_sort : bool)
  (priority_chars : string) (filelist : list ZipInfo) :
  ZipFile zip_ref zip_path = Ok filelist ->
  named filelist = true ->
  (declared_image_size filelist <= MAX_EXTRACTED_SIZE_BYTES)%N ->
  (MAX_FILES_IN_ZIP < N.of_nat (List.length (filter qualifies filelist)))%N ->
  extract_images_from_zip zip_ref zip_path temp_dir use_natural_sort
    priority_chars
  = (warnings_of filelist
     ++ [Print (SecurityError
                  (TooManyFiles (List.length (filter qualifies filelist))))],
     Ok [])
  /\ writes (fst (extract_images_from_zip zip_ref zip_path temp_dir
                    use_natural_sort priority_chars)) = [].
Proof.
  intros Hopen Hn Hsize Hcount.
  rewrite (extract_run_named _ _ _ _ _ _ Hopen Hn Hsize). cbv zeta.
  destruct (N.ltb_spec MAX_FILES_IN_ZIP
              (N.of_nat (List.length (filter qualifies filelist)))); [| lia].
  split; [reflexivity |].
  cbn [fst]. rewrite writes_app, warnings_of_no_write. reflexivity.
Qed.

Lemma too_many_files_is_refused_witness :
  extract_images_from_zip
    (sample_zipfile (repeat (mkZipInfo "p.png" 1) (N.to_nat 10001)))
    (pathlib.Path "book.zip") (pathlib.Path "/tmp/t") true "!"
  = ([Print (SecurityError (TooManyFiles (N.to_nat 10001)))], Ok []).
Proof.
  refine (eq_trans
    (proj1 (too_many_files_is_refused
              (sample_zipfile (repeat (mkZipInfo "p.png" 1) (N.to_nat 10001)))
              (pathlib.Path "book.zip") (pathlib.Path "/tmp/t") true "!"
              (repeat (mkZipInfo "p.png" 1) (N.to_nat 10001))
              eq_refl _ _ _)) _).
  - vm_compute. reflexivity.
  - vm_compute. discriminate.
  - vm_compute. reflexivity.
  - vm_compute. reflexivity.
Defined.

(** Property X10.
    An archive all of whose members have a name and none of whose
    members qualifies (no image, or only directories and refused paths)
    gives the warning that no image was found, after the warnings on
    the refused paths; the result is the empty list and nothing is
    extracted. *)
Theorem archive_without_images (zip_ref : zipfile)
  (zip_path temp_dir : pathlib.PurePath) (use_natural_sort : bool)
  (priority_chars : string) (filelist : list ZipInfo) :
  ZipFile zip_ref zip_path = Ok filelist ->
  named filelist = true ->
  filter qualifies filelist = [] ->
  extract_images_from_zip zip_ref zip_path temp_dir use_natural_sort
    priority_chars
  = (warnings_of filelist ++ [Print (WarnNoImages (pathlib.name zip_path))],
     Ok [])
  /\ writes (fst (extract_images_from_zip zip_ref zip_path temp_dir
                    use_natural_sort priority_chars)) = [].
Proof.
  intros Hopen Hn Hnone.
  assert (Hsize : (declared_image_size filelist
                   <= MAX_EXTRACTED_SIZE_BYTES)%N).
  { unfold declared_image_size. rewrite Hnone. simpl.
    unfold MAX_EXTRACTED_SIZE_BYTES. lia. }
  rewrite (extract_run_named _ _ _ _ _ _ Hopen Hn Hsize). cbv zeta.
  rewrite Hnone. cbn [List.length Nat.eqb N.of_nat].
  destruct (N.ltb_spec MAX_FILES_IN_ZIP 0); [lia |].
  split; [reflexivity |].
  cbn [fst]. rewrite writes_app, warnings_of_no_write. reflexivity.
Qed.

Lemma archive_without_images_witness :
  extract_images_from_zip
    (sample_zipfile [mkZipInfo "notes.txt" 10;
                     mkZipInfo "../up.png" 10;
                     mkZipInfo "img/" 0])
    (pathlib.Path "book.zip") (pathlib.Path "/tmp/t") true "!"
  = ([Print (WarnSuspiciousPath "../up.png");
      Print (WarnNoImages "book.zip")], Ok []).
Proof.
  refine (eq_trans
    (proj1 (archive_without_images
              (sample_zipfile [mkZipInfo "notes.txt" 10;
                               mkZipInfo "../up.png" 10;
                               mkZipInfo "img/" 0])
              (pathlib.Path "book.zip") (pathlib.Path "/tmp/t") true "!"
              _ eq_refl _ _)) _).
  - vm_compute. reflexivity.
  - vm_compute. reflexivity.
  - vm_compute. reflexivity.
Defined.

(** Property X11.
    When the archive opens, all its members have a name, its qualifying
    members stay within both limits, every one of them is extracted and
    the sort returns, the function returns one path for each qualifying
    member: the paths [temp_dir / filename] of these members, rearranged
    by [sort_images], and exactly these files are written, in archive
    order. *)
Theorem extraction_returns_every_image (zip_ref : zipfile)
  (zip_path temp_dir : pathlib.PurePath) (use_natural_sort : bool)
  (priority_chars : string) (filelist : list ZipInfo)
  (sorted : list string) :
  let infos := filter qualifies filelist in
  let extracted :=
    map (fun info => pathlib.str (extracted_path temp_dir info)) infos in
  ZipFile zip_ref zip_path = Ok filelist ->
  named filelist = true ->
  (declared_image_size filelist <= MAX_EXTRACTED_SIZE_BYTES)%N ->
  (N.of_nat (List.length infos) <= MAX_FILES_IN_ZIP)%N ->
  infos <> [] ->
  (forall info, In info infos -> extract zip_ref info temp_dir = Written) ->
  sort_images extracted use_natural_sort priority_chars = Ok sorted ->
  let run := extract_images_from_zip zip_ref zip_path temp_dir
               use_natural_sort priority_chars in
  snd run = Ok (map pathlib.Path sorted)
  /\ Permutation extracted sorted
  /\ List.length (map pathlib.Path sorted) = List.length infos
  /\ writes (fst run)
     = map (fun info => (extracted_path temp_dir info, Member info)) infos.
Proof.
  intros infos extracted Hopen Hn Hsize Hcount Hsome Hall Hsort run. subst run.
  rewrite (extract_run_named _ _ _ _ _ _ Hopen Hn Hsize). cbv zeta.
  fold infos.
  destruct (N.ltb_spec MAX_FILES_IN_ZIP (N.of_nat (List.length infos)));
    [lia |].
  destruct (Nat.eqb_spec (List.length infos) 0) as [E | _].
  { destruct infos; [congruence | discriminate]. }
  destruct (second_pass_all_written zip_ref temp_dir (List.length infos) infos
              1 [] Hall) as [Hr Hw].
  rewrite Hr. cbn [app]. fold extracted. rewrite Hsort. cbn [fst snd].
  pose proof (sort_images_permutation _ _ _ _ Hsort) as Hp.
  repeat split.
  - exact Hp.
  - rewrite length_map, <- (Permutation_length Hp). unfold extracted.
    now rewrite length_map.
  - rewrite writes_app, warnings_of_no_write. exact Hw.
Qed.

Lemma extraction_returns_every_image_witness :
  snd (extract_images_from_zip
         (sample_zipfile [mkZipInfo "b/p10.png" 5;
                          mkZipInfo "readme.txt" 5;
                          mkZipInfo "a/p2.png" 5])
         (pathlib.Path "book.zip") (pathlib.Path "/tmp/t") true "!")
  = Ok [pathlib.Path "/tmp/t/a/p2.png"; pathlib.Path "/tmp/t/b/p10.png"].
Proof.
  refine (proj1 (extraction_returns_every_image
    (sample_zipfile [mkZipInfo "b/p10.png" 5;
                     mkZipInfo "readme.txt" 5;
                     mkZipInfo "a/p2.png" 5])
    (pathlib.Path "book.zip") (pathlib.Path "/tmp/t") true "!"
    [mkZipInfo "b/p10.png" 5; mkZipInfo "readme.txt" 5;
     mkZipInfo "a/p2.png" 5]
    ["/tmp/t/a/p2.png"; "/tmp/t/b/p10.png"]%string
    eq_refl _ _ _ _ _ _)).
  - vm_compute. reflexivity.
  - vm_compute. discriminate.
  - vm_compute. discriminate.
  - vm_compute. discriminate.
  - intros info _. reflexivity.
  - vm_compute. reflexivity.
Defined.

(** Property X12.
    In an archive all of whose members have a name and whose qualifying
    members stay within both limits, when the extraction of one member
    fails the function gives up: it prints the message of the handler
    for the exception as its last line and returns the empty list.  It
    removes nothing: the members extracted before stay in [temp_dir],
    with whatever the failed call left of its own member, and no later
    member is extracted. *)
Theorem failed_member_abandons_extraction (zip_ref : zipfile)
  (zip_path temp_dir : pathlib.PurePath) (use_natural_sort : bool)
  (priority_chars : string) (filelist done rest : list ZipInfo)
  (failing : ZipInfo) (e : exn) (touched : bool) :
  ZipFile zip_ref zip_path = Ok filelist ->
  named filelist = true ->
  (declared_image_size filelist <= MAX_EXTRACTED_SIZE_BYTES)%N ->
  (N.of_nat (List.length (filter qualifies filelist)) <= MAX_FILES_IN_ZIP)%N ->
  filter qualifies filelist = done ++ failing :: rest ->
  (forall info, In info done -> extract zip_ref info temp_dir = Written) ->
  extract zip_ref failing temp_dir = Failed e touched ->
  let run := extract_images_from_zip zip_ref zip_path temp_dir
               use_natural_sort priority_chars in
  snd run = Ok []
  /\ (exists t, fst run = t ++ [Print (reported zip_path e)])
  /\ writes (fst run)
     = map (fun info => (extracted_path temp_dir info, Member info)) done
       ++ (if touched then [(extracted_path temp_dir failing, Partial)]
           else []).
Proof.
  intros Hopen Hn Hsize Hcount Hsplit Hdone Hfail run. subst run.
  rewrite (extract_run_named _ _ _ _ _ _ Hopen Hn Hsize). cbv zeta.
  destruct (N.ltb_spec MAX_FILES_IN_ZIP
              (N.of_nat (List.length (filter qualifies filelist)))); [lia |].
  rewrite Hsplit.
  destruct (Nat.eqb_spec (List.length (done ++ failing :: rest)) 0) as [E | _].
  { rewrite length_app in E. simpl in E. lia. }
  destruct (second_pass_fails_at zip_ref temp_dir
              (List.length (done ++ failing :: rest)) done failing rest 1 []
              e touched Hdone Hfail) as [Hr Hw].
  rewrite Hr. cbn [fst snd].
  split; [reflexivity |]. split.
  - eexists. rewrite app_assoc. reflexivity.
  - rewrite !writes_app, warnings_of_no_write, Hw. cbn [writes app].
    now rewrite app_nil_r.
Qed.

Lemma failed_member_abandons_extraction_witness :
  writes (fst (extract_images_from_zip
    (mkZipfile (fun _ => Ok [mkZipInfo "a.png" 5;
                             mkZipInfo "b.png" 5;
                             mkZipInfo "c.png" 5])
               (fun info _ => if (filename info =? "b.png")%string
                              then Failed OSError true else Written))
    (pathlib.Path "book.zip") (pathlib.Path "/tmp/t") true "!"))
  = [(pathlib.Path "/tmp/t/a.png", Member (mkZipInfo "a.png" 5));
     (pathlib.Path "/tmp/t/b.png", Partial)].
Proof.
  refine (proj2 (proj2 (failed_member_abandons_extraction
    (mkZipfile (fun _ => Ok [mkZipInfo "a.png" 5;
                             mkZipInfo "b.png" 5;
                             mkZipInfo "c.png" 5])
               (fun info _ => if (filename info =? "b.png")%string
                              then Failed OSError true else Written))
    (pathlib.Path "book.zip") (pathlib.Path "/tmp/t") true "!"
    [mkZipInfo "a.png" 5; mkZipInfo "b.png" 5;
     mkZipInfo "c.png" 5]
    [mkZipInfo "a.png" 5] [mkZipInfo "c.png" 5]
    (mkZipInfo "b.png" 5) OSError true
    eq_refl _ _ _ _ _ _))).
  - vm_compute. reflexivity.
  - vm_compute. discriminate.
  - vm_compute. discriminate.
  - vm_compute. reflexivity.
  - intros info [<- | []]. reflexivity.
  - reflexivity.
Defined.


(** ** The pages of a document *)

Lemma to_page_policy (pil : pillow) (img_path : pathlib.PurePath) (pg : page) :
  to_page pil img_path = Ok pg ->
  page_follows_policy pg /\ source (page_image pg) = img_path.
Proof.
  unfold to_page. intros H.
  destruct (Image_open pil img_path) as [m | e]; [| discriminate].
  simpl in H.
  destruct m as [| | | | other]; simpl in H;
    try (destruct (load pil img_path); [| discriminate]; simpl in H);
    injection H as <-; simpl; auto; eauto.
Qed.

Lemma decoded_pages_policy (pil : pillow)
  (image_paths : list pathlib.PurePath) :
  Forall (fun pg => page_follows_policy pg
                    /\ In (source (page_image pg)) image_paths)
         (decoded_pages pil image_paths).
Proof.
  induction image_paths as [| p rest IH]; [constructor |].
  unfold decoded_pages. simpl.
  assert (Hrest : Forall (fun pg => page_follows_policy pg
                            /\ In (source (page_image pg)) (p :: rest))
                         (decoded_pages pil rest)).
  { eapply Forall_impl; [| exact IH]. intros pg [H1 H2]. split; [| right]; auto. }
  destruct (to_page pil p) as [pg | e] eqn:E; simpl; [| exact Hrest].
  constructor; [| exact Hrest].
  destruct (to_page_policy pil p pg E) as [H1 H2].
  split; [exact H1 | left; now rewrite H2].
Qed.

Lemma decoded_pages_length (pil : pillow)
  (image_paths : list pathlib.PurePath) :
  List.length (decoded_pages pil image_paths) <= List.length image_paths.
Proof.
  induction image_paths as [| p rest IH]; [apply Nat.le_refl |].
  unfold decoded_pages in *. simpl.
  destruct (to_page pil p); simpl; lia.
Qed.

(** What a conversion returns and writes, in short. *)
Lemma convert_summary (pil : pillow) (image_paths : list pathlib.PurePath)
  (output_pdf : pathlib.PurePath) :
  let run := convert_images_to_pdf pil image_paths output_pdf in
  (snd run = Ok false
   /\ (writes (fst run) = [] \/ writes (fst run) = [(output_pdf, Partial)]))
  \/ (snd run = Ok true
      /\ image_paths <> []
      /\ decoded_pages pil image_paths <> []
      /\ writes (fst run)
         = [(output_pdf, Document (decoded_pages pil image_paths))]).
Proof.
  intros run. subst run.
  destruct image_paths as [| p rest]; [left; split; [| left]; reflexivity |].
  assert (Hne : p :: rest <> []) by discriminate.
  pose proof (convert_outcomes pil (p :: rest) output_pdf Hne) as Hc.
  cbv zeta in Hc.
  destruct Hc as [[_ [e ->]] | [_ [[_ ->] | [Hpg [[_ ->] | [[e [_ ->]] | [e [_ ->]]]]]]]];
    cbn [fst snd]; rewrite writes_composed.
  - left. split; [| left]; reflexivity.
  - left. split; [| left]; reflexivity.
  - right. repeat split; assumption.
  - left. split; [| right]; reflexivity.
  - left. split; [| left]; reflexivity.
Qed.

(** Property X13.
    Every document [convert_images_to_pdf] writes goes to
    [output_pdf], has at least one page and at most one page for each
    image path, and each page is made from one of the image paths by the
    colour policy: an RGBA, LA or palette image is pasted on white through
    its alpha channel, an RGB image is taken as it is, any other mode is
    converted.  The paste is never made without a mask. *)
Theorem written_pages_follow_colour_policy (pil : pillow)
  (image_paths : list pathlib.PurePath) (output_pdf dest : pathlib.PurePath)
  (pages : list page) :
  In (dest, Document pages)
     (writes (fst (convert_images_to_pdf pil image_paths output_pdf))) ->
  dest = output_pdf
  /\ pages <> []
  /\ List.length pages <= List.length image_paths
  /\ Forall (fun pg => page_follows_policy pg
                       /\ In (source (page_image pg)) image_paths) pages.
Proof.
  intros Hin.
  destruct (convert_summary pil image_paths output_pdf)
    as [[_ [Hw | Hw]] | (_ & _ & Hpg & Hw)]; rewrite Hw in Hin.
  - destruct Hin.
  - destruct Hin as [H | []]. discriminate.
  - destruct Hin as [H | []]. injection H as <- <-.
    repeat split; [exact Hpg | apply decoded_pages_length
                  | apply decoded_pages_policy].
Qed.

Lemma written_pages_follow_colour_policy_witness :
  page_follows_policy (AsIs (mkImage (pathlib.Path "t/a.png") RGB)).
Proof.
  refine (proj1 (Forall_inv (proj2 (proj2 (proj2
    (written_pages_follow_colour_policy
       (sample_pillow "bad.png" Written)
       [pathlib.Path "t/bad.png"; pathlib.Path "t/a.png"]
       (pathlib.Path "out/book.pdf") (pathlib.Path "out/book.pdf")
       [AsIs (mkImage (pathlib.Path "t/a.png") RGB)] _)))))).
  vm_compute. left. reflexivity.
Defined.

(** ** One archive from start to end *)

Lemma cleanup_returns (fs : system.filesystem) (temp_dir : pathlib.PurePath) :
  zipped_imgs_to_pdf_driver.cleanup fs temp_dir
  = (system.RemoveTree temp_dir
       :: match system.rmtree fs temp_dir with
          | Ok _ => []
          | Raise e => [system.Notice (system.WarnCouldNotRemoveTemp e)]
          end,
     Ok tt).
Proof.
  unfold zipped_imgs_to_pdf_driver.cleanup.
  destruct (system.rmtree fs temp_dir); reflexivity.
Qed.

Lemma process_rejected (fs : system.filesystem) (zip_ref : zipfile)
  (pil : pillow) (zip_path : pathlib.PurePath)
  (output_dir : option pathlib.PurePath) (use_natural_sort : bool)
  (priority_chars : string) :
  accepted fs zip_path = false ->
  exists m,
    zipped_imgs_to_pdf_driver.process_zip_file fs zip_ref pil zip_path
      output_dir use_natural_sort priority_chars
    = ([system.Notice m], Ok false)
    /\ m = match system.stat_size fs zip_path with
           | None => system.ErrorFileNotFound zip_path
           | Some file_size =>
               if (Py.lower (pathlib.suffix zip_path) =? ".zip")%string
               then system.ErrorFileTooLarge (pathlib.name zip_path) file_size
               else system.ErrorNotAZipFile zip_path
           end.
Proof.
  unfold accepted, zipped_imgs_to_pdf_driver.process_zip_file.
  destruct (system.stat_size fs zip_path) as [n |];
    [| intros _; eexists; split; reflexivity].
  destruct (Py.lower (pathlib.suffix zip_path) =? ".zip")%string; simpl;
    [| intros _; eexists; split; reflexivity].
  rewrite N.ltb_antisym. intros ->. simpl. eexists; split; reflexivity.
Qed.

Lemma process_run (fs : system.filesystem) (zip_ref : zipfile)
  (pil : pillow) (zip_path : pathlib.PurePath)
  (output_dir : option pathlib.PurePath) (use_natural_sort : bool)
  (priority_chars : string) :
  accepted fs zip_path = true ->
  zipped_imgs_to_pdf_driver.process_zip_file fs zip_ref pil zip_path
    output_dir use_natural_sort priority_chars
  = match system.mkdtemp fs with
    | Raise e => ([], Raise e)
    | Ok made =>
        let temp_dir := pathlib.Path made in
        let ex := extract_images_from_zip zip_ref zip_path temp_dir
                    use_natural_sort priority_chars in
        let final := fst (zipped_imgs_to_pdf_driver.cleanup fs temp_dir) in
        match snd ex with
        | Raise e =>
            (system.MakeTempDir temp_dir :: map system.Inner (fst ex) ++ final,
             Raise e)
        | Ok [] =>
            (system.MakeTempDir temp_dir :: map system.Inner (fst ex) ++ final,
             Ok false)
        | Ok image_paths =>
            let conv := convert_images_to_pdf pil image_paths
                          (destination zip_path output_dir) in
            (system.MakeTempDir temp_dir
               :: map system.Inner (fst ex)
               ++ system.Notice (system.FoundImages (List.length image_paths))
               :: system.Notice system.BlankLine
               :: map system.Inner (fst conv) ++ final,
             snd conv)
        end
    end.
Proof.
  unfold accepted, zipped_imgs_to_pdf_driver.process_zip_file.
  destruct (system.stat_size fs zip_path) as [n |]; [| discriminate].
  rewrite andb_true_iff. intros [-> Hn]. simpl negb. cbv iota.
  rewrite N.ltb_antisym, Hn. simpl negb. cbv iota.
  fold (destination zip_path output_dir).
  destruct (system.mkdtemp fs) as [made | e]; [| reflexivity].
  unfold system.os_lift. cbn [system.os_bind]. cbv zeta.
  rewrite cleanup_returns. cbn [fst].
  destruct (extract_images_from_zip zip_ref zip_path (pathlib.Path made)
              use_natural_sort priority_chars) as [t1 [[| p paths] | e]];
    unfold system.inner, system.act, system.os_ret, system.try_finally;
    cbn [fst snd system.os_bind app].
  - now rewrite app_nil_r.
  - destruct (convert_images_to_pdf pil (p :: paths)
                (destination zip_path output_dir)) as [t2 [b | e]];
      cbn [fst snd system.os_bind app];
      rewrite ?app_nil_r, <- ?app_assoc; reflexivity.
  - reflexivity.
Qed.


Lemma inner_no_scratch (t : list event) :
  forallb (fun a => negb (touches_scratch a)) (map system.Inner t) = true.
Proof.
  induction t as [| ev t IH]; [reflexivity | exact IH].
Qed.

Lemma files_written_app (t1 t2 : list system.action) :
  files_written (t1 ++ t2) = files_written t1 ++ files_written t2.
Proof.
  induction t1 as [| [[m | d c] | m | d | d] t1 IH]; simpl;
    try exact IH; [reflexivity | now rewrite IH].
Qed.

Lemma files_written_inner (t : list event) :
  files_written (map system.Inner t) = writes t.
Proof.
  induction t as [| [m | d c] t IH]; simpl; [reflexivity | exact IH |].
  now rewrite IH.
Qed.

Lemma files_written_cleanup (fs : system.filesystem)
  (temp_dir : pathlib.PurePath) :
  files_written (fst (zipped_imgs_to_pdf_driver.cleanup fs temp_dir)) = [].
Proof.
  rewrite cleanup_returns. simpl.
  destruct (system.rmtree fs temp_dir); reflexivity.
Qed.

Lemma convert_returns (pil : pillow) (image_paths : list pathlib.PurePath)
  (output_pdf : pathlib.PurePath) :
  exists success,
    snd (convert_images_to_pdf pil image_paths output_pdf) = Ok success.
Proof.
  destruct (convert_summary pil image_paths output_pdf) as [[H _] | [H _]];
    eauto.
Qed.

(** Property X14.
    The scratch directory of [process_zip_file].  An archive file
    that fails one of the three checks is only reported: the function
    prints one line and returns [False].  If [mkdtemp] raises, the
    exception leaves the function and nothing has been done.  Once the
    directory is made the function does not raise: whatever extraction
    and conversion do, it ends by calling [rmtree] on that directory,
    once and after everything else, and a failure of [rmtree] is only
    warned about. *)
Theorem scratch_directory_is_always_removed (fs : system.filesystem)
  (zip_ref : zipfile) (pil : pillow) (zip_path : pathlib.PurePath)
  (output_dir : option pathlib.PurePath) (use_natural_sort : bool)
  (priority_chars : string) :
  let run := zipped_imgs_to_pdf_driver.process_zip_file fs zip_ref pil
               zip_path output_dir use_natural_sort priority_chars in
  (accepted fs zip_path = false ->
   exists m, run = ([system.Notice m], Ok false))
  /\ (accepted fs zip_path = true ->
      forall e, system.mkdtemp fs = Raise e -> run = ([], Raise e))
  /\ (accepted fs zip_path = true ->
      forall made, system.mkdtemp fs = Ok made ->
      exists body success,
        run = (system.MakeTempDir (pathlib.Path made)
                 :: body
                 ++ system.RemoveTree (pathlib.Path made)
                 :: match system.rmtree fs (pathlib.Path made) with
                    | Ok _ => []
                    | Raise e =>
                        [system.Notice (system.WarnCouldNotRemoveTemp e)]
                    end,
               Ok success)
        /\ forallb (fun a => negb (touches_scratch a)) body = true).
Proof.
  intros run. subst run. split; [| split].
  - intros H.
    destruct (process_rejected fs zip_ref pil zip_path output_dir
                use_natural_sort priority_chars H) as (m & Hm & _).
    eauto.
  - intros H e He. rewrite (process_run _ _ _ _ _ _ _ H), He. reflexivity.
  - intros H made Hmade. rewrite (process_run _ _ _ _ _ _ _ H), Hmade.
    cbv zeta. rewrite cleanup_returns. cbn [fst].
    destruct (extract_returns zip_ref zip_path (pathlib.Path made)
                use_natural_sort priority_chars) as [paths Hex].
    rewrite Hex. destruct paths as [| p paths].
    + exists (map system.Inner
                (fst (extract_images_from_zip zip_ref zip_path
                        (pathlib.Path made) use_natural_sort priority_chars))),
        false.
      split; [reflexivity | apply inner_no_scratch].
    + destruct (convert_returns pil (p :: paths)
                  (destination zip_path output_dir)) as [success Hc].
      rewrite Hc.
      eexists (_ ++ _ :: _ :: _), success. split.
      * rewrite <- app_assoc. reflexivity.
      * rewrite forallb_app, inner_no_scratch. simpl. apply inner_no_scratch.
Qed.

Lemma scratch_directory_is_always_removed_witness :
  exists body success,
    zipped_imgs_to_pdf_driver.process_zip_file
      (sample_filesystem 10) (sample_zipfile []) (sample_pillow "" Written)
      (pathlib.Path "in/book.zip") None true "!"
    = (system.MakeTempDir (pathlib.Path "/tmp/scratch")
         :: body ++ [system.RemoveTree (pathlib.Path "/tmp/scratch")],
       Ok success)
    /\ forallb (fun a => negb (touches_scratch a)) body = true.
Proof.
  exact (proj2 (proj2 (scratch_directory_is_always_removed
                         (sample_filesystem 10) (sample_zipfile [])
                         (sample_pillow "" Written)
                         (pathlib.Path "in/book.zip") None true "!"))
               eq_refl "/tmp/scratch"%string eq_refl).
Defined.


(** Property X15.
    [process_zip_file] returns [True] only when the document is
    there: the archive file was accepted, the extraction gave at least
    one image path, at least one image decoded, and the last file the run
    wrote is the complete document of the decoded pages, at
    [output_dir / (stem + ".pdf")].  Conversely it returns [True]
    whenever extraction gives paths on which the conversion returns
    [True]; in particular an extraction that gives no path ends the run
    with [False] and the converter is not called. *)
Theorem true_means_document_written (fs : system.filesystem)
  (zip_ref : zipfile) (pil : pillow) (zip_path : pathlib.PurePath)
  (output_dir : option pathlib.PurePath) (use_natural_sort : bool)
  (priority_chars : string) :
  let run := zipped_imgs_to_pdf_driver.process_zip_file fs zip_ref pil
               zip_path output_dir use_natural_sort priority_chars in
  let ex made := extract_images_from_zip zip_ref zip_path (pathlib.Path made)
                   use_natural_sort priority_chars in
  (snd run = Ok true ->
   accepted fs zip_path = true
   /\ exists made image_paths,
        system.mkdtemp fs = Ok made
        /\ snd (ex made) = Ok image_paths
        /\ image_paths <> []
        /\ decoded_pages pil image_paths <> []
        /\ files_written (fst run)
           = writes (fst (ex made))
             ++ [(destination zip_path output_dir,
                  Document (decoded_pages pil image_paths))])
  /\ (forall made image_paths,
        accepted fs zip_path = true ->
        system.mkdtemp fs = Ok made ->
        snd (ex made) = Ok image_paths ->
        snd run
        = match image_paths with
          | [] => Ok false
          | _ => snd (convert_images_to_pdf pil image_paths
                        (destination zip_path output_dir))
          end
        /\ (image_paths = [] -> files_written (fst run) = writes (fst (ex made)))).
Proof.
  intros run ex. subst run ex. split.
  - intros Htrue.
    destruct (accepted fs zip_path) eqn:Hacc.
    2:{ destruct (process_rejected fs zip_ref pil zip_path output_dir
                    use_natural_sort priority_chars Hacc) as (m & Hm & _).
        rewrite Hm in Htrue. discriminate. }
    split; [reflexivity |].
    rewrite (process_run _ _ _ _ _ _ _ Hacc) in Htrue |- *.
    destruct (system.mkdtemp fs) as [made | e]; [| discriminate].
    cbv zeta in Htrue |- *.
    exists made.
    destruct (snd (extract_images_from_zip zip_ref zip_path (pathlib.Path made)
                     use_natural_sort priority_chars))
      as [[| p paths] | e]; try discriminate.
    exists (p :: paths). cbn [snd] in Htrue. cbn [fst].
    destruct (convert_summary pil (p :: paths)
                (destination zip_path output_dir))
      as [[Hf _] | (_ & _ & Hpg & Hw)]; [congruence |].
    repeat split; try assumption; try discriminate.
    change (?a :: ?l ++ ?b :: ?c :: ?l' ++ ?d)
      with ([a] ++ l ++ [b; c] ++ l' ++ d).
    rewrite !files_written_app, !files_written_inner, files_written_cleanup.
    rewrite Hw. cbn [files_written app]. rewrite ?app_nil_r. reflexivity.
  - intros made image_paths Hacc Hmade Hex.
    rewrite (process_run _ _ _ _ _ _ _ Hacc), Hmade. cbv zeta. rewrite Hex.
    destruct image_paths as [| p paths].
    + split; [reflexivity |]. intros _. cbn [fst].
      change (?a :: ?l ++ ?d) with ([a] ++ l ++ d).
      rewrite !files_written_app, files_written_inner, files_written_cleanup.
      cbn [files_written app]. now rewrite ?app_nil_r.
    + split; [reflexivity | discriminate].
Qed.

Lemma true_means_document_written_witness :
  accepted (sample_filesystem 10) (pathlib.Path "in/book.zip") = true.
Proof.
  refine (proj1 (proj1 (true_means_document_written
    (sample_filesystem 10)
    (sample_zipfile [mkZipInfo "p2.png" 5; mkZipInfo "p1.png" 5])
    (sample_pillow "" Written)
    (pathlib.Path "in/book.zip") None true "!") _)).
  vm_compute. reflexivity.
Defined.

(** Property X16.
    Where one run of [process_zip_file] writes.  A run that writes a
    file has made its scratch directory first: the archive file was
    accepted, [mkdtemp] returned, and making the directory is the first
    thing the run did.  The file is either the document at
    [output_dir / (stem + ".pdf")], or lies in that scratch directory:
    below it, by components none of which is [..].  A run that makes no
    scratch directory, because the archive file is refused or [mkdtemp]
    raises, writes nothing. *)
Theorem process_writes_are_confined (fs : system.filesystem)
  (zip_ref : zipfile) (pil : pillow) (zip_path : pathlib.PurePath)
  (output_dir : option pathlib.PurePath) (use_natural_sort : bool)
  (priority_chars : string) :
  let run := zipped_imgs_to_pdf_driver.process_zip_file fs zip_ref pil
               zip_path output_dir use_natural_sort priority_chars in
  (forall dest c,
      In (dest, c) (files_written (fst run)) ->
      accepted fs zip_path = true
      /\ exists made,
           system.mkdtemp fs = Ok made
           /\ hd_error (fst run) = Some (system.MakeTempDir (pathlib.Path made))
           /\ (dest = destination zip_path output_dir
               \/ inside (pathlib.Path made) dest))
  /\ ((forall d, ~ In (system.MakeTempDir d) (fst run)) ->
      files_written (fst run) = [])
  /\ (accepted fs zip_path = false \/ (exists e, system.mkdtemp fs = Raise e) ->
      (forall d, ~ In (system.MakeTempDir d) (fst run))
      /\ files_written (fst run) = []).
Proof.
  intros run. subst run.
  destruct (accepted fs zip_path) eqn:Hacc.
  2:{ destruct (process_rejected fs zip_ref pil zip_path output_dir
                  use_natural_sort priority_chars Hacc) as (m & Hm & _).
      rewrite Hm. cbn [fst files_written]. split; [intros dest c [] |].
      split; [reflexivity |]. intros _. split; [| reflexivity].
      intros d [H | []]. discriminate. }
  rewrite (process_run _ _ _ _ _ _ _ Hacc).
  destruct (system.mkdtemp fs) as [made | e].
  2:{ cbn [fst files_written]. split; [intros dest c [] |].
      split; [reflexivity |]. intros _. split; [intros d [] | reflexivity]. }
  cbv zeta. split; [| split].
  - intros dest c Hin. split; [reflexivity |]. exists made.
    split; [reflexivity |].
    split; [destruct (snd _) as [[| p paths] | e]; reflexivity |].
    pose proof (extract_writes_qualifying zip_ref zip_path (pathlib.Path made)
                  use_natural_sort priority_chars) as Hex.
    rewrite Forall_forall in Hex.
    assert (Hscratch : In (dest, c)
              (writes (fst (extract_images_from_zip zip_ref zip_path
                              (pathlib.Path made) use_natural_sort
                              priority_chars))) ->
            inside (pathlib.Path made) dest).
    { intros H. destruct (Hex _ H) as (fi & Hq & Hd & _). simpl in Hd.
      rewrite Hd. apply not_suspicious_inside.
      unfold qualifies in Hq. rewrite !andb_true_iff, !negb_true_iff in Hq.
      tauto. }
    destruct (snd (extract_images_from_zip zip_ref zip_path (pathlib.Path made)
                     use_natural_sort priority_chars))
      as [[| p paths] | e]; cbn [fst] in Hin.
    + change (?a :: ?l ++ ?d) with ([a] ++ l ++ d) in Hin.
      rewrite !files_written_app, files_written_inner, files_written_cleanup
        in Hin.
      cbn [files_written app] in Hin. rewrite ?app_nil_r in Hin. right. auto.
    + change (?a :: ?l ++ ?b :: ?c :: ?l' ++ ?d)
        with ([a] ++ l ++ [b; c] ++ l' ++ d) in Hin.
      rewrite !files_written_app, !files_written_inner, files_written_cleanup
        in Hin.
      cbn [files_written app] in Hin. rewrite ?app_nil_r in Hin.
      apply in_app_or in Hin as [Hin | Hin]; [right; auto |].
      left.
      destruct (convert_summary pil (p :: paths)
                  (destination zip_path output_dir))
        as [[_ [Hw | Hw]] | (_ & _ & _ & Hw)]; rewrite Hw in Hin.
      * destruct Hin.
      * destruct Hin as [H | []]. congruence.
      * destruct Hin as [H | []]. congruence.
    + change (?a :: ?l ++ ?d) with ([a] ++ l ++ d) in Hin.
      rewrite !files_written_app, files_written_inner, files_written_cleanup
        in Hin.
      cbn [files_written app] in Hin. rewrite ?app_nil_r in Hin. right. auto.
  - intros Hno. exfalso. apply (Hno (pathlib.Path made)).
    destruct (snd _) as [[| p paths] | e]; left; reflexivity.
  - intros [H | [e H]]; discriminate.
Qed.

Lemma process_writes_are_confined_witness :
  accepted (sample_filesystem 10) (pathlib.Path "in/book.zip") = true
  /\ exists made,
       Ok "/tmp/scratch"%string = Ok made
       /\ hd_error
            (fst (zipped_imgs_to_pdf_driver.process_zip_file
                    (sample_filesystem 10)
                    (sample_zipfile [mkZipInfo "p2.png" 5;
                                     mkZipInfo "p1.png" 5])
                    (sample_pillow "" Written)
                    (pathlib.Path "in/book.zip") None true "!"))
          = Some (system.MakeTempDir (pathlib.Path made))
       /\ (pathlib.Path "/tmp/scratch/p1.png" = pathlib.Path "in/book.pdf"
           \/ inside (pathlib.Path made) (pathlib.Path "/tmp/scratch/p1.png")).
Proof.
  refine (proj1 (process_writes_are_confined
    (sample_filesystem 10)
    (sample_zipfile [mkZipInfo "p2.png" 5; mkZipInfo "p1.png" 5])
    (sample_pillow "" Written)
    (pathlib.Path "in/book.zip") None true "!")
    (pathlib.Path "/tmp/scratch/p1.png")
    (Member (mkZipInfo "p1.png" 5)) _).
  vm_compute. right. left. reflexivity.
Defined.


(** ** The name of the document *)













(** ** Searching a directory for archives *)

Lemma list_lt_compare (a b : list string) :
  Py.list_lt a b = is_lt (lex_compare String.compare a b).
Proof.
  revert b; induction a as [| x a IH]; intros [| y b]; simpl;
    try reflexivity.
  destruct (String.eqb_spec x y) as [-> | Hne].
  - rewrite (compare_refl (cmp := String.compare)). apply IH.
  - rewrite string_ltb_compare.
    destruct (String.compare x y) eqn:E; try reflexivity.
    apply (compare_eq (cmp := String.compare)) in E. contradiction.
Qed.

Lemma list_eq_iff (a b : list string) : Py.list_eq a b = true <-> a = b.
Proof.
  revert b; induction a as [| x a IH]; intros [| y b]; simpl;
    try (split; [discriminate | discriminate]); [tauto |].
  rewrite andb_true_iff, String.eqb_eq, IH.
  split; [intros [-> ->]; reflexivity | intros H; injection H; auto].
Qed.

Lemma path_eq_iff (p q : pathlib.PurePath) :
  pathlib.path_eq p q = true <-> pathlib.cparts p = pathlib.cparts q.
Proof.
  apply list_eq_iff.
Qed.

#[export] Instance path_weak_order : WeakOrder pathlib.path_lt.
Proof.
  pose proof (weak_order_of_key (lex_compare String.compare) pathlib.cparts)
    as [Hi Ha Hc].
  constructor; unfold pathlib.path_lt; intros *; rewrite ?list_lt_compare.
  - apply Hi.
  - apply Ha.
  - apply Hc.
Qed.

Lemma sorted_paths (zip_files : list pathlib.PurePath) :
  list_sort (fun p => Ok p) (fun p q => Ok (pathlib.path_lt p q)) zip_files
  = Ok (sort_by pathlib.path_lt zip_files).
Proof.
  apply (list_sort_pure (fun p => Ok p) (fun p q => Ok (pathlib.path_lt p q))
           (fun p => p) pathlib.path_lt (fun _ => True)); auto.
  apply Forall_forall. auto.
Qed.

Lemma existsb_path_eq (p : pathlib.PurePath) (l : list pathlib.PurePath) :
  existsb (pathlib.path_eq p) l = true
  <-> In (pathlib.cparts p) (map pathlib.cparts l).
Proof.
  rewrite existsb_exists, in_map_iff. split.
  - intros (q & Hq & E). apply path_eq_iff in E. eauto.
  - intros (q & E & Hq). exists q. split; [exact Hq |].
    now apply path_eq_iff.
Qed.

(** What one loop adds to [zip_files]: files among the paths it went
    through, in the order met. *)
Lemma collect_adds (t : system.tree) (unless_present : bool)
  (todo zip_files : list pathlib.PurePath) :
  exists added,
    fst (zipped_imgs_to_pdf_driver.collect t unless_present todo zip_files)
    = zip_files ++ added
    /\ Forall (fun p => system.is_file t p = Ok true /\ In p todo) added.
Proof.
  revert zip_files; induction todo as [| p rest IH]; intros zip_files; simpl.
  - exists []. now rewrite app_nil_r.
  - assert (Hweak : forall l,
      (exists added,
          fst (zipped_imgs_to_pdf_driver.collect t unless_present rest l)
          = l ++ added
          /\ Forall (fun q => system.is_file t q = Ok true /\ In q (p :: rest))
                    added)).
    { intros l. destruct (IH l) as (added & E & H). exists added.
      split; [exact E |]. eapply Forall_impl; [| exact H].
      intros q [H1 H2]. split; [exact H1 | now right]. }
    destruct (system.is_file t p) as [[|] | e] eqn:Ep.
    + destruct (unless_present && existsb (pathlib.path_eq p) zip_files).
      * apply Hweak.
      * destruct (Hweak (zip_files ++ [p])) as (added & E & H).
        exists (p :: added). rewrite E, <- app_assoc. split; [reflexivity |].
        constructor; [split; [exact Ep | now left] | exact H].
    + apply Hweak.
    + exists []. now rewrite app_nil_r.
Qed.

Lemma NoDup_snoc {A : Type} (l : list A) (x : A) :
  NoDup l -> ~ In x l -> NoDup (l ++ [x]).
Proof.
  intros Hl Hx.
  eapply Permutation_NoDup; [apply Permutation_cons_append |].
  now constructor.
Qed.

Lemma collect_distinct (t : system.tree) (unless_present : bool)
  (todo zip_files : list pathlib.PurePath) :
  NoDup (map pathlib.cparts zip_files) ->
  (unless_present = false ->
   NoDup (map pathlib.cparts (zip_files ++ todo))) ->
  NoDup (map pathlib.cparts
           (fst (zipped_imgs_to_pdf_driver.collect t unless_present todo
                   zip_files))).
Proof.
  revert zip_files; induction todo as [| p rest IH]; intros zip_files Hz Hall;
    simpl; [exact Hz |].
  assert (Hskip : NoDup (map pathlib.cparts
            (fst (zipped_imgs_to_pdf_driver.collect t unless_present rest
                    zip_files)))).
  { apply IH; [exact Hz |]. intros Hu. specialize (Hall Hu).
    rewrite map_app in Hall |- *. simpl in Hall.
    now apply NoDup_remove_1 in Hall. }
  destruct (system.is_file t p) as [[|] | e]; [| exact Hskip | exact Hz].
  destruct unless_present; simpl.
  - destruct (existsb (pathlib.path_eq p) zip_files) eqn:E; [exact Hskip |].
    apply IH; [| discriminate].
    rewrite map_app. simpl. apply NoDup_snoc; [exact Hz |].
    intros Hin. apply existsb_path_eq in Hin. congruence.
  - specialize (Hall eq_refl).
    apply IH.
    + rewrite map_app in Hall |- *. simpl in Hall |- *.
      apply NoDup_snoc; [exact Hz |].
      apply NoDup_remove_2 in Hall. intros Hin. apply Hall.
      apply in_or_app. now left.
    + intros _. now rewrite <- app_assoc.
Qed.


Lemma collect_complete (t : system.tree) (unless_present : bool)
  (todo zip_files : list pathlib.PurePath) :
  (forall p, In p todo -> exists b, system.is_file t p = Ok b) ->
  snd (zipped_imgs_to_pdf_driver.collect t unless_present todo zip_files)
  = None
  /\ forall p, In p todo -> system.is_file t p = Ok true ->
       In (pathlib.cparts p)
          (map pathlib.cparts
             (fst (zipped_imgs_to_pdf_driver.collect t unless_present todo
                     zip_files))).
Proof.
  revert zip_files; induction todo as [| p rest IH]; intros zip_files Hfile;
    simpl; [split; [reflexivity | intros p []] |].
  assert (Hrest : forall q, In q rest -> exists b, system.is_file t q = Ok b)
    by (intros q Hq; apply Hfile; now right).
  assert (Hkeep : forall l x,
            In x (map pathlib.cparts l) ->
            In x (map pathlib.cparts
                    (fst (zipped_imgs_to_pdf_driver.collect t unless_present
                            rest l)))).
  { intros l x Hx.
    destruct (collect_adds t unless_present rest l) as (added & -> & _).
    rewrite map_app. apply in_or_app. now left. }
  destruct (Hfile p (or_introl eq_refl)) as [b Hb]. rewrite Hb.
  destruct b.
  - destruct (unless_present && existsb (pathlib.path_eq p) zip_files) eqn:E.
    + destruct (IH zip_files Hrest) as [Hn Hin]. split; [exact Hn |].
      intros q [<- | Hq] Hq'; [| now apply Hin].
      apply Hkeep. apply andb_true_iff in E as [_ E].
      now apply existsb_path_eq.
    + destruct (IH (zip_files ++ [p]) Hrest) as [Hn Hin]. split; [exact Hn |].
      intros q [<- | Hq] Hq'; [| now apply Hin].
      apply Hkeep. rewrite map_app. apply in_or_app. right. now left.
  - destruct (IH zip_files Hrest) as [Hn Hin]. split; [exact Hn |].
    intros q [<- | Hq] Hq'; [congruence | now apply Hin].
Qed.

(** The two loops together: what is collected, and what is printed. *)
Lemma find_run (t : system.tree) (directory : pathlib.PurePath) :
  let lower := zipped_imgs_to_pdf_driver.search t directory "*.zip" false [] in
  let both :=
    match lower with
    | (zip_files, None) =>
        zipped_imgs_to_pdf_driver.search t directory "*.ZIP" true zip_files
    | stopped => stopped
    end in
  zipped_imgs_to_pdf_driver.find_zip_files_recursive t directory
  = (match snd both with
     | Some e =>
         [system.Notice (system.ErrorSearchingDirectory directory e)]
     | None => []
     end,
     Ok (sort_by pathlib.path_lt (fst both))).
Proof.
  intros lower both. subst both lower.
  unfold zipped_imgs_to_pdf_driver.find_zip_files_recursive.
  destruct (zipped_imgs_to_pdf_driver.search t directory "*.zip" false [])
    as [z1 [e1 |]].
  - unfold system.act, system.os_lift, system.os_bind.
    rewrite sorted_paths. reflexivity.
  - destruct (zipped_imgs_to_pdf_driver.search t directory "*.ZIP" true z1)
      as [z2 [e2 |]];
      unfold system.act, system.os_ret, system.os_lift, system.os_bind;
      rewrite sorted_paths; reflexivity.
Qed.

Lemma search_fst (t : system.tree) (directory : pathlib.PurePath)
  (pattern : string) (unless_present : bool)
  (zip_files : list pathlib.PurePath) :
  fst (zipped_imgs_to_pdf_driver.search t directory pattern unless_present
         zip_files)
  = fst (zipped_imgs_to_pdf_driver.collect t unless_present
           (system.yielded (system.rglob t directory pattern)) zip_files).
Proof.
  unfold zipped_imgs_to_pdf_driver.search.
  destruct (zipped_imgs_to_pdf_driver.collect t unless_present _ zip_files)
    as [zs [e |]]; reflexivity.
Qed.

(** The list both loops leave behind. *)
Lemma found_fst (t : system.tree) (directory : pathlib.PurePath) :
  let lower := zipped_imgs_to_pdf_driver.search t directory "*.zip" false [] in
  let both :=
    match lower with
    | (zip_files, None) =>
        zipped_imgs_to_pdf_driver.search t directory "*.ZIP" true zip_files
    | stopped => stopped
    end in
  fst both = fst lower
  \/ fst both
     = fst (zipped_imgs_to_pdf_driver.collect t true
              (system.yielded (system.rglob t directory "*.ZIP"))
              (fst lower)).
Proof.
  intros lower both. subst both.
  destruct lower as [zs [e |]]; [now left | right].
  apply search_fst.
Qed.

Lemma search_unbroken (t : system.tree) (directory : pathlib.PurePath)
  (pattern : string) (unless_present : bool)
  (zip_files : list pathlib.PurePath) :
  system.failure (system.rglob t directory pattern) = None ->
  (forall p, In p (system.yielded (system.rglob t directory pattern)) ->
     exists b, system.is_file t p = Ok b) ->
  zipped_imgs_to_pdf_driver.search t directory pattern unless_present zip_files
  = (fst (zipped_imgs_to_pdf_driver.collect t unless_present
            (system.yielded (system.rglob t directory pattern)) zip_files),
     None).
Proof.
  intros Hf Hfile. unfold zipped_imgs_to_pdf_driver.search.
  destruct (collect_complete t unless_present _ zip_files Hfile) as [Hn _].
  destruct (zipped_imgs_to_pdf_driver.collect t unless_present _ zip_files)
    as [zs r].
  cbn [fst snd] in *. subst r. now rewrite Hf.
Qed.

Lemma collect_answered (t : system.tree) (unless_present : bool)
  (todo zip_files : list pathlib.PurePath) :
  zipped_imgs_to_pdf_driver.collect t unless_present todo zip_files
  = (fst (zipped_imgs_to_pdf_driver.collect t unless_present
            (answered t todo) zip_files),
     first_refusal t todo).
Proof.
  revert zip_files; induction todo as [| p rest IH]; intros zip_files;
    [reflexivity |].
  cbn [zipped_imgs_to_pdf_driver.collect answered first_refusal].
  destruct (system.is_file t p) as [[|] | e] eqn:Ep; [| | reflexivity];
    cbn [zipped_imgs_to_pdf_driver.collect]; rewrite Ep.
  - destruct (unless_present && existsb (pathlib.path_eq p) zip_files);
      apply IH.
  - apply IH.
Qed.

Lemma answered_ok (t : system.tree) (todo : list pathlib.PurePath)
  (p : pathlib.PurePath) :
  In p (answered t todo) -> exists b, system.is_file t p = Ok b.
Proof.
  induction todo as [| q rest IH]; simpl; [intros [] |].
  destruct (system.is_file t q) as [b | e] eqn:Eq; [| intros []].
  intros [<- | H]; [eauto | now apply IH].
Qed.

Lemma answered_yielded (t : system.tree) (todo : list pathlib.PurePath)
  (p : pathlib.PurePath) :
  In p (answered t todo) -> In p todo.
Proof.
  induction todo as [| q rest IH]; simpl; [intros [] |].
  destruct (system.is_file t q) as [b | e]; [| intros []].
  intros [<- | H]; [now left | right; now apply IH].
Qed.

Lemma search_answered (t : system.tree) (directory : pathlib.PurePath)
  (pattern : string) (unless_present : bool)
  (zip_files : list pathlib.PurePath) :
  zipped_imgs_to_pdf_driver.search t directory pattern unless_present zip_files
  = (fst (zipped_imgs_to_pdf_driver.collect t unless_present
            (answered t (system.yielded (system.rglob t directory pattern)))
            zip_files),
     walk_failure t (system.rglob t directory pattern)).
Proof.
  unfold zipped_imgs_to_pdf_driver.search, walk_failure.
  rewrite collect_answered.
  destruct (first_refusal t _); reflexivity.
Qed.

(** Both loops, told by the paths they got through. *)
Lemma find_through (t : system.tree) (directory : pathlib.PurePath) :
  zipped_imgs_to_pdf_driver.find_zip_files_recursive t directory
  = (match search_failure t directory with
     | Some e =>
         [system.Notice (system.ErrorSearchingDirectory directory e)]
     | None => []
     end,
     Ok (sort_by pathlib.path_lt
           (fst (zipped_imgs_to_pdf_driver.collect t true
                   match walk_failure t (system.rglob t directory "*.zip") with
                   | Some _ => []
                   | None =>
                       answered t
                         (system.yielded (system.rglob t directory "*.ZIP"))
                   end
                   (fst (zipped_imgs_to_pdf_driver.collect t false
                           (answered t
                              (system.yielded
                                 (system.rglob t directory "*.zip")))
                           [])))))).
Proof.
  rewrite find_run. cbv zeta. unfold search_failure.
  rewrite (search_answered t directory "*.zip").
  destruct (walk_failure t (system.rglob t directory "*.zip")) as [e |].
  - reflexivity.
  - rewrite (search_answered t directory "*.ZIP"). reflexivity.
Qed.

(** Property X18.
    [find_zip_files_recursive] never raises.  The first failure of
    the search, an [is_file] call that raises or a walk that breaks off,
    ends the search and is reported in one line; without a failure
    nothing is printed.  Either way the function returns what it had
    found: the list it returns is in ascending path order, every path in
    it is a file among the paths the search got through before the
    failure, which the patterns [*.zip] and [*.ZIP] yielded, and every
    file among those paths is in the list, as itself or as an equal
    path. *)
Theorem found_zip_files_are_sorted_files (t : system.tree)
  (directory : pathlib.PurePath) :
  let run := zipped_imgs_to_pdf_driver.find_zip_files_recursive t directory in
  exists zip_files,
    snd run = Ok zip_files
    /\ StronglySorted (fun p q => pathlib.path_lt q p = false) zip_files
    /\ (forall p, In p zip_files ->
          system.is_file t p = Ok true
          /\ In p (gone_through t directory)
          /\ (In p (system.yielded (system.rglob t directory "*.zip"))
              \/ In p (system.yielded (system.rglob t directory "*.ZIP"))))
    /\ (forall p, In p (gone_through t directory) ->
          system.is_file t p = Ok true ->
          exists q, In q zip_files /\ pathlib.path_eq p q = true)
    /\ fst run
       = match search_failure t directory with
         | Some e =>
             [system.Notice (system.ErrorSearchingDirectory directory e)]
         | None => []
         end
    /\ (fst run = []
        \/ exists e,
             fst run
             = [system.Notice (system.ErrorSearchingDirectory directory e)]).
Proof.
  intros run. subst run. rewrite find_through. cbn [fst snd].
  set (l1 := answered t (system.yielded (system.rglob t directory "*.zip"))).
  set (l2 := match walk_failure t (system.rglob t directory "*.zip") with
             | Some _ => []
             | None =>
                 answered t (system.yielded (system.rglob t directory "*.ZIP"))
             end).
  assert (Hthrough : gone_through t directory = l1 ++ l2) by reflexivity.
  assert (Hl2 : forall p, In p l2 ->
            In p (answered t
                    (system.yielded (system.rglob t directory "*.ZIP")))).
  { intros p Hp. subst l2.
    destruct (walk_failure t _); [destruct Hp | exact Hp]. }
  destruct (collect_adds t false l1 []) as (a1 & E1 & H1). simpl in E1.
  destruct (collect_adds t true l2
              (fst (zipped_imgs_to_pdf_driver.collect t false l1 [])))
    as (a2 & E2 & H2).
  rewrite Forall_forall in H1, H2.
  eexists. split; [reflexivity |].
  split; [exact (sort_by_sorted pathlib.path_lt _) |].
  split; [| split; [| split]].
  - intros p Hp.
    apply (Permutation_in _ (sort_by_perm pathlib.path_lt _)) in Hp.
    rewrite E2, E1 in Hp. rewrite Hthrough.
    apply in_app_or in Hp as [Hp | Hp].
    + destruct (H1 p Hp) as [Hf Hin]. split; [exact Hf |].
      split; [apply in_or_app; now left |].
      left. exact (answered_yielded t _ p Hin).
    + destruct (H2 p Hp) as [Hf Hin]. split; [exact Hf |].
      split; [apply in_or_app; now right |].
      right. exact (answered_yielded t _ p (Hl2 p Hin)).
  - intros p Hp Hfile. rewrite Hthrough in Hp.
    assert (Hc : In (pathlib.cparts p)
                    (map pathlib.cparts
                       (fst (zipped_imgs_to_pdf_driver.collect t true l2
                               (fst (zipped_imgs_to_pdf_driver.collect t false
                                       l1 [])))))).
    { apply in_app_or in Hp as [Hp | Hp].
      - rewrite E2, map_app. apply in_or_app. left.
        apply (collect_complete t false l1 []); [| exact Hp | exact Hfile].
        intros q Hq. exact (answered_ok t _ q Hq).
      - apply (collect_complete t true l2 _); [| exact Hp | exact Hfile].
        intros q Hq. exact (answered_ok t _ q (Hl2 q Hq)). }
    apply in_map_iff in Hc as (q & Eq & Hq).
    exists q. split.
    + apply (Permutation_in _ (Permutation_sym (sort_by_perm _ _))). exact Hq.
    + now apply path_eq_iff.
  - reflexivity.
  - destruct (search_failure t directory) as [e |]; [right; eauto | now left].
Qed.

Lemma found_zip_files_are_sorted_files_witness :
  exists zip_files,
    snd (zipped_imgs_to_pdf_driver.find_zip_files_recursive
           (sample_tree [pathlib.Path "/d/b.zip"; pathlib.Path "/d/a.zip"])
           (pathlib.Path "/d")) = Ok zip_files
    /\ StronglySorted (fun p q => pathlib.path_lt q p = false) zip_files.
Proof.
  destruct (found_zip_files_are_sorted_files
              (sample_tree [pathlib.Path "/d/b.zip"; pathlib.Path "/d/a.zip"])
              (pathlib.Path "/d")) as (zip_files & H1 & H2 & _).
  exists zip_files. split; [exact H1 | exact H2].
Defined.

(** A search that fails on its second path: the failure is printed and
    the file found before it is returned. *)
Example find_zip_files_recursive_broken :
  zipped_imgs_to_pdf_driver.find_zip_files_recursive
    (sample_broken_tree [pathlib.Path "/d/b.zip"; pathlib.Path "/d/x.zip";
                         pathlib.Path "/d/a.zip"] "x.zip")
    (pathlib.Path "/d")
  = ([system.Notice
        (system.ErrorSearchingDirectory (pathlib.Path "/d") OSError)],
     Ok [pathlib.Path "/d/b.zip"]).
Proof.
  reflexivity.
Qed.

(** Property X19.
    No archive is listed twice.  A file the second pattern yields
    is added only if no equal path is in the list yet, so where both
    patterns match the same files (a file system that ignores case) each
    file comes once: if the paths the first pattern yields are distinct,
    the paths of the returned list are. *)
Theorem no_zip_file_is_listed_twice (t : system.tree)
  (directory : pathlib.PurePath) (zip_files : list pathlib.PurePath) :
  NoDup (map pathlib.cparts
           (system.yielded (system.rglob t directory "*.zip"))) ->
  snd (zipped_imgs_to_pdf_driver.find_zip_files_recursive t directory)
  = Ok zip_files ->
  NoDup (map pathlib.cparts zip_files).
Proof.
  intros Hlower. rewrite find_run. cbn [snd]. intros H. injection H as <-.
  eapply Permutation_NoDup.
  { apply Permutation_map, Permutation_sym, sort_by_perm. }
  assert (H1 : NoDup (map pathlib.cparts
                        (fst (zipped_imgs_to_pdf_driver.search t directory
                                "*.zip" false [])))).
  { rewrite search_fst. apply collect_distinct; [constructor |].
    intros _. exact Hlower. }
  destruct (found_fst t directory) as [E | E]; cbv zeta in E; rewrite E.
  - exact H1.
  - apply collect_distinct; [exact H1 | discriminate].
Qed.

Lemma no_zip_file_is_listed_twice_witness :
  NoDup (map pathlib.cparts [pathlib.Path "/d/a.zip"; pathlib.Path "/d/b.zip"]).
Proof.
  refine (no_zip_file_is_listed_twice
            (sample_tree [pathlib.Path "/d/b.zip"; pathlib.Path "/d/a.zip"])
            (pathlib.Path "/d")
            [pathlib.Path "/d/a.zip"; pathlib.Path "/d/b.zip"] _ _).
  - vm_compute. constructor; [| constructor; [intros [] | constructor]].
    intros [H | []]. discriminate.
  - vm_compute. reflexivity.
Defined.

(** Property X20.
    When neither walk breaks off and [is_file] answers for every
    path they yield, nothing is printed and no archive is missed: every
    file that either pattern yields is in the returned list, as itself
    or as an equal path. *)
Theorem every_zip_file_is_found (t : system.tree)
  (directory : pathlib.PurePath) :
  let lower := system.rglob t directory "*.zip" in
  let upper := system.rglob t directory "*.ZIP" in
  let run := zipped_imgs_to_pdf_driver.find_zip_files_recursive t directory in
  system.failure lower = None ->
  system.failure upper = None ->
  (forall p, In p (system.yielded lower ++ system.yielded upper) ->
     exists b, system.is_file t p = Ok b) ->
  fst run = []
  /\ exists zip_files,
       snd run = Ok zip_files
       /\ forall p,
            In p (system.yielded lower ++ system.yielded upper) ->
            system.is_file t p = Ok true ->
            exists q, In q zip_files /\ pathlib.path_eq p q = true.
Proof.
  intros lower upper run Hl Hu Hfile. subst run lower upper. rewrite find_run.
  cbn [fst snd].
  assert (Hfl : forall p, In p (system.yielded (system.rglob t directory "*.zip")) ->
                  exists b, system.is_file t p = Ok b)
    by (intros p Hp; apply Hfile, in_or_app; now left).
  assert (Hfu : forall p, In p (system.yielded (system.rglob t directory "*.ZIP")) ->
                  exists b, system.is_file t p = Ok b)
    by (intros p Hp; apply Hfile, in_or_app; now right).
  rewrite (search_unbroken t directory "*.zip" false [] Hl Hfl).
  rewrite (search_unbroken t directory "*.ZIP" true _ Hu Hfu).
  cbn [fst snd].
  destruct (collect_complete t false (system.yielded (system.rglob t directory "*.zip")) [] Hfl)
    as [_ Hin1].
  set (z1 := fst (zipped_imgs_to_pdf_driver.collect t false
                    (system.yielded (system.rglob t directory "*.zip")) []))
    in *.
  destruct (collect_complete t true (system.yielded (system.rglob t directory "*.ZIP")) z1 Hfu)
    as [_ Hin2].
  destruct (collect_adds t true (system.yielded (system.rglob t directory "*.ZIP")) z1) as (a2 & E2 & _).
  set (z2 := fst (zipped_imgs_to_pdf_driver.collect t true
                    (system.yielded (system.rglob t directory "*.ZIP")) z1))
    in *.
  split; [reflexivity |].
  eexists. split; [reflexivity |].
  intros p Hp Hfilep.
  assert (Hc : In (pathlib.cparts p) (map pathlib.cparts z2)).
  { apply in_app_or in Hp as [Hp | Hp].
    - rewrite E2, map_app. apply in_or_app. left. now apply Hin1.
    - now apply Hin2. }
  apply in_map_iff in Hc as (q & Eq & Hq).
  exists q. split.
  - apply (Permutation_in _ (Permutation_sym (sort_by_perm _ _))). exact Hq.
  - now apply path_eq_iff.
Qed.

Lemma every_zip_file_is_found_witness :
  fst (zipped_imgs_to_pdf_driver.find_zip_files_recursive
         (sample_tree [pathlib.Path "/d/b.zip"; pathlib.Path "/d/a.zip"])
         (pathlib.Path "/d")) = [].
Proof.
  refine (proj1 (every_zip_file_is_found
                   (sample_tree [pathlib.Path "/d/b.zip";
                                 pathlib.Path "/d/a.zip"])
                   (pathlib.Path "/d") eq_refl eq_refl _)).
  intros p _. exists true. reflexivity.
Defined.
